(** * chd: a hexdump-like utility for Unicode characters

    A shallow embedding of [chd.c] and the properties of its dump
    format, of the dump driver, of the dump parser and of the numeric
    option reader.

    Conventions of the embedding.
    - A [wchar_t] (and a [wint_t] held in one) is a [Z]; a wide string
      is a [list Z] holding the characters before the terminating
      null.  [WEOF] is [-1], its value once stored in a [wchar_t].
    - A byte is a [Z] in [0, 255]; output written with [fwrite] is
      kept as the list of the chunks written, one per call.
    - What the C library supplies for the locale chosen by
      [setlocale(LC_ALL, "")] ([wcwidth], [iswspace], [wcrtomb] and
      its [mbstate_t]) and the file system ([fopen]) are parameters
      of the definitions.  A UTF-8 locale is given as an instance.
    - [int] arithmetic is written on [Z]; [%X] prints its argument as
      the 32-bit unsigned value it is. *)

From Stdlib Require Import String Ascii.
From Stdlib Require Import ZArith List Bool Lia.
Local Open Scope list_scope.
Import ListNotations.
Local Open Scope Z_scope.

(** ** Constants of the program *)

Definition ctlpics : Z := 0x2400.
Definition replacechar : Z := 0xFFFD.
Definition rawbyte : Z := 0x10000000.

(** Limits and codes of the C library: a 32-bit [int] and a 64-bit
    [long]. *)
Definition WEOF : Z := -1.
Definition INT_MAX : Z := 2147483647.
Definition LONG_MAX : Z := 9223372036854775807.
Definition EXIT_FAILURE : Z := 1.

(** Wide-character literals: [L"..."] for ASCII text. *)

Definition wc (a : ascii) : Z := Z.of_N (N_of_ascii a).

Fixpoint wcs (s : string) : list Z :=
  match s with
  | EmptyString => []
  | String a s' => wc a :: wcs s'
  end.

Definition spaces (n : Z) : list Z := repeat 32 (Z.to_nat n).

(** ** The conversions of [wprintf] the program uses *)

Module Printf.

(** [%X] takes an [unsigned int]. *)
Definition to_unsigned (v : Z) : Z := v mod 2 ^ 32.

Definition hexdigit (d : Z) : Z := if d <? 10 then 48 + d else 55 + d.

Definition nibble (v i : Z) : Z := Z.land (Z.shiftr v (4 * i)) 15.

Fixpoint strip0 (l : list Z) : list Z :=
  match l with
  | 0 :: (_ :: _) as t => strip0 t
  | _ => l
  end.

(** The digits of a 32-bit value, most significant first, without
    leading zeros (one digit for zero). *)
Definition nibbles (v : Z) : list Z :=
  strip0 (map (nibble (to_unsigned v)) [7; 6; 5; 4; 3; 2; 1; 0]).

Definition hexdigits (v : Z) : list Z := map hexdigit (nibbles v).

(** [%<width>X] with ([zero = true]) or without the [0] flag: the
    width is a minimum, the digits are never cut. *)
Definition fmt_X (zero : bool) (width : Z) (v : Z) : list Z :=
  let d := hexdigits v in
  repeat (if zero then 48 else 32) (Z.to_nat (width - Z.of_nat (length d))) ++ d.

(** [%*s] with an empty string: a negative width means left
    justification in a field of the absolute value. *)
Definition fmt_pad (width : Z) : list Z := spaces (Z.abs width).

End Printf.

(** ** Dump format: rendering (renderdumpline) *)

Section Render.

Variable linesize : Z.
Variable wcwidth : Z -> Z.

(** One pass of the first loop of [renderdumpline]. *)
Definition hexfield (c : Z) : list Z :=
  if c <? 256 then wcs "    " ++ Printf.fmt_X true 2 c
  else if negb (Z.land c rawbyte =? 0) then wcs "   *" ++ Printf.fmt_X true 2 (Z.land c 0xFF)
  else Printf.fmt_X false 6 c.

(** One pass of the second loop: the [switch] on [wcwidth]. *)
Definition glyph (c : Z) : list Z :=
  match wcwidth c with
  | 2 => [c]
  | 1 => [c; 32]
  | _ => [if c <? 0x20 then ctlpics + c else replacechar; 32]
  end.

Definition padding (count : Z) : list Z :=
  Printf.fmt_pad (6 * (linesize - count) + 5).

(** [buf] holds the [count] characters of the line; [count] is its
    length. *)
Definition renderdumpline (buf : list Z) (pos : Z) : list Z :=
  let count := Z.of_nat (length buf) in
  (Printf.fmt_X true 8 pos ++ wcs ": ")
    ++ flat_map hexfield buf
    ++ padding count
    ++ flat_map glyph buf
    ++ [10].

End Render.

(** ** File input *)

(** What [fgetwc] finds next in a stream: a character of the locale,
    or a byte that begins no valid sequence ([fgetwc] then fails with
    [EILSEQ], leaves the error indicator set and the byte unread, so
    that [fgetc] returns it). *)
Inductive item : Type :=
| Wc (c : Z)
| Bad (b : Z).

(** A [FILE*] open for reading: [stdin], whose unread input belongs
    to the process, or a named file with its unread input. *)
Inductive FILE : Type :=
| Stdin
| Named (unread : list item).

(** [struct state], with the two pieces of process data its functions
    reach besides it: the unread input of [stdin] and the global
    [exitcode]. *)
Record state : Type := mkstate {
  startoffset : Z;
  maxinputlen : Z;
  filenames : list string;
  currentfile : option FILE;
  stdin_unread : list item;
  exitcode : Z
}.

Definition set_maxinputlen (s : state) (m : Z) : state :=
  mkstate (startoffset s) m (filenames s) (currentfile s) (stdin_unread s) (exitcode s).

Definition set_input (s : state) (names : list string) (f : option FILE) : state :=
  mkstate (startoffset s) (maxinputlen s) names f (stdin_unread s) (exitcode s).

(** [fail]: the message goes to [stderr], which is left out; the
    global [exitcode] is set. *)
Definition fail (s : state) : state :=
  mkstate (startoffset s) (maxinputlen s) (filenames s) (currentfile s)
          (stdin_unread s) EXIT_FAILURE.

Definition unread (s : state) (f : FILE) : list item :=
  match f with
  | Stdin => stdin_unread s
  | Named l => l
  end.

Definition set_unread (s : state) (f : FILE) (l : list item) : state :=
  match f with
  | Stdin => mkstate (startoffset s) (maxinputlen s) (filenames s) (Some Stdin) l (exitcode s)
  | Named _ => set_input s (filenames s) (Some (Named l))
  end.

Section Input.

(** [fopen(name, "r")]: the contents of the file, or [None] when it
    cannot be opened. *)
Variable fopen : string -> option (list item).
Variable acceptbadchars : bool.

(** [inputinit] when no file is open: the recursion runs down the
    list of names. *)
Fixpoint inputinit_next (names : list string) (s : state) : bool * state :=
  match names with
  | [] => (false, set_input s [] None)
  | name :: rest =>
      if String.eqb name "-" then (true, set_input s ("stdin"%string :: rest) (Some Stdin))
      else match fopen name with
           | Some l => (true, set_input s names (Some (Named l)))
           | None => inputinit_next rest (fail (set_input s names None))
           end
  end.

Definition inputinit (s : state) : bool * state :=
  match currentfile s with
  | Some _ => (true, s)
  | None => inputinit_next (filenames s) s
  end.

(** [inputupdate]; [err] is [ferror(s->currentfile)].  [fclose] of
    a stream that was only read succeeds.  A closed [stdin] has
    nothing more to give. *)
Definition inputupdate (err : bool) (s : state) : state :=
  let s1 := if err then fail s else s in
  let s2 :=
    match currentfile s1, err with
    | Some Stdin, true =>
        mkstate (startoffset s1) (maxinputlen s1) (filenames s1) (currentfile s1) [] (exitcode s1)
    | _, _ => s1
    end in
  set_input s2 (tl (filenames s2)) None.

(** The loop of [nextwchar]; every turn that does not return drops
    a file name, which bounds the number of turns. *)
Fixpoint nextwchar_loop (turns : nat) (s : state) : Z * state :=
  match turns with
  | O => (WEOF, s)
  | S turns' =>
      let (ok, s1) := inputinit s in
      if negb ok then (WEOF, s1)
      else match currentfile s1 with
           | None => (WEOF, s1)
           | Some f =>
               match unread s1 f with
               | Wc ch :: l =>
                   if negb (ch =? WEOF) then (ch, set_unread s1 f l)
                   else nextwchar_loop turns' (inputupdate false (set_unread s1 f l))
               | Bad b :: l =>
                   if acceptbadchars then (Z.lor rawbyte b, set_unread s1 f l)
                   else nextwchar_loop turns' (inputupdate true s1)
               | [] => nextwchar_loop turns' (inputupdate false s1)
               end
           end
  end.

Definition nextwchar (s : state) : Z * state :=
  nextwchar_loop (S (length (filenames s))) s.

(** The characters a state still has to give, in order. *)
Inductive yields : state -> list Z -> Prop :=
| yields_end (s s' : state) :
    nextwchar s = (WEOF, s') -> yields s []
| yields_char (s s' : state) (c : Z) (cs : list Z) :
    nextwchar s = (c, s') -> c <> WEOF ->
    yields s' cs -> yields s (c :: cs).

(** [fgetws(buf, buflen, f)] on the unread input [l], with [room]
    characters of the buffer still free: the characters stored so
    far are [acc].  The result is the line (or [None] for a null
    return), the error indicator, and what is left unread. *)
Fixpoint fgetws_from (room : nat) (acc : list Z) (l : list item)
  : option (list Z) * bool * list item :=
  match room with
  | O => (Some acc, false, l)
  | S room' =>
      match l with
      | [] => (match acc with [] => None | _ => Some acc end, false, l)
      | Bad _ :: _ => (None, true, l)
      | Wc ch :: l' =>
          if ch =? 10 then (Some (acc ++ [ch]), false, l')
          else fgetws_from room' (acc ++ [ch]) l'
      end
  end.

Definition fgetws (buflen : Z) (l : list item) : option (list Z) * bool * list item :=
  fgetws_from (Z.to_nat (buflen - 1)) [] l.

(** The wide string a buffer holds ends at its first null. *)
Fixpoint wcstring (buf : list Z) : list Z :=
  match buf with
  | [] => []
  | ch :: t => if ch =? 0 then [] else ch :: wcstring t
  end.

Fixpoint nextwline_loop (turns : nat) (buflen : Z) (s : state) : option (list Z) * state :=
  match turns with
  | O => (None, s)
  | S turns' =>
      let (ok, s1) := inputinit s in
      if negb ok then (None, s1)
      else match currentfile s1 with
           | None => (None, s1)
           | Some f =>
               match fgetws buflen (unread s1 f) with
               | (Some buf, _, l) => (Some (wcstring buf), set_unread s1 f l)
               | (None, err, l) => nextwline_loop turns' buflen (inputupdate err (set_unread s1 f l))
               end
           end
  end.

Definition nextwline (buflen : Z) (s : state) : option (list Z) * state :=
  nextwline_loop (S (length (filenames s))) buflen s.

End Input.

(** ** The conversions of [swscanf] the program uses *)

Module Scanf.

Section Conversions.

Variable iswspace : Z -> bool.

Definition iswxdigit (c : Z) : bool :=
  ((48 <=? c) && (c <=? 57)) || ((65 <=? c) && (c <=? 70)) || ((97 <=? c) && (c <=? 102)).

Definition xvalue (c : Z) : Z :=
  if c <=? 57 then c - 48 else if c <=? 70 then c - 55 else c - 87.

(** White space is skipped before a conversion and by a
    white-space directive; the characters skipped do not count
    against the field width, which bounds the input item only. *)
Fixpoint skipws (s : list Z) : list Z :=
  match s with
  | c :: t => if iswspace c then skipws t else s
  | [] => []
  end.

(** The hexadecimal digits of the input item: at most [width] of
    them are read; [acc] is the value and [seen] tells whether a
    digit was read already. *)
Fixpoint xdigits (width : nat) (s : list Z) (acc : Z) (seen : bool) : option Z :=
  match width, s with
  | S width', c :: t =>
      if iswxdigit c then xdigits width' t (16 * acc + xvalue c) true
      else if seen then Some acc else None
  | _, _ => if seen then Some acc else None
  end.

(** After the sign: a leading [0] is a digit, and an [x] after it
    is taken as the base prefix when the width allows. *)
Definition xprefix (width : nat) (s : list Z) : option Z :=
  match width, s with
  | S width', c :: t =>
      if c =? 48 then
        match width', t with
        | S width'', x :: t' =>
            if (x =? 120) || (x =? 88) then xdigits width'' t' 0 true
            else xdigits width' t 0 true
        | _, _ => xdigits width' t 0 true
        end
      else xdigits width s 0 false
  | _, _ => xdigits width s 0 false
  end.

Definition to_int (v : Z) : Z :=
  let u := v mod 2 ^ 32 in if u <? 2 ^ 31 then u else u - 2 ^ 32.

(** [%<width>X] stored through an [int*]: [None] when the
    conversion fails (a matching failure or the end of the
    string). *)
Definition conv_X (width : nat) (s : list Z) : option Z :=
  match skipws s with
  | [] => None
  | c :: t =>
      if c =? 45 then option_map (fun v => to_int (- v)) (xprefix (pred width) t)
      else if c =? 43 then option_map to_int (xprefix (pred width) t)
      else option_map to_int (xprefix width (c :: t))
  end.

(** [swscanf(p, L"%6X", &ch) == 1] gives [Some ch]. *)
Definition scan_6X (p : list Z) : option Z := conv_X 6 p.

(** [swscanf(p, L" *%2X", &ch) == 1] gives [Some ch]. *)
Definition scan_star_2X (p : list Z) : option Z :=
  match skipws p with
  | c :: t => if c =? 42 then conv_X 2 t else None
  | [] => None
  end.

End Conversions.

End Scanf.

(** ** Outcomes of code that may leave defined behaviour *)

(** [Undefined] stands for an execution the C text gives no meaning
    to: a read past the terminating null of the line, or a size taken
    from a failed [wcrtomb]. *)
Inductive outcome (A : Type) : Type :=
| Ok (a : A)
| Undefined.
Arguments Ok {A} a.
Arguments Undefined {A}.

Definition bind {A B : Type} (m : outcome A) (k : A -> outcome B) : outcome B :=
  match m with
  | Ok a => k a
  | Undefined => Undefined
  end.

Notation "x <- m ;; k" := (bind m (fun x => k))
  (at level 61, m at next level, right associativity).

(** ** Dump format: parsing (translatedumpline) *)

(** What a call leaves: the chunks given to [fwrite], in order, and
    the conversion state (the [static] variable [mbs]). *)
Definition written (mbstate_t : Type) : Type := (list (list Z) * mbstate_t)%type.

Section Translate.

Variable linesize : Z.
Variable iswspace : Z -> bool.

(** The conversion state and [wcrtomb(out, ch, &mbs)]: the bytes
    stored in [out] (their number is the return value), or [None]
    for the return value [(size_t)-1], and the state left. *)
Context {mbstate_t : Type}.
Variable wcrtomb : Z -> mbstate_t -> option (list Z) * mbstate_t.

(** [p += 6]: a pointer may stand on the terminating null, not
    beyond it. *)
Definition advance (p : list Z) : option (list Z) :=
  if (6 <=? length p)%nat then Some (skipn 6 p) else None.

(** The address: [for (p = line ; *p != L'\0' && *p != L' ' ; ++p) ;] *)
Fixpoint skipaddress (p : list Z) : list Z :=
  match p with
  | [] => []
  | c :: t => if c =? 32 then p else skipaddress t
  end.

(** [out[n - 1] = ch] on the [n] bytes [wcrtomb] stored. *)
Definition set_last (out : list Z) (ch : Z) : list Z :=
  removelast out ++ [ch mod 256].

(** The loop over the fields; [left] is [linesize - i], and [p] is
    [None] once it points past the terminating null. *)
Fixpoint translatefields (left : nat) (i : Z) (p : option (list Z))
         (w : written mbstate_t) : outcome (Z * written mbstate_t) :=
  match left with
  | O => Ok (i, w)
  | S left' =>
      match p with
      | None => Undefined
      | Some str =>
          let (chunks, mbs) := w in
          match Scanf.scan_6X iswspace str with
          | Some ch =>
              match wcrtomb ch mbs with
              | (Some out, mbs1) =>
                  translatefields left' (i + 1) (advance str) (chunks ++ [out], mbs1)
              | (None, mbs1) =>
                  match wcrtomb replacechar mbs1 with
                  | (Some out, mbs2) =>
                      translatefields left' (i + 1) (advance str) (chunks ++ [out], mbs2)
                  | (None, _) => Undefined
                  end
              end
          | None =>
              match Scanf.scan_star_2X iswspace str with
              | Some ch =>
                  match wcrtomb 0 mbs with
                  | (Some out, mbs1) =>
                      translatefields left' (i + 1) (advance str)
                                      (chunks ++ [set_last out ch], mbs1)
                  | (None, _) => Undefined
                  end
              | None => Ok (i, w)
              end
          end
      end
  end.

(** [translatedumpline(line)]; [None] is the null pointer.  The
    result is the return value and what was written. *)
Definition translatedumpline (line : option (list Z)) (mbs : mbstate_t)
  : outcome (Z * written mbstate_t) :=
  match line with
  | None =>
      match wcrtomb 0 mbs with
      | (Some out, mbs1) => Ok (0, ([removelast out], mbs1))
      | (None, _) => Undefined
      end
  | Some l =>
      match skipaddress l with
      | [] => Ok (0, ([], mbs))
      | _ :: p => translatefields (Z.to_nat linesize) 0 (Some p) ([], mbs)
      end
  end.

End Translate.

(** ** The main program functions *)

Section Dump.

Variable linesize : Z.
Variable wcwidth : Z -> Z.
Variable fopen : string -> option (list item).
Variable acceptbadchars : bool.

(** [for (pos = 0 ; ch != WEOF && pos < s->startoffset ; ++pos)]:
    [left] bounds the passes still possible. *)
Fixpoint dump_skip (left : nat) (pos ch : Z) (s : state) : Z * Z * state :=
  match left with
  | O => (pos, ch, s)
  | S left' =>
      if negb (ch =? WEOF) && (pos <? startoffset s) then
        let (ch', s') := nextwchar fopen acceptbadchars s in
        dump_skip left' (pos + 1) ch' s'
      else (pos, ch, s)
  end.

(** [for (n = 0 ; n < linesize && s->maxinputlen > 0 ; ++n)]:
    [left] is [linesize - n] and [line] holds [line[0..n-1]]. *)
Fixpoint dump_fill (left : nat) (line : list Z) (ch : Z) (s : state)
  : list Z * Z * state :=
  match left with
  | O => (line, ch, s)
  | S left' =>
      if maxinputlen s >? 0 then
        let (ch', s') := nextwchar fopen acceptbadchars s in
        if ch' =? WEOF then (line, ch', s')
        else dump_fill left' (line ++ [ch']) ch' (set_maxinputlen s' (maxinputlen s' - 1))
      else (line, ch, s)
  end.

(** A call [renderdumpline(line, n, pos)]. *)
Definition call : Type := (list Z * Z)%type.

(** [while (ch != WEOF && s->maxinputlen > 0)]: the loop has no
    bound of its own, so the model counts its turns down from
    [fuel] and answers [None] when they run out. *)
Fixpoint dump_loop (fuel : nat) (pos ch : Z) (s : state) : option (list call * state) :=
  match fuel with
  | O => None
  | S fuel' =>
      if negb (ch =? WEOF) && (maxinputlen s >? 0) then
        let '(line, ch', s') := dump_fill (Z.to_nat linesize) [] ch s in
        let n := Z.of_nat (length line) in
        match dump_loop fuel' (pos + n) ch' s' with
        | Some (calls, s'') =>
            Some ((if n =? 0 then [] else [(line, pos)]) ++ calls, s'')
        | None => None
        end
      else Some ([], s)
  end.

(** [dump]: the calls of [renderdumpline] it makes, in order. *)
Definition dump_calls (fuel : nat) (s : state) : option (list call * state) :=
  let '(pos, ch, s1) := dump_skip (Z.to_nat (startoffset s)) 0 0 s in
  dump_loop fuel pos ch s1.

(** [dump]: the text written to [stdout]. *)
Definition dump (fuel : nat) (s : state) : option (list Z * state) :=
  match dump_calls fuel s with
  | Some (calls, s') =>
      Some (flat_map (fun c : call => renderdumpline linesize wcwidth (fst c) (snd c)) calls, s')
  | None => None
  end.

End Dump.

Section Undump.

Variable linesize : Z.
Variable iswspace : Z -> bool.
Context {mbstate_t : Type}.
Variable wcrtomb : Z -> mbstate_t -> option (list Z) * mbstate_t.
Variable fopen : string -> option (list item).

(** [while (nextwline(s, line, len) && s->maxinputlen > 0)]: every
    turn reads a line, so the turns are bounded by the input; the
    model counts them down from [fuel] and answers [None] when they
    run out. *)
Fixpoint undump_loop (fuel : nat) (len : Z) (s : state) (w : written mbstate_t)
  : option (outcome (state * written mbstate_t)) :=
  match fuel with
  | O => None
  | S fuel' =>
      match nextwline fopen len s with
      | (Some line, s1) =>
          if maxinputlen s1 >? 0 then
            match translatedumpline linesize iswspace wcrtomb (Some line) (snd w) with
            | Ok (n, (chunks, mbs1)) =>
                undump_loop fuel' len (set_maxinputlen s1 (maxinputlen s1 - n))
                            (fst w ++ chunks, mbs1)
            | Undefined => Some Undefined
            end
          else Some (Ok (s1, w))
      | (None, s1) => Some (Ok (s1, w))
      end
  end.

(** [undump]; [mbs] is the initial conversion state. *)
Definition undump (fuel : nat) (mbs : mbstate_t) (s : state)
  : option (outcome (state * written mbstate_t)) :=
  let len := linesize * 8 + 20 in
  match undump_loop fuel len s ([], mbs) with
  | Some (Ok (s1, (chunks, mbs1))) =>
      match translatedumpline linesize iswspace wcrtomb None mbs1 with
      | Ok (_, (flush, mbs2)) => Some (Ok (s1, (chunks ++ flush, mbs2)))
      | Undefined => Some Undefined
      end
  | Some Undefined => Some Undefined
  | None => None
  end.

End Undump.

(** ** Command line *)

(** The ways [die] is called. *)
Inductive fatal : Type :=
| MissingArgument (name : string)
| InvalidArgument (str name : string)
| ValueTooLarge (name : string) (maxval : Z)
| TryHelp.

Module Strtol.

Definition isspace (c : Z) : bool := ((9 <=? c) && (c <=? 13)) || (c =? 32).

(** The value of a digit in the given base, if it is one. *)
Definition digit (base c : Z) : option Z :=
  let v := if (48 <=? c) && (c <=? 57) then c - 48
           else if (97 <=? c) && (c <=? 122) then c - 87
           else if (65 <=? c) && (c <=? 90) then c - 55
           else 36 in
  if v <? base then Some v else None.

(** The longest run of digits: its value, whether any digit was
    read, and the rest of the string. *)
Fixpoint digits (base : Z) (s : list Z) (acc : Z) (seen : bool) : Z * bool * list Z :=
  match s with
  | c :: t =>
      match digit base c with
      | Some v => digits base t (base * acc + v) true
      | None => (acc, seen, s)
      end
  | [] => (acc, seen, s)
  end.

Fixpoint skipspace (s : list Z) : list Z :=
  match s with
  | c :: t => if isspace c then skipspace t else s
  | [] => []
  end.

(** The subject after the sign, with base 0: a [0x] prefix counts
    when a hexadecimal digit follows it. *)
Definition magnitude (s : list Z) : Z * bool * list Z :=
  match s with
  | 48 :: (120 | 88) :: c :: t =>
      match digit 16 c with
      | Some _ => digits 16 (c :: t) 0 false
      | None => digits 8 s 0 false
      end
  | 48 :: _ => digits 8 s 0 false
  | _ => digits 10 s 0 false
  end.

(** [n = strtol(str, &p, 0)]: the value, whether [p == str], the
    string at [p], and whether [errno] was set to [ERANGE]. *)
Definition strtol (str : list Z) : Z * bool * list Z * bool :=
  let s := skipspace str in
  let '(neg, s1) := match s with
                    | 45 :: t => (true, t)
                    | 43 :: t => (false, t)
                    | _ => (false, s)
                    end in
  let '(v, seen, rest) := magnitude s1 in
  if negb seen then (0, true, str, false)
  else if neg then
         if v >? LONG_MAX + 1 then (- LONG_MAX - 1, false, rest, true)
         else (- v, false, rest, false)
       else
         if v >? LONG_MAX then (LONG_MAX, false, rest, true)
         else (v, false, rest, false).

End Strtol.

Definition chars (s : string) : list Z := wcs s.

(** [getn(str, name, maxval)]; [str] is [None] for a null pointer and
    [erange0] tells whether [errno] was [ERANGE] at the call
    ([strtol] only ever sets it). *)
Definition getn (erange0 : bool) (str : option string) (name : string) (maxval : Z)
  : fatal + Z :=
  match str with
  | None => inl (MissingArgument name)
  | Some EmptyString => inl (MissingArgument name)
  | Some text =>
      let '(n, nothing, p, erange) := Strtol.strtol (chars text) in
      if negb (match p with [] => true | _ => false end) || nothing
         || ((n =? LONG_MAX) && (erange0 || erange)) || (n <? 0) || (n >? INT_MAX)
      then inl (InvalidArgument text name)
      else if negb (maxval =? 0) && (n >? maxval)
           then inl (ValueTooLarge name maxval)
           else inr n
  end.

(** The settings [parsecommandline] fills in: the fields of [state]
    it sets and the globals [linesize] and [acceptbadchars]. *)
Record settings : Type := mksettings {
  opt_startoffset : Z;
  opt_maxinputlen : Z;
  opt_linesize : Z;
  opt_acceptbadchars : bool;
  opt_forward : bool
}.

Definition defaults : settings := mksettings 0 INT_MAX 8 false true.

(** One return of [getopt_long]: the option character and [optarg]. *)
Definition option_seen : Type := (ascii * option string)%type.

(** The ways the program ends while it reads its options: through
    [die], or with [exit(0)] after the help or version text. *)
Inductive early : Type :=
| Die (e : fatal)
| Exit0.

(** The loop of [parsecommandline] over what [getopt_long] returns. *)
Fixpoint parseoptions (opts : list option_seen) (cfg : settings) : early + settings :=
  match opts with
  | [] => inr cfg
  | (ch, optarg) :: rest =>
      let set (r : fatal + Z) (k : Z -> settings) :=
        match r with
        | inl e => inl (Die e)
        | inr n => parseoptions rest (k n)
        end in
      if Ascii.eqb ch "l" then
        set (getn false optarg "limit" 0)
            (fun n => mksettings (opt_startoffset cfg) n (opt_linesize cfg)
                                 (opt_acceptbadchars cfg) (opt_forward cfg))
      else if Ascii.eqb ch "s" then
        set (getn false optarg "start" 0)
            (fun n => mksettings n (opt_maxinputlen cfg) (opt_linesize cfg)
                                 (opt_acceptbadchars cfg) (opt_forward cfg))
      else if Ascii.eqb ch "c" then
        set (getn false optarg "count" 255)
            (fun n => mksettings (opt_startoffset cfg) (opt_maxinputlen cfg) n
                                 (opt_acceptbadchars cfg) (opt_forward cfg))
      else if Ascii.eqb ch "i" then
        parseoptions rest (mksettings (opt_startoffset cfg) (opt_maxinputlen cfg)
                                      (opt_linesize cfg) true (opt_forward cfg))
      else if Ascii.eqb ch "r" then
        parseoptions rest (mksettings (opt_startoffset cfg) (opt_maxinputlen cfg)
                                      (opt_linesize cfg) (opt_acceptbadchars cfg) false)
      else if Ascii.eqb ch "h" || Ascii.eqb ch "v" then inl Exit0
      else inl (Die TryHelp)
  end.

Definition parsecommandline (opts : list option_seen) : early + settings :=
  parseoptions opts defaults.

(** ** A UTF-8 locale *)

Module Utf8.

(** [wcrtomb] has no shift states in UTF-8. *)
Definition mbstate_t : Type := unit.

Definition cont (c shift : Z) : Z := Z.lor 0x80 (Z.land (Z.shiftr c shift) 0x3F).

Definition encode (c : Z) : option (list Z) :=
  if c <? 0 then None
  else if c <? 0x80 then Some [c]
  else if c <? 0x800 then Some [Z.lor 0xC0 (Z.shiftr c 6); cont c 0]
  else if c <? 0x10000 then
    if (0xD800 <=? c) && (c <=? 0xDFFF) then None
    else Some [Z.lor 0xE0 (Z.shiftr c 12); cont c 6; cont c 0]
  else if c <? 0x110000 then
    Some [Z.lor 0xF0 (Z.shiftr c 18); cont c 12; cont c 6; cont c 0]
  else None.

Definition wcrtomb (c : Z) (mbs : mbstate_t) : option (list Z) * mbstate_t :=
  (encode c, mbs).

Definition iscont (b : Z) : bool := (0x80 <=? b) && (b <? 0xC0).

(** The character that begins the byte string, with the number of
    bytes it takes, if a valid sequence begins it. *)
Definition decode1 (bs : list Z) : option (Z * nat) :=
  match bs with
  | [] => None
  | b0 :: t =>
      if (0 <=? b0) && (b0 <? 0x80) then Some (b0, 1%nat)
      else if (0xC2 <=? b0) && (b0 <? 0xE0) then
        match t with
        | b1 :: _ =>
            if iscont b1 then Some (Z.lor (Z.shiftl (Z.land b0 0x1F) 6) (Z.land b1 0x3F), 2%nat)
            else None
        | _ => None
        end
      else if (0xE0 <=? b0) && (b0 <? 0xF0) then
        match t with
        | b1 :: b2 :: _ =>
            let c := Z.lor (Z.shiftl (Z.land b0 0x0F) 12)
                           (Z.lor (Z.shiftl (Z.land b1 0x3F) 6) (Z.land b2 0x3F)) in
            if iscont b1 && iscont b2 && (0x800 <=? c)
               && negb ((0xD800 <=? c) && (c <=? 0xDFFF))
            then Some (c, 3%nat) else None
        | _ => None
        end
      else if (0xF0 <=? b0) && (b0 <? 0xF5) then
        match t with
        | b1 :: b2 :: b3 :: _ =>
            let c := Z.lor (Z.shiftl (Z.land b0 0x07) 18)
                           (Z.lor (Z.shiftl (Z.land b1 0x3F) 12)
                                  (Z.lor (Z.shiftl (Z.land b2 0x3F) 6) (Z.land b3 0x3F))) in
            if iscont b1 && iscont b2 && iscont b3 && (0x10000 <=? c) && (c <? 0x110000)
            then Some (c, 4%nat) else None
        | _ => None
        end
      else None
  end.

(** What [fgetwc] and, after a failure, [fgetc] find in a file of
    the given bytes. *)
Fixpoint items_from (fuel : nat) (bs : list Z) : list item :=
  match fuel, bs with
  | S fuel', b0 :: t =>
      match decode1 bs with
      | Some (c, n) => Wc c :: items_from fuel' (skipn n bs)
      | None => Bad b0 :: items_from fuel' t
      end
  | _, _ => []
  end.

Definition items (bs : list Z) : list item := items_from (length bs) bs.

(** White space of the locale, on the characters below U+0080. *)
Definition iswspace (c : Z) : bool := ((9 <=? c) && (c <=? 13)) || (c =? 32).

(** Display widths of the locale on the characters up to U+00FF;
    [-1] stands for the other values, as [wcwidth] answers for the
    values that are no character. *)
Definition wcwidth (c : Z) : Z :=
  if c =? 0 then 0
  else if (0x20 <=? c) && (c <? 0x7F) then 1
  else if (0xA0 <=? c) && (c <? 0x100) then 1
  else -1.

End Utf8.

(** ** Running the program on bytes, in the UTF-8 locale *)

Definition nofiles (name : string) : option (list item) := None.

Definition initial (cfg : settings) (input : list item) : state :=
  mkstate (opt_startoffset cfg) (opt_maxinputlen cfg) ["-"%string] None input 0.

(** [chd] on standard input: the text of the dump. *)
Definition chd_dump (fuel : nat) (cfg : settings) (input : list Z) : option (list Z) :=
  option_map fst
    (dump (opt_linesize cfg) Utf8.wcwidth nofiles (opt_acceptbadchars cfg) fuel
          (initial cfg (Utf8.items input))).

(** [chd -r] on a dump text given on standard input: the bytes
    written. *)
Definition chd_undump (fuel : nat) (cfg : settings) (text : list Z)
  : option (outcome (list Z)) :=
  match undump (opt_linesize cfg) Utf8.iswspace Utf8.wcrtomb nofiles fuel tt
               (initial cfg (map Wc text)) with
  | Some (Ok (_, (chunks, _))) => Some (Ok (concat chunks))
  | Some Undefined => Some Undefined
  | None => None
  end.

(** [chd | chd -r]: the second process reads the text as the first
    wrote it, character for character. *)
Definition roundtrip (fuel : nat) (cfg : settings) (input : list Z)
  : option (outcome (list Z)) :=
  match chd_dump fuel cfg input with
  | Some text => chd_undump fuel cfg text
  | None => None
  end.

(** ** The vocabulary of the properties *)

(** The character units of the data model: a Unicode code point, or
    a byte carrying the [rawbyte] flag. *)
Inductive unit_value : Z -> Prop :=
| Codepoint (c : Z) : 0 <= c <= 0x10FFFF -> unit_value c
| RawByte (b : Z) : 0 <= b < 256 -> unit_value (Z.lor rawbyte b).

(** The value a run of hexadecimal digits denotes. *)
Definition hexvalue (l : list Z) : Z :=
  fold_left (fun acc c => 16 * acc + Scanf.xvalue c) l 0.

(** Calls that take consecutive windows of [w] characters from
    position [pos] on, the last one possibly shorter, none empty,
    each with the position of its first character. *)
Inductive windowed (w : Z) : Z -> list call -> Prop :=
| windowed_nil (pos : Z) : windowed w pos []
| windowed_last (pos : Z) (line : list Z) :
    0 < Z.of_nat (length line) <= w -> windowed w pos [(line, pos)]
| windowed_cons (pos : Z) (line : list Z) (c : call) (rest : list call) :
    Z.of_nat (length line) = w ->
    windowed w (pos + w) (c :: rest) ->
    windowed w pos ((line, pos) :: c :: rest).

(** Equality of wide strings, as a test. *)
Fixpoint same (a b : list Z) : bool :=
  match a, b with
  | [], [] => true
  | x :: a', y :: b' => (x =? y) && same a' b'
  | _, _ => false
  end.

(** A change of the state under a result. *)
Definition on_state (g : state -> state) {A : Type} (r : A * state) : A * state :=
  (fst r, g (snd r)).

Definition tolerant : settings := mksettings 0 INT_MAX 8 true true.

(** The line [dump] writes for the input [abc]. *)
Definition line_abc : list Z := renderdumpline 8 Utf8.wcwidth (wcs "abc") 0.

(** The value of a list of digits, most significant first. *)
Definition horner (l : list Z) (acc : Z) : Z :=
  fold_left (fun a d => 16 * a + d) l acc.

(** The first character is no hexadecimal digit, if there is one. *)
Definition no_xdigit_ahead (rest : list Z) : Prop :=
  match rest with
  | [] => True
  | r :: _ => Scanf.iswxdigit r = false
  end.

(** A field that begins, after its white space, with a character
    that is no digit, sign or asterisk ends the scan; so does the
    end of the string. *)
Definition stops (iswspace : Z -> bool) (rest : list Z) : Prop :=
  match Scanf.skipws iswspace rest with
  | [] => True
  | c :: _ => Scanf.iswxdigit c = false /\ c <> 45 /\ c <> 43 /\ c <> 42
  end.

(** No code point below U+100000 stands before one that takes six
    digits. *)
Fixpoint separated (buf : list Z) : Prop :=
  match buf with
  | c :: (c' :: _) as t => (c < 0x100000 -> c' < 0x100000 \/ rawbyte <= c') /\ separated t
  | _ => True
  end.

Section Units.

Context {mbstate_t : Type}.
Variable wcrtomb : Z -> mbstate_t -> option (list Z) * mbstate_t.

(** What the character units of a line are to be written as: a
    code point through [wcrtomb], with the replacement character in
    its place when it cannot be encoded, and a raw byte in the last
    place of the encoding of the null character. *)
Fixpoint encode_units (buf : list Z) (w : written mbstate_t) : outcome (written mbstate_t) :=
  match buf with
  | [] => Ok w
  | c :: rest =>
      let (chunks, mbs) := w in
      if Z.land c rawbyte =? 0 then
        match wcrtomb c mbs with
        | (Some out, mbs1) => encode_units rest (chunks ++ [out], mbs1)
        | (None, mbs1) =>
            match wcrtomb replacechar mbs1 with
            | (Some out, mbs2) => encode_units rest (chunks ++ [out], mbs2)
            | (None, _) => Undefined
            end
        end
      else
        match wcrtomb 0 mbs with
        | (Some out, mbs1) =>
            encode_units rest (chunks ++ [set_last out (Z.land c 0xFF)], mbs1)
        | (None, _) => Undefined
        end
  end.

End Units.

Section Waiting.

Variable fopen : string -> option (list item).

(** The items of the files still to be opened. *)
Fixpoint waiting (names : list string) : nat :=
  match names with
  | [] => 0
  | name :: rest =>
      (if String.eqb name "-" then 0
       else match fopen name with
            | Some l => length l
            | None => 0
            end) + waiting rest
  end.

(** The items a state can still read. *)
Definition pending (s : state) : nat :=
  length (stdin_unread s)
  + match currentfile s with
    | None => waiting (filenames s)
    | Some Stdin => waiting (tl (filenames s))
    | Some (Named l) => length l + waiting (tl (filenames s))
    end.

End Waiting.

(** A character a line of text holds before its end: neither the
    newline nor the null character. *)
Definition inline (c : Z) : Prop := c <> 10 /\ c <> 0.

(** The state of [undump] while it reads standard input. *)
Definition reading (so m : Z) (text : list item) (ec : Z) : state :=
  mkstate so m ["stdin"%string] (Some Stdin) text ec.

(** The characters of the calls of [renderdumpline]. *)
Definition units (calls : list call) : list Z := concat (map fst calls).

Section Lines.

Variable linesize : Z.
Variable wcwidth : Z -> Z.
Variable iswspace : Z -> bool.

(** A line of character units the parser reads as it was written:
    it is full, or its glyphs end the scan of its padding. *)
Definition readable (buf : list Z) : Prop :=
  Forall unit_value buf /\ separated buf /\
  0 < Z.of_nat (length buf) <= linesize /\
  (Z.of_nat (length buf) = linesize
   \/ stops iswspace (flat_map (glyph wcwidth) buf ++ [10])).

(** The text of the calls of [renderdumpline]. *)
Definition dumptext (calls : list call) : list Z :=
  flat_map (fun c : call => renderdumpline linesize wcwidth (fst c) (snd c)) calls.

End Lines.

(** The encoder has a sequence for the replacement character and
    one for the null character in every state. *)
Definition encoder_total {mbstate_t : Type}
           (wcrtomb : Z -> mbstate_t -> option (list Z) * mbstate_t) : Prop :=
  forall mbs : mbstate_t,
    fst (wcrtomb replacechar mbs) <> None /\ fst (wcrtomb 0 mbs) <> None.

(** The ranges in which [getn] keeps the settings. *)
Definition within_bounds (cfg : settings) : Prop :=
  0 <= opt_startoffset cfg <= INT_MAX /\
  0 <= opt_maxinputlen cfg <= INT_MAX /\
  0 <= opt_linesize cfg <= 255.

(** ** The input as one stream *)

(** An item [fgetwc] or [fgetc] can return: a character other than
    [WEOF], or a byte. *)
Definition wellformed (i : item) : Prop :=
  match i with
  | Wc c => c <> WEOF
  | Bad b => 0 <= b < 256
  end.

Section Stream.

Variable fopen : string -> option (list item).
Variable acceptbadchars : bool.

(** The characters one file gives: all of them, its invalid bytes
    flagged, when these are accepted; those before its first invalid
    byte otherwise. *)
Fixpoint file_chars (l : list item) : list Z :=
  match l with
  | [] => []
  | Wc c :: t => c :: file_chars t
  | Bad b :: t => if acceptbadchars then Z.lor rawbyte b :: file_chars t else []
  end.

(** Whether reading a file ends on an error. *)
Definition file_trouble (l : list item) : bool :=
  negb acceptbadchars
  && existsb (fun i => match i with Bad _ => true | Wc _ => false end) l.

(** The characters of a list of file names, with [stdin] the unread
    input of [stdin], which is read at its first mention. *)
Fixpoint stream_of (names : list string) (stdin : list item) : list Z :=
  match names with
  | [] => []
  | name :: rest =>
      if String.eqb name "-" then file_chars stdin ++ stream_of rest []
      else match fopen name with
           | Some l => file_chars l ++ stream_of rest stdin
           | None => stream_of rest stdin
           end
  end.

(** Whether [fail] is called while the names are read to the end. *)
Fixpoint trouble (names : list string) (stdin : list item) : bool :=
  match names with
  | [] => false
  | name :: rest =>
      if String.eqb name "-" then file_trouble stdin || trouble rest []
      else match fopen name with
           | Some l => file_trouble l || trouble rest stdin
           | None => true
           end
  end.

(** The characters a state gives up to the end of its input, and
    the state in which [nextwchar] returns [WEOF]. *)
Inductive reads : state -> list Z -> state -> Prop :=
| reads_end (s s' : state) :
    nextwchar fopen acceptbadchars s = (WEOF, s') -> reads s [] s'
| reads_char (s s' s'' : state) (c : Z) (cs : list Z) :
    nextwchar fopen acceptbadchars s = (c, s') -> c <> WEOF ->
    reads s' cs s'' -> reads s (c :: cs) s''.

(** The conclusion for a state with no file open and the given
    names. *)
Definition read_through (names : list string) : Prop :=
  forall s : state,
    currentfile s = None -> filenames s = names ->
    Forall wellformed (stdin_unread s) ->
    exists e : state,
      reads s (stream_of names (stdin_unread s)) e /\
      filenames e = [] /\ currentfile e = None /\
      exitcode e = if trouble names (stdin_unread s)
                   then EXIT_FAILURE else exitcode s.

End Stream.

(** Every file the program opens gives characters and bytes. *)
Definition files_wellformed (fopen : string -> option (list item)) : Prop :=
  forall (name : string) (l : list item), fopen name = Some l -> Forall wellformed l.

(** ** [main] *)

(** What the program wrote to [stdout]: the text of a dump, or the
    chunks [undump] gave to [fwrite]. *)
Inductive output : Type :=
| Text (text : list Z)
| Bytes (chunks : list (list Z)).

(** The state [parsecommandline] leaves: the operands that follow
    the options are the file names, the default argument when there
    are none; the global [exitcode] is still zero. *)
Definition startstate (cfg : settings) (operands : list string) (stdin : list item) : state :=
  mkstate (opt_startoffset cfg) (opt_maxinputlen cfg)
          (match operands with
           | [] => ["-"%string]
           | _ :: _ => operands
           end)
          None stdin 0.

Section Main.

Variable wcwidth : Z -> Z.
Variable iswspace : Z -> bool.
Context {mbstate_t : Type}.
Variable wcrtomb : Z -> mbstate_t -> option (list Z) * mbstate_t.
Variable fopen : string -> option (list item).

(** [main]: the program ends while it reads its options, or it runs
    [dump] or [undump] and returns [exitcode]; [opts] is what
    [getopt_long] returns, [mbs] the initial conversion state. *)
Definition main (fuel : nat) (mbs : mbstate_t) (opts : list option_seen)
           (operands : list string) (stdin : list item)
  : option (early + outcome (output * Z)) :=
  match parsecommandline opts with
  | inl e => Some (inl e)
  | inr cfg =>
      let s := startstate cfg operands stdin in
      if opt_forward cfg then
        match dump (opt_linesize cfg) wcwidth fopen (opt_acceptbadchars cfg) fuel s with
        | Some (text, s') => Some (inr (Ok (Text text, exitcode s')))
        | None => None
        end
      else
        match undump (opt_linesize cfg) iswspace wcrtomb fopen fuel mbs s with
        | Some (Ok (s', (chunks, _))) => Some (inr (Ok (Bytes chunks, exitcode s')))
        | Some Undefined => Some (inr Undefined)
        | None => None
        end
  end.

End Main.

(** Two files to evaluate the reader on: [a] holds two characters,
    [b] a character, an invalid byte and a newline; no other name
    can be opened. *)
Definition twofiles (name : string) : option (list item) :=
  if String.eqb name "a" then Some [Wc 72; Wc 105]
  else if String.eqb name "b" then Some [Wc 33; Bad 255; Wc 10]
  else None.

(** ** Decimal numerals *)

Definition decimal_digit (c : Z) : Prop := 48 <= c <= 57.

(** A decimal numeral of C: digits, the first of them not [0]. *)
Definition decimal_numeral (ds : list Z) : Prop :=
  match ds with
  | [] => False
  | c :: _ => c <> 48
  end /\ Forall decimal_digit ds.

(** The number a run of decimal digits denotes. *)
Definition decimal_value (ds : list Z) : Z :=
  fold_left (fun acc c => 10 * acc + (c - 48)) ds 0.

(** The state with another start offset. *)
Definition set_startoffset (s : state) (so : Z) : state :=
  mkstate so (maxinputlen s) (filenames s) (currentfile s) (stdin_unread s) (exitcode s).

(** The run of [undump] that ends in a state with another start
    offset. *)
Definition restarted {W : Type} (so : Z) (r : option (outcome (state * W)))
  : option (outcome (state * W)) :=
  option_map (fun o => bind o (fun sw => Ok (set_startoffset (fst sw) so, snd sw))) r.

(** * Properties *)

(** ** Hexadecimal fields *)

(** A property checked on every value below a bound holds of every
    value below it. *)
Lemma below_cases (P : Z -> bool) (n : nat) :
  forallb P (map Z.of_nat (seq 0 n)) = true ->
  forall c, 0 <= c < Z.of_nat n -> P c = true.
Proof.
  intros H c Hc.
  rewrite forallb_forall in H. apply H.
  rewrite in_map_iff. exists (Z.to_nat c). split; [lia|].
  apply in_seq. lia.
Qed.

Module PrintfFacts.
Import Printf.

Lemma strip0_length (l : list Z) : (length (strip0 l) <= length l)%nat.
Proof.
  induction l as [|d t IH]; simpl; [lia|].
  destruct d; simpl; try lia.
  destruct t; simpl in *; lia.
Qed.

Lemma strip0_nonempty (l : list Z) : l <> [] -> strip0 l <> [].
Proof.
  induction l as [|d t IH]; intros H; [congruence|].
  simpl. destruct d; try discriminate.
  destruct t; [discriminate|]. apply IH. discriminate.
Qed.

Lemma strip0_horner (l : list Z) : horner (strip0 l) 0 = horner l 0.
Proof.
  induction l as [|d t IH]; [reflexivity|].
  simpl. destruct d; try reflexivity.
  destruct t; [reflexivity|]. exact IH.
Qed.

Lemma strip0_Forall (P : Z -> Prop) (l : list Z) : Forall P l -> Forall P (strip0 l).
Proof.
  induction 1 as [|d t Hd Ht IH]; simpl; [constructor|].
  destruct d; try (constructor; assumption).
  destruct t; [constructor; assumption|]. exact IH.
Qed.

(** The first digit kept is not zero, unless it is the only one. *)
Lemma strip0_head (l : list Z) :
  match strip0 l with
  | [] => l = []
  | [_] => True
  | d :: _ => d <> 0
  end.
Proof.
  induction l as [|d t IH]; simpl; [reflexivity|].
  destruct d.
  - destruct t as [|e t']; [exact I|].
    destruct (strip0 (e :: t')) as [|x [|y r]] eqn:E; try exact I.
    + discriminate IH.
    + exact IH.
  - destruct t; [exact I|]. discriminate.
  - destruct t; [exact I|]. discriminate.
Qed.

Lemma nibble_range (v i : Z) : 0 <= nibble v i < 16.
Proof.
  unfold nibble. change 15 with (Z.ones 4).
  rewrite Z.land_ones by lia. apply Z.mod_pos_bound. reflexivity.
Qed.

Lemma nibble_div (v i : Z) : 0 <= i -> nibble v i = (v / 16 ^ i) mod 16.
Proof.
  intros Hi. unfold nibble. change 15 with (Z.ones 4).
  rewrite Z.land_ones by lia. rewrite Z.shiftr_div_pow2 by lia.
  replace (2 ^ (4 * i)) with (16 ^ i); [reflexivity|].
  rewrite Z.pow_mul_r by lia. reflexivity.
Qed.

(** The eight nibbles of a 32-bit value give it back. *)
Lemma nibbles_value (u : Z) :
  0 <= u < 2 ^ 32 ->
  horner (map (nibble u) [7; 6; 5; 4; 3; 2; 1; 0]) 0 = u.
Proof.
  intros Hu. unfold horner. cbn [map fold_left].
  rewrite !nibble_div by lia.
  assert (Hs : forall k, 0 <= k -> u / 16 ^ k = 16 * (u / 16 ^ (k + 1)) + (u / 16 ^ k) mod 16).
  { intros k Hk. rewrite (Z.pow_add_r 16 k 1) by lia. rewrite <- Z.div_div by lia.
    change (16 ^ 1) with 16. apply Z.div_mod. lia. }
  pose proof (Hs 0 ltac:(lia)) as H0. pose proof (Hs 1 ltac:(lia)) as H1.
  pose proof (Hs 2 ltac:(lia)) as H2. pose proof (Hs 3 ltac:(lia)) as H3.
  pose proof (Hs 4 ltac:(lia)) as H4. pose proof (Hs 5 ltac:(lia)) as H5.
  pose proof (Hs 6 ltac:(lia)) as H6. pose proof (Hs 7 ltac:(lia)) as H7.
  change (0 + 1) with 1 in H0. change (1 + 1) with 2 in H1. change (2 + 1) with 3 in H2.
  change (3 + 1) with 4 in H3. change (4 + 1) with 5 in H4. change (5 + 1) with 6 in H5.
  change (6 + 1) with 7 in H6. change (7 + 1) with 8 in H7.
  assert (H8 : u / 16 ^ 8 = 0).
  { apply Z.div_small. change (16 ^ 8) with (2 ^ 32). exact Hu. }
  assert (Hz : u / 16 ^ 0 = u) by (change (16 ^ 0) with 1; apply Z.div_1_r).
  clear Hs.
  generalize dependent (u / 16 ^ 0). generalize dependent (u / 16 ^ 1).
  generalize dependent (u / 16 ^ 2). generalize dependent (u / 16 ^ 3).
  generalize dependent (u / 16 ^ 4). generalize dependent (u / 16 ^ 5).
  generalize dependent (u / 16 ^ 6). generalize dependent (u / 16 ^ 7).
  generalize dependent (u / 16 ^ 8).
  intros. 
  repeat match goal with |- context [?a mod 16] => generalize dependent (a mod 16); intros end.
  lia.
Qed.

End PrintfFacts.

Lemma same_eq (a b : list Z) : same a b = true -> a = b.
Proof.
  revert b. induction a as [|x a IH]; intros [|y b] H; simpl in H; try discriminate.
  - reflexivity.
  - apply andb_prop in H. destruct H as [Hx Hr].
    apply Z.eqb_eq in Hx. subst y. f_equal. apply IH. exact Hr.
Qed.

Module HexFacts.
Import Printf PrintfFacts.

Lemma xvalue_hexdigit (d : Z) : 0 <= d < 16 -> Scanf.xvalue (hexdigit d) = d.
Proof.
  intros Hd.
  apply Z.eqb_eq.
  apply (below_cases (fun d => Scanf.xvalue (hexdigit d) =? d) 16); [reflexivity | exact Hd].
Qed.

Lemma iswxdigit_hexdigit (d : Z) : 0 <= d < 16 -> Scanf.iswxdigit (hexdigit d) = true.
Proof.
  intros Hd.
  apply (below_cases (fun d => Scanf.iswxdigit (hexdigit d)) 16); [reflexivity | exact Hd].
Qed.

Lemma nibbles_range (v : Z) : Forall (fun d => 0 <= d < 16) (nibbles v).
Proof.
  unfold nibbles. apply strip0_Forall.
  repeat constructor; apply nibble_range.
Qed.

Lemma hexvalue_horner (l : list Z) (acc : Z) :
  Forall (fun d => 0 <= d < 16) l ->
  fold_left (fun a c => 16 * a + Scanf.xvalue c) (map hexdigit l) acc = horner l acc.
Proof.
  intros H. revert acc. induction H as [|d t Hd Ht IH]; intros acc; [reflexivity|].
  simpl. rewrite xvalue_hexdigit by exact Hd. apply IH.
Qed.

(** Reading back the digits [%X] prints gives the value printed. *)
Lemma hexvalue_hexdigits (v : Z) : 0 <= v < 2 ^ 32 -> hexvalue (hexdigits v) = v.
Proof.
  intros Hv. unfold hexvalue, hexdigits.
  rewrite hexvalue_horner by apply nibbles_range.
  unfold nibbles. rewrite strip0_horner.
  unfold to_unsigned. rewrite Z.mod_small by exact Hv.
  apply nibbles_value. exact Hv.
Qed.

Lemma hexdigits_xdigit (v : Z) :
  Forall (fun c => Scanf.iswxdigit c = true) (hexdigits v).
Proof.
  unfold hexdigits. apply Forall_map.
  eapply Forall_impl; [|apply nibbles_range].
  intros d Hd. apply iswxdigit_hexdigit. exact Hd.
Qed.

Lemma hexdigits_length (v : Z) : (1 <= length (hexdigits v) <= 8)%nat.
Proof.
  unfold hexdigits, nibbles. rewrite length_map. split.
  - destruct (strip0 _) eqn:E; [|simpl; lia].
    exfalso. revert E. apply strip0_nonempty. discriminate.
  - etransitivity; [apply strip0_length|]. simpl. lia.
Qed.

(** A value below [16 ^ 6] has at most six digits. *)
Lemma hexdigits_length_6 (v : Z) : 0 <= v < 16 ^ 6 -> (length (hexdigits v) <= 6)%nat.
Proof.
  intros Hv. unfold hexdigits, nibbles. rewrite length_map.
  unfold to_unsigned. rewrite Z.mod_small by (change (16 ^ 6) with 16777216 in Hv; lia).
  cbn [map].
  assert (H7 : nibble v 7 = 0).
  { rewrite nibble_div by lia. rewrite Z.div_small; [reflexivity|].
    change (16 ^ 6) with 16777216 in Hv. change (16 ^ 7) with 268435456. lia. }
  assert (H6 : nibble v 6 = 0).
  { rewrite nibble_div by lia. rewrite Z.div_small; [reflexivity|]. exact Hv. }
  rewrite H7, H6.
  change (strip0 (0 :: 0 :: ?l)) with (strip0 l).
  etransitivity; [apply strip0_length|]. simpl. lia.
Qed.

Lemma fmt_X_length (zero : bool) (width v : Z) :
  Z.of_nat (length (fmt_X zero width v)) = Z.max width (Z.of_nat (length (hexdigits v))).
Proof.
  unfold fmt_X. cbv zeta. rewrite length_app, repeat_length. lia.
Qed.

Lemma address_length (pos : Z) : length (fmt_X true 8 pos) = 8%nat.
Proof.
  pose proof (fmt_X_length true 8 pos). pose proof (hexdigits_length pos). lia.
Qed.

(** Codepoints do not carry the [rawbyte] flag. *)
Lemma codepoint_unflagged (c : Z) : 0 <= c < rawbyte -> Z.land c rawbyte = 0.
Proof.
  intros Hc.
  rewrite <- (Z.mod_small c (2 ^ 28)) by exact Hc.
  rewrite <- Z.land_ones by lia.
  rewrite <- Z.land_assoc. change (Z.land (Z.ones 28) rawbyte) with 0.
  apply Z.land_0_r.
Qed.

End HexFacts.

Section RenderFacts.
Import Printf PrintfFacts HexFacts.

Lemma hexfield_byte (c : Z) :
  0 <= c < 256 ->
  hexfield c = wcs "    " ++ [hexdigit (c / 16); hexdigit (c mod 16)].
Proof.
  intros Hc. apply same_eq.
  apply (below_cases
           (fun c => same (hexfield c) (wcs "    " ++ [hexdigit (c / 16); hexdigit (c mod 16)]))
           256); [vm_compute; reflexivity | exact Hc].
Qed.

Lemma hexfield_raw (b : Z) :
  0 <= b < 256 ->
  hexfield (Z.lor rawbyte b) = wcs "   *" ++ [hexdigit (b / 16); hexdigit (b mod 16)].
Proof.
  intros Hb. apply same_eq.
  apply (below_cases
           (fun b => same (hexfield (Z.lor rawbyte b))
                          (wcs "   *" ++ [hexdigit (b / 16); hexdigit (b mod 16)]))
           256); [vm_compute; reflexivity | exact Hb].
Qed.

Lemma hexfield_wide (c : Z) :
  256 <= c < rawbyte -> hexfield c = fmt_X false 6 c.
Proof.
  intros Hc. unfold hexfield.
  destruct (Z.ltb_spec c 256); [lia|].
  rewrite codepoint_unflagged by lia. reflexivity.
Qed.

Lemma hexfield_length (c : Z) : unit_value c -> length (hexfield c) = 6%nat.
Proof.
  intros [c' Hc | b Hb].
  - destruct (Z.lt_ge_cases c' 256) as [Hlt | Hge].
    + rewrite hexfield_byte by lia. reflexivity.
    + rewrite hexfield_wide by (unfold rawbyte; lia).
      pose proof (fmt_X_length false 6 c').
      pose proof (hexdigits_length_6 c' ltac:(change (16 ^ 6) with 16777216; lia)).
      lia.
  - rewrite hexfield_raw by exact Hb. reflexivity.
Qed.

Lemma fields_length (buf : list Z) :
  Forall unit_value buf ->
  length (flat_map hexfield buf) = (6 * length buf)%nat.
Proof.
  induction 1 as [|c t Hc Ht IH]; [reflexivity|].
  simpl flat_map. rewrite length_app, IH, hexfield_length by exact Hc.
  simpl length. lia.
Qed.

End RenderFacts.

(** ** C4: the shape of a hexadecimal field *)

(** C4. Every character unit placed on a dump line gets a field of
    exactly six columns: four spaces and two hexadecimal digits for a
    code point below 256, three spaces, an asterisk and two digits
    for a flagged raw byte, and for any other code point its
    hexadecimal digits right-justified in six columns.  The input
    [Hi!] at eight characters a line gives the address [00000000] and
    the fields for 48, 69 and 21. *)
Theorem hexfield_shapes :
  (forall c : Z,
      unit_value c ->
      length (hexfield c) = 6%nat /\
      (0 <= c < 256 ->
       hexfield c = wcs "    " ++ [Printf.hexdigit (c / 16); Printf.hexdigit (c mod 16)]) /\
      (forall b, 0 <= b < 256 -> c = Z.lor rawbyte b ->
       hexfield c = wcs "   *" ++ [Printf.hexdigit (b / 16); Printf.hexdigit (b mod 16)]) /\
      (256 <= c <= 0x10FFFF ->
       exists n : Z,
         1 <= n <= 6 /\
         hexfield c = spaces (6 - n) ++ Printf.hexdigits c /\
         Z.of_nat (length (Printf.hexdigits c)) = n /\
         Forall (fun d => Scanf.iswxdigit d = true) (Printf.hexdigits c) /\
         hexvalue (Printf.hexdigits c) = c)) /\
  renderdumpline 8 Utf8.wcwidth (wcs "Hi!") 0
  = wcs "00000000: " ++ wcs "    48" ++ wcs "    69" ++ wcs "    21"
        ++ spaces 35 ++ wcs "H i ! " ++ [10].
Proof.
  split; [|reflexivity].
  intros c Hc. split; [apply hexfield_length; exact Hc|].
  split; [apply hexfield_byte|].
  split.
  - intros b Hb ->. apply hexfield_raw. exact Hb.
  - intros Hr.
    exists (Z.of_nat (length (Printf.hexdigits c))).
    pose proof (HexFacts.hexdigits_length c) as H1.
    pose proof (HexFacts.hexdigits_length_6 c ltac:(change (16 ^ 6) with 16777216; lia)) as H6.
    split; [lia|].
    split; [rewrite hexfield_wide by (unfold rawbyte; lia); reflexivity|].
    split; [reflexivity|].
    split; [apply HexFacts.hexdigits_xdigit|].
    apply HexFacts.hexvalue_hexdigits. lia.
Qed.

Lemma hexfield_shapes_witness :
  unit_value 0x1F600 /\ length (hexfield 0x1F600) = 6%nat.
Proof.
  assert (H : unit_value 0x1F600) by (constructor; lia).
  split; [exact H | exact (proj1 (proj1 hexfield_shapes 0x1F600 H))].
Defined.

(** ** C5: the padding and the column of the glyphs *)

(** C5. On a line of [k] character units, [0 < k <= linesize], the
    fields are followed by exactly [6 * (linesize - k) + 5] spaces,
    and the glyphs begin at column [6 * linesize + 15] whatever [k]
    is. *)
Theorem glyph_column (linesize : Z) (wcwidth : Z -> Z) (buf : list Z) (pos : Z) :
  Forall unit_value buf ->
  0 < Z.of_nat (length buf) <= linesize ->
  let k := Z.of_nat (length buf) in
  let fields := Printf.fmt_X true 8 pos ++ wcs ": " ++ flat_map hexfield buf in
  let pad := spaces (6 * (linesize - k) + 5) in
  renderdumpline linesize wcwidth buf pos
  = (fields ++ pad) ++ flat_map (glyph wcwidth) buf ++ [10] /\
  Z.of_nat (length fields) = 10 + 6 * k /\
  Z.of_nat (length pad) = 6 * (linesize - k) + 5 /\
  Forall (fun c => c = 32) pad /\
  Z.of_nat (length (fields ++ pad)) = 6 * linesize + 15.
Proof.
  intros Hbuf Hk k fields pad.
  assert (Hf : Z.of_nat (length fields) = 10 + 6 * k).
  { unfold fields. rewrite !length_app, HexFacts.address_length, fields_length by exact Hbuf.
    simpl length. unfold k. lia. }
  assert (Hp : Z.of_nat (length pad) = 6 * (linesize - k) + 5).
  { unfold pad, spaces. rewrite repeat_length. unfold k. lia. }
  split.
  - unfold renderdumpline, padding, Printf.fmt_pad. fold k.
    rewrite Z.abs_eq by (unfold k; lia). fold pad. unfold fields.
    rewrite <- !app_assoc. reflexivity.
  - split; [exact Hf|]. split; [exact Hp|]. split.
    + unfold pad, spaces. apply Forall_forall. intros c Hin.
      apply repeat_spec in Hin. exact Hin.
    + rewrite length_app. lia.
Qed.

Lemma glyph_column_witness :
  Z.of_nat (length (Printf.fmt_X true 8 2 ++ wcs ": " ++ flat_map hexfield (wcs "c")
                    ++ spaces (6 * (8 - 1) + 5))) = 6 * 8 + 15.
Proof.
  pose proof (glyph_column 8 Utf8.wcwidth (wcs "c") 2
                           ltac:(constructor; [apply Codepoint; vm_compute; split; discriminate | constructor])
                           ltac:(simpl; lia)) as H.
  cbv zeta in H. destruct H as (_ & _ & _ & _ & H).
  rewrite <- !app_assoc in H. exact H.
Defined.

(** ** The dump parser *)

Section TranslateFacts.

Variable linesize : Z.
Variable iswspace : Z -> bool.
Context {mbstate_t : Type}.
Variable wcrtomb : Z -> mbstate_t -> option (list Z) * mbstate_t.

Lemma skipaddress_no_space (line : list Z) : ~ In 32 line -> skipaddress line = [].
Proof.
  induction line as [|c t IH]; intros H; [reflexivity|].
  simpl. destruct (Z.eqb_spec c 32) as [-> | _].
  - exfalso. apply H. left. reflexivity.
  - apply IH. intros Hin. apply H. right. exact Hin.
Qed.

(** The fields decoded are counted one for one with the chunks
    written, and there are at most [left] of them. *)
Lemma translatefields_count (left : nat) :
  forall (i : Z) (p : option (list Z)) (chunks : list (list Z)) (mbs : mbstate_t)
         (n : Z) (chunks' : list (list Z)) (mbs' : mbstate_t),
    translatefields iswspace wcrtomb left i p (chunks, mbs) = Ok (n, (chunks', mbs')) ->
    exists more : list (list Z),
      chunks' = chunks ++ more /\
      n = i + Z.of_nat (length more) /\
      (length more <= left)%nat.
Proof.
  induction left as [|left IH]; intros i p chunks mbs n chunks' mbs' H.
  - simpl in H. injection H as <- <- <-. exists []. rewrite app_nil_r. simpl. repeat split; lia.
  - simpl in H. destruct p as [str|]; [|discriminate].
    assert (Hstep : forall out m,
               translatefields iswspace wcrtomb left (i + 1) (advance str)
                               (chunks ++ [out], m) = Ok (n, (chunks', mbs')) ->
               exists more, chunks' = chunks ++ more /\
                            n = i + Z.of_nat (length more) /\ (length more <= S left)%nat).
    { intros out m Hr. apply IH in Hr. destruct Hr as (more & -> & -> & Hl).
      exists (out :: more). rewrite <- app_assoc. simpl length. repeat split; lia. }
    destruct (Scanf.scan_6X iswspace str) as [ch|].
    + destruct (wcrtomb ch mbs) as [[out|] m1].
      * eapply Hstep. exact H.
      * destruct (wcrtomb replacechar m1) as [[out|] m2]; [|discriminate].
        eapply Hstep. exact H.
    + destruct (Scanf.scan_star_2X iswspace str) as [ch|].
      * destruct (wcrtomb 0 mbs) as [[out|] m1]; [|discriminate].
        eapply Hstep. exact H.
      * injection H as <- <- <-. exists []. rewrite app_nil_r. simpl. repeat split; lia.
Qed.

(** A call on a line returns the number of chunks it wrote, which
    is at most [linesize]. *)
Lemma translatedumpline_count (line : list Z) (mbs : mbstate_t)
      (n : Z) (chunks : list (list Z)) (mbs' : mbstate_t) :
  translatedumpline linesize iswspace wcrtomb (Some line) mbs = Ok (n, (chunks, mbs')) ->
  n = Z.of_nat (length chunks) /\ 0 <= n <= Z.max 0 linesize.
Proof.
  unfold translatedumpline. destruct (skipaddress line) as [|sp p].
  - intros H. injection H as <- <- <-. simpl. lia.
  - intros H. apply translatefields_count in H.
    destruct H as (more & -> & -> & Hl). simpl. lia.
Qed.

(** C7. A line with no space in it, the empty line among them, has
    no separator after its address: the parser returns 0, writes
    nothing and leaves the conversion state as it was. *)
Theorem translatedumpline_no_separator (line : list Z) (mbs : mbstate_t) :
  ~ In 32 line ->
  translatedumpline linesize iswspace wcrtomb (Some line) mbs = Ok (0, ([], mbs)).
Proof.
  intros H. unfold translatedumpline. rewrite skipaddress_no_space by exact H. reflexivity.
Qed.

End TranslateFacts.

Lemma translatedumpline_no_separator_witness :
  ~ In 32 (wcs "00000000:") /\
  translatedumpline 8 Utf8.iswspace Utf8.wcrtomb (Some (wcs "00000000:")) tt = Ok (0, ([], tt)).
Proof.
  assert (H : ~ In 32 (wcs "00000000:")).
  { simpl. unfold wc. simpl. intros H. repeat (destruct H as [H | H]; [discriminate H|]). exact H. }
  split; [exact H|].
  exact (translatedumpline_no_separator 8 Utf8.iswspace Utf8.wcrtomb (wcs "00000000:") tt H).
Defined.

(** ** C8: the glyph of a raw byte *)

(** C8, as stated, is refuted: the glyph of a raw byte is not the
    glyph of the byte value taken as a code point.  In the UTF-8
    locale the byte E9 is shown as the replacement character, while
    U+00E9 is shown as itself. *)
Lemma rawbyte_glyph_counterexample :
  ~ (forall (wcwidth : Z -> Z) (b : Z),
        0 <= b < 256 -> glyph wcwidth (Z.lor rawbyte b) = glyph wcwidth b).
Proof.
  intros H. specialize (H Utf8.wcwidth 0xE9 ltac:(lia)). discriminate H.
Qed.

(** C8, amended. The glyph of a raw byte follows the display width
    of the flagged value: that value itself is printed when its
    width is 1 or 2, and the replacement character in every other
    case, never a control picture; a space follows unless the width
    is 2. *)
Theorem rawbyte_glyph (wcwidth : Z -> Z) (b : Z) :
  0 <= b < 256 ->
  glyph wcwidth (Z.lor rawbyte b)
  = if wcwidth (Z.lor rawbyte b) =? 2 then [Z.lor rawbyte b]
    else if wcwidth (Z.lor rawbyte b) =? 1 then [Z.lor rawbyte b; 32]
         else [replacechar; 32].
Proof.
  intros Hb. unfold glyph.
  assert (Hsum : Z.lor rawbyte b = rawbyte + b).
  { apply Z.eqb_eq.
    apply (below_cases (fun b => Z.lor rawbyte b =? rawbyte + b) 256);
      [vm_compute; reflexivity | exact Hb]. }
  assert (Hge : (Z.lor rawbyte b <? 0x20) = false).
  { apply Z.ltb_ge. rewrite Hsum. unfold rawbyte. lia. }
  rewrite Hge.
  destruct (wcwidth (Z.lor rawbyte b)) as [|p|p]; try reflexivity.
  destruct p as [p|p|]; try reflexivity; destruct p; reflexivity.
Qed.

Lemma rawbyte_glyph_witness :
  0 <= 0xFF < 256 /\ glyph Utf8.wcwidth (Z.lor rawbyte 0xFF) = [replacechar; 32].
Proof.
  assert (H : 0 <= 0xFF < 256) by lia.
  split; [exact H | exact (rawbyte_glyph Utf8.wcwidth 0xFF H)].
Defined.

(** ** The character reader *)

Section InputFacts.

Variable fopen : string -> option (list item).
Variable acceptbadchars : bool.

(** Changing [maxinputlen] does not change what is read. *)

Lemma inputinit_next_budget (m : Z) (names : list string) :
  forall s, inputinit_next fopen names (set_maxinputlen s m)
            = on_state (fun s' => set_maxinputlen s' m) (inputinit_next fopen names s).
Proof.
  induction names as [|name rest IH]; intros s; [reflexivity|].
  simpl. destruct (String.eqb name "-"); [reflexivity|].
  destruct (fopen name); [reflexivity|].
  rewrite <- IH. reflexivity.
Qed.

Lemma inputinit_budget (m : Z) (s : state) :
  inputinit fopen (set_maxinputlen s m)
  = on_state (fun s' => set_maxinputlen s' m) (inputinit fopen s).
Proof.
  unfold inputinit. simpl. destruct (currentfile s); [reflexivity|].
  apply inputinit_next_budget.
Qed.

Lemma inputupdate_budget (m : Z) (err : bool) (s : state) :
  inputupdate err (set_maxinputlen s m) = set_maxinputlen (inputupdate err s) m.
Proof.
  unfold inputupdate. destruct err; simpl; destruct (currentfile s) as [[|l]|]; reflexivity.
Qed.

Lemma set_unread_budget (m : Z) (s : state) (f : FILE) (l : list item) :
  set_unread (set_maxinputlen s m) f l = set_maxinputlen (set_unread s f l) m.
Proof. destruct f; reflexivity. Qed.

Lemma unread_budget (m : Z) (s : state) (f : FILE) :
  unread (set_maxinputlen s m) f = unread s f.
Proof. destruct f; reflexivity. Qed.

Lemma nextwchar_loop_budget (m : Z) (turns : nat) :
  forall s, nextwchar_loop fopen acceptbadchars turns (set_maxinputlen s m)
            = on_state (fun s' => set_maxinputlen s' m)
                       (nextwchar_loop fopen acceptbadchars turns s).
Proof.
  induction turns as [|turns IH]; intros s; [reflexivity|].
  cbn [nextwchar_loop]. rewrite inputinit_budget.
  destruct (inputinit fopen s) as [ok s1]. unfold on_state at 1. cbn [fst snd].
  destruct ok; [|reflexivity]. cbn [negb].
  change (currentfile (set_maxinputlen s1 m)) with (currentfile s1).
  destruct (currentfile s1) as [f|]; [|reflexivity].
  rewrite unread_budget.
  destruct (unread s1 f) as [|[ch|b] l].
  - rewrite inputupdate_budget. apply IH.
  - destruct (negb (ch =? WEOF)).
    + rewrite set_unread_budget. reflexivity.
    + rewrite set_unread_budget, inputupdate_budget. apply IH.
  - destruct acceptbadchars.
    + rewrite set_unread_budget. reflexivity.
    + rewrite inputupdate_budget. apply IH.
Qed.

Lemma nextwchar_budget (m : Z) (s : state) :
  nextwchar fopen acceptbadchars (set_maxinputlen s m)
  = on_state (fun s' => set_maxinputlen s' m) (nextwchar fopen acceptbadchars s).
Proof. unfold nextwchar. apply nextwchar_loop_budget. Qed.

Lemma set_maxinputlen_same (s : state) : set_maxinputlen s (maxinputlen s) = s.
Proof. destruct s; reflexivity. Qed.

(** [nextwchar] leaves [startoffset] and [maxinputlen] alone. *)

Lemma nextwchar_maxinputlen (s s' : state) (c : Z) :
  nextwchar fopen acceptbadchars s = (c, s') -> maxinputlen s' = maxinputlen s.
Proof.
  intros H. pose proof (nextwchar_budget (maxinputlen s) s) as E.
  rewrite set_maxinputlen_same, H in E. unfold on_state in E. simpl in E.
  injection E as E. rewrite E. reflexivity.
Qed.

Lemma inputinit_next_startoffset (names : list string) :
  forall s, startoffset (snd (inputinit_next fopen names s)) = startoffset s.
Proof.
  induction names as [|name rest IH]; intros s; [reflexivity|].
  simpl. destruct (String.eqb name "-"); [reflexivity|].
  destruct (fopen name); [reflexivity|]. rewrite IH. reflexivity.
Qed.

Lemma inputinit_startoffset (s : state) :
  startoffset (snd (inputinit fopen s)) = startoffset s.
Proof.
  unfold inputinit. destruct (currentfile s); [reflexivity|].
  apply inputinit_next_startoffset.
Qed.

Lemma inputupdate_startoffset (err : bool) (s : state) :
  startoffset (inputupdate err s) = startoffset s.
Proof.
  unfold inputupdate. destruct err; simpl; destruct (currentfile s) as [[|l]|]; reflexivity.
Qed.

Lemma set_unread_startoffset (s : state) (f : FILE) (l : list item) :
  startoffset (set_unread s f l) = startoffset s.
Proof. destruct f; reflexivity. Qed.

Lemma nextwchar_loop_startoffset (turns : nat) :
  forall s, startoffset (snd (nextwchar_loop fopen acceptbadchars turns s)) = startoffset s.
Proof.
  induction turns as [|turns IH]; intros s; [reflexivity|].
  cbn [nextwchar_loop]. pose proof (inputinit_startoffset s) as E0.
  destruct (inputinit fopen s) as [ok s1]. cbn [snd] in E0.
  destruct ok; [|exact E0]. cbn [negb].
  destruct (currentfile s1) as [f|]; [|exact E0].
  destruct (unread s1 f) as [|[ch|b] l].
  - rewrite IH, inputupdate_startoffset. exact E0.
  - destruct (negb (ch =? WEOF)); cbn [snd].
    + rewrite set_unread_startoffset. exact E0.
    + rewrite IH, inputupdate_startoffset, set_unread_startoffset. exact E0.
  - destruct acceptbadchars; cbn [snd].
    + rewrite set_unread_startoffset. exact E0.
    + rewrite IH, inputupdate_startoffset. exact E0.
Qed.

Lemma nextwchar_startoffset (s s' : state) (c : Z) :
  nextwchar fopen acceptbadchars s = (c, s') -> startoffset s' = startoffset s.
Proof.
  intros H. pose proof (nextwchar_loop_startoffset (S (length (filenames s))) s) as E.
  unfold nextwchar in H. rewrite H in E. exact E.
Qed.

Lemma yields_budget (m : Z) (s : state) (cs : list Z) :
  yields fopen acceptbadchars s cs -> yields fopen acceptbadchars (set_maxinputlen s m) cs.
Proof.
  induction 1 as [s s' H | s s' c cs H Hc Hy IH].
  - eapply yields_end. rewrite nextwchar_budget, H. reflexivity.
  - eapply yields_char; [|exact Hc|exact IH].
    rewrite nextwchar_budget, H. reflexivity.
Qed.

End InputFacts.

(** ** The dump driver *)

Lemma firstn_plus {A : Type} (a b : nat) (l : list A) :
  firstn (a + b) l = firstn a l ++ firstn b (skipn a l).
Proof.
  revert l. induction a as [|a IH]; intros l; [reflexivity|].
  destruct l as [|x l]; simpl.
  - rewrite firstn_nil. reflexivity.
  - rewrite IH. reflexivity.
Qed.

Section DumpFacts.

Variable linesize : Z.
Variable fopen : string -> option (list item).
Variable acceptbadchars : bool.

Local Abbreviation gives := (yields fopen acceptbadchars).

Lemma dump_skip_weof (left : nat) (pos : Z) (s : state) :
  dump_skip fopen acceptbadchars left pos WEOF s = (pos, WEOF, s).
Proof. destruct left; reflexivity. Qed.

Lemma dump_skip_spec (left : nat) :
  forall (cs : list Z) (s : state) (pos ch : Z),
    gives s cs -> ch <> WEOF -> left = Z.to_nat (startoffset s - pos) ->
    ((left <= length cs)%nat ->
     exists ch' s',
       dump_skip fopen acceptbadchars left pos ch s = (pos + Z.of_nat left, ch', s') /\
       ch' <> WEOF /\ gives s' (skipn left cs) /\ maxinputlen s' = maxinputlen s) /\
    ((length cs < left)%nat ->
     exists pos' s',
       dump_skip fopen acceptbadchars left pos ch s = (pos', WEOF, s') /\
       maxinputlen s' = maxinputlen s).
Proof.
  induction left as [|left IH]; intros cs s pos ch Hy Hch Hleft.
  - split; [|lia]. intros _. exists ch, s. cbn [dump_skip]. rewrite Z.add_0_r. auto.
  - cbn [dump_skip]. destruct (Z.eqb_spec ch WEOF) as [|_]; [contradiction|].
    destruct (Z.ltb_spec pos (startoffset s)) as [_|Hge]; [|lia]. cbn [negb andb].
    inversion Hy as [s0 s' H | s0 s' c cs' H Hc Hy']; subst.
    + rewrite H. split; [cbn [length]; lia|]. intros _.
      rewrite dump_skip_weof. exists (pos + 1), s'.
      split; [reflexivity|]. eapply nextwchar_maxinputlen. exact H.
    + rewrite H.
      pose proof (nextwchar_startoffset _ _ _ _ _ H) as Es.
      pose proof (nextwchar_maxinputlen _ _ _ _ _ H) as Em.
      destruct (IH cs' s' (pos + 1) c Hy' Hc ltac:(lia)) as [IH1 IH2].
      split; intros Hlen; cbn [length] in Hlen.
      * destruct (IH1 ltac:(lia)) as (ch' & s'' & E & Hch' & Hy'' & Em').
        exists ch', s''. rewrite E. cbn [skipn].
        repeat split; try assumption; try congruence.
        f_equal. f_equal. lia.
      * destruct (IH2 ltac:(lia)) as (pos' & s'' & E & Em').
        exists pos', s''. split; [exact E | congruence].
Qed.

Lemma dump_fill_spec (left : nat) :
  forall (cs : list Z) (s : state) (line : list Z) (ch : Z),
    gives s cs -> 0 <= maxinputlen s ->
    let k := Nat.min left (Z.to_nat (maxinputlen s)) in
    ((k <= length cs)%nat ->
     exists ch' s',
       dump_fill fopen acceptbadchars left line ch s = (line ++ firstn k cs, ch', s') /\
       gives s' (skipn k cs) /\
       maxinputlen s' = maxinputlen s - Z.of_nat k /\
       ((0 < k)%nat -> ch' <> WEOF) /\ (k = 0%nat -> ch' = ch)) /\
    ((length cs < k)%nat ->
     exists s', dump_fill fopen acceptbadchars left line ch s = (line ++ cs, WEOF, s')).
Proof.
  induction left as [|left IH]; intros cs s line ch Hy Hm k.
  - split; [|unfold k; cbn [Nat.min]; lia]. intros _. exists ch, s.
    unfold k. cbn [Nat.min firstn skipn dump_fill]. rewrite app_nil_r, Z.sub_0_r.
    repeat split; auto; lia.
  - cbn [dump_fill]. destruct (Z.gtb_spec (maxinputlen s) 0) as [Hpos|Hzero].
    + inversion Hy as [s0 s' H | s0 s' c cs' H Hc Hy']; subst.
      * rewrite H. change (WEOF =? WEOF) with true. cbv iota.
        split; [unfold k; cbn [length]; lia|]. intros _.
        exists s'. rewrite app_nil_r. reflexivity.
      * rewrite H.
        destruct (Z.eqb_spec c WEOF) as [|_]; [contradiction|].
        pose proof (nextwchar_maxinputlen _ _ _ _ _ H) as Em.
        set (s1 := set_maxinputlen s' (maxinputlen s' - 1)).
        assert (Hy1 : gives s1 cs') by (apply yields_budget; exact Hy').
        assert (Hm1 : maxinputlen s1 = maxinputlen s - 1) by (cbn [s1 maxinputlen set_maxinputlen]; lia).
        destruct (IH cs' s1 (line ++ [c]) c Hy1 ltac:(lia)) as [IH1 IH2].
        assert (Hk : k = S (Nat.min left (Z.to_nat (maxinputlen s1)))).
        { unfold k. rewrite Hm1. lia. }
        cbv zeta in IH1, IH2. rewrite Hk.
        split; intros Hlen; cbn [length] in Hlen.
        -- destruct (IH1 ltac:(lia)) as (ch' & s'' & E & Hy'' & Em' & Hch1 & Hch0).
           exists ch', s''. rewrite E. cbn [firstn skipn]. rewrite <- app_assoc.
           repeat split; try assumption; try lia.
        -- destruct (IH2 ltac:(lia)) as (s'' & E).
           exists s''. rewrite E. rewrite <- app_assoc. reflexivity.
    + assert (Hk : k = 0%nat) by (unfold k; lia). rewrite Hk.
      split; [|lia]. intros _. exists ch, s. cbn [firstn skipn]. rewrite app_nil_r.
      repeat split; auto; lia.
Qed.

Lemma dump_loop_spec (fuel : nat) :
  forall (cs : list Z) (s : state) (pos ch : Z),
    0 < linesize -> gives s cs -> 0 <= maxinputlen s -> ch <> WEOF ->
    (length cs + 2 <= fuel)%nat ->
    exists calls s',
      dump_loop linesize fopen acceptbadchars fuel pos ch s = Some (calls, s') /\
      concat (map fst calls) = firstn (Z.to_nat (maxinputlen s)) cs /\
      windowed linesize pos calls /\
      (calls <> [] -> 0 < maxinputlen s).
Proof.
  induction fuel as [|fuel IH]; intros cs s pos ch Hw Hy Hm Hch Hfuel; [lia|].
  cbn [dump_loop]. destruct (Z.eqb_spec ch WEOF) as [|_]; [contradiction|].
  destruct (Z.gtb_spec (maxinputlen s) 0) as [Hpos|Hzero]; cbn [negb andb].
  - destruct (dump_fill_spec (Z.to_nat linesize) cs s [] ch Hy Hm) as [F1 F2].
    cbv zeta in F1, F2.
    set (k := Nat.min (Z.to_nat linesize) (Z.to_nat (maxinputlen s))) in *.
    assert (Hk : (0 < k)%nat) by (unfold k; lia).
    destruct (Nat.le_gt_cases k (length cs)) as [Hle|Hgt].
    + destruct (F1 Hle) as (ch' & s' & E & Hy' & Em & Hch1 & _).
      rewrite E. cbn [app].
      assert (Hlen : length (firstn k cs) = k) by (apply firstn_length_le; exact Hle).
      rewrite Hlen.
      destruct (IH (skipn k cs) s' (pos + Z.of_nat k) ch' Hw Hy' ltac:(lia) (Hch1 Hk))
        as (calls & s'' & E' & Hcat & Hwin & Hne).
      { rewrite length_skipn. lia. }
      rewrite E'. destruct (Z.eqb_spec (Z.of_nat k) 0) as [|_]; [lia|].
      exists ((firstn k cs, pos) :: calls), s''.
      split; [reflexivity|]. split; [|split].
      * cbn [map concat fst]. rewrite Hcat, Em.
        replace (Z.to_nat (maxinputlen s)) with (k + Z.to_nat (maxinputlen s - Z.of_nat k))%nat
          by lia.
        rewrite firstn_plus. reflexivity.
      * destruct calls as [|c rest].
        -- apply windowed_last. rewrite Hlen. unfold k. lia.
        -- assert (Hmore : 0 < maxinputlen s') by (apply Hne; discriminate).
           assert (Hfull : Z.of_nat k = linesize) by (unfold k in *; lia).
           apply windowed_cons; [rewrite Hlen; exact Hfull|].
           replace (pos + linesize) with (pos + Z.of_nat k) by lia. exact Hwin.
      * intros _. exact Hpos.
    + destruct (F2 Hgt) as (s' & E). rewrite E. cbn [app].
      destruct fuel as [|fuel]; [lia|]. cbn [dump_loop].
      change (WEOF =? WEOF) with true. cbn [negb andb].
      exists (if Z.of_nat (length cs) =? 0 then [] else [(cs, pos)]), s'.
      rewrite app_nil_r. split; [reflexivity|].
      assert (Hall : firstn (Z.to_nat (maxinputlen s)) cs = cs).
      { apply firstn_all2. unfold k in Hgt. lia. }
      rewrite Hall.
      destruct (Z.eqb_spec (Z.of_nat (length cs)) 0) as [Hz|Hnz].
      * destruct cs; [|discriminate Hz]. repeat split; [constructor | congruence].
      * cbn [map concat fst]. rewrite app_nil_r. repeat split; [|intros _; exact Hpos].
        apply windowed_last. unfold k in Hgt. lia.
  - exists [], s. replace (maxinputlen s) with 0 by lia.
    repeat split; [constructor | congruence].
Qed.

(** The calls [dump] makes, given enough fuel for the input. *)
Lemma dump_calls_spec (s : state) (cs : list Z) (fuel : nat) :
  0 < linesize -> 0 <= startoffset s -> 0 <= maxinputlen s ->
  gives s cs -> (length cs + 2 <= fuel)%nat ->
  exists calls s',
    dump_calls linesize fopen acceptbadchars fuel s = Some (calls, s') /\
    concat (map fst calls)
    = firstn (Z.to_nat (maxinputlen s)) (skipn (Z.to_nat (startoffset s)) cs) /\
    windowed linesize (startoffset s) calls.
Proof.
  intros Hw Hs Hm Hy Hfuel. unfold dump_calls.
  destruct (dump_skip_spec (Z.to_nat (startoffset s)) cs s 0 0 Hy ltac:(discriminate)
                           ltac:(f_equal; lia)) as [K1 K2].
  destruct (Nat.le_gt_cases (Z.to_nat (startoffset s)) (length cs)) as [Hle|Hgt].
  - destruct (K1 Hle) as (ch' & s1 & E & Hch' & Hy1 & Em). rewrite E.
    destruct (dump_loop_spec fuel (skipn (Z.to_nat (startoffset s)) cs) s1
                             (0 + Z.of_nat (Z.to_nat (startoffset s))) ch' Hw Hy1
                             ltac:(lia) Hch')
      as (calls & s' & E' & Hcat & Hwin & _).
    { rewrite length_skipn. lia. }
    exists calls, s'. rewrite E', Hcat, Em.
    repeat split. replace (startoffset s) with (0 + Z.of_nat (Z.to_nat (startoffset s))) at 1 by lia.
    exact Hwin.
  - destruct (K2 Hgt) as (pos' & s1 & E & Em). rewrite E.
    destruct fuel as [|fuel]; [lia|]. cbn [dump_loop].
    change (WEOF =? WEOF) with true. cbn [negb andb].
    exists [], s1. rewrite skipn_all2 by lia. rewrite firstn_nil.
    repeat split. constructor.
Qed.

End DumpFacts.

(** ** C3: the windows of the dump *)

(** C3. With a start offset [S] and a limit [M], [dump] on an input
    of [L] characters calls [renderdumpline] on the characters from
    the [S]-th on, [min M (max 0 (L - S))] of them in all, in
    consecutive windows of [linesize] characters, the last one
    possibly shorter, each with the position of its first character.
    With [S = 2] and [M = 1] the input [abcde] gives the single line
    of the third character at address [00000002]. *)
Theorem dump_windowing :
  (forall (linesize : Z) (fopen : string -> option (list item)) (acceptbadchars : bool)
          (s : state) (cs : list Z) (fuel : nat),
      0 < linesize -> 0 <= startoffset s -> 0 <= maxinputlen s ->
      yields fopen acceptbadchars s cs -> (length cs + 2 <= fuel)%nat ->
      exists (calls : list call) (s' : state),
        dump_calls linesize fopen acceptbadchars fuel s = Some (calls, s') /\
        concat (map fst calls)
        = firstn (Z.to_nat (maxinputlen s)) (skipn (Z.to_nat (startoffset s)) cs) /\
        Z.of_nat (length (concat (map fst calls)))
        = Z.min (maxinputlen s) (Z.max 0 (Z.of_nat (length cs) - startoffset s)) /\
        windowed linesize (startoffset s) calls) /\
  chd_dump 7 (mksettings 2 1 8 false true) (wcs "abcde")
  = Some (wcs "00000002: " ++ wcs "    63" ++ spaces 47 ++ wcs "c " ++ [10]).
Proof.
  split; [|vm_compute; reflexivity].
  intros linesize fopen acceptbadchars s cs fuel Hw Hs Hm Hy Hfuel.
  destruct (dump_calls_spec linesize fopen acceptbadchars s cs fuel Hw Hs Hm Hy Hfuel)
    as (calls & s' & E & Hcat & Hwin).
  exists calls, s'. repeat split; try assumption.
  rewrite Hcat, length_firstn, length_skipn. lia.
Qed.

Lemma dump_windowing_witness :
  exists (calls : list call) (s' : state),
    dump_calls 2 nofiles false 7 (initial (mksettings 2 1 2 false true) (Utf8.items (wcs "abcde")))
    = Some (calls, s') /\
    concat (map fst calls) = wcs "c" /\
    windowed 2 2 calls.
Proof.
  pose (s := initial (mksettings 2 1 2 false true) (Utf8.items (wcs "abcde"))).
  assert (Hy : yields nofiles false s (wcs "abcde")).
  { repeat (eapply yields_char; [vm_compute; reflexivity | discriminate |]).
    eapply yields_end. vm_compute. reflexivity. }
  assert (Hw : 0 < 2) by lia.
  assert (Hs : 0 <= startoffset s) by (vm_compute; discriminate).
  assert (Hm : 0 <= maxinputlen s) by (vm_compute; discriminate).
  assert (Hf : (length (wcs "abcde") + 2 <= 7)%nat) by (vm_compute; lia).
  destruct (proj1 dump_windowing 2 nofiles false s (wcs "abcde") 7%nat Hw Hs Hm Hy Hf)
    as (calls & s' & E & Hcat & _ & Hwin).
  exists calls, s'. repeat split; assumption.
Defined.

(** ** The undump driver *)

Section LineFacts.

Variable fopen : string -> option (list item).

Lemma inputinit_next_maxinputlen (names : list string) :
  forall s, maxinputlen (snd (inputinit_next fopen names s)) = maxinputlen s.
Proof.
  induction names as [|name rest IH]; intros s; [reflexivity|].
  cbn [inputinit_next]. destruct (String.eqb name "-"); [reflexivity|].
  destruct (fopen name); [reflexivity|]. rewrite IH. reflexivity.
Qed.

Lemma inputinit_maxinputlen (s : state) :
  maxinputlen (snd (inputinit fopen s)) = maxinputlen s.
Proof.
  unfold inputinit. destruct (currentfile s); [reflexivity|].
  apply inputinit_next_maxinputlen.
Qed.

Lemma inputupdate_maxinputlen (err : bool) (s : state) :
  maxinputlen (inputupdate err s) = maxinputlen s.
Proof.
  unfold inputupdate. destruct err; cbn; destruct (currentfile s) as [[|l]|]; reflexivity.
Qed.

Lemma set_unread_maxinputlen (s : state) (f : FILE) (l : list item) :
  maxinputlen (set_unread s f l) = maxinputlen s.
Proof. destruct f; reflexivity. Qed.

Lemma nextwline_loop_maxinputlen (buflen : Z) (turns : nat) :
  forall s, maxinputlen (snd (nextwline_loop fopen turns buflen s)) = maxinputlen s.
Proof.
  induction turns as [|turns IH]; intros s; [reflexivity|].
  cbn [nextwline_loop]. pose proof (inputinit_maxinputlen s) as E0.
  destruct (inputinit fopen s) as [ok s1]. cbn [snd] in E0.
  destruct ok; [|exact E0]. cbn [negb].
  destruct (currentfile s1) as [f|]; [|exact E0].
  destruct (fgetws buflen (unread s1 f)) as [[[buf|] err] l]; cbn [snd].
  - rewrite set_unread_maxinputlen. exact E0.
  - rewrite IH, inputupdate_maxinputlen, set_unread_maxinputlen. exact E0.
Qed.

Lemma nextwline_maxinputlen (buflen : Z) (s s' : state) (line : option (list Z)) :
  nextwline fopen buflen s = (line, s') -> maxinputlen s' = maxinputlen s.
Proof.
  intros H. pose proof (nextwline_loop_maxinputlen buflen (S (length (filenames s))) s) as E.
  unfold nextwline in H. rewrite H in E. exact E.
Qed.

End LineFacts.

Section UndumpFacts.

Variable linesize : Z.
Variable iswspace : Z -> bool.
Context {mbstate_t : Type}.
Variable wcrtomb : Z -> mbstate_t -> option (list Z) * mbstate_t.
Variable fopen : string -> option (list item).

(** The chunks the loop writes are as many as the budget it
    takes; a turn is made only on a positive budget and takes at
    most [linesize]. *)
Lemma undump_loop_count (len : Z) (fuel : nat) :
  forall (s s' : state) (w w' : written mbstate_t),
    0 < linesize ->
    undump_loop linesize iswspace wcrtomb fopen fuel len s w = Some (Ok (s', w')) ->
    exists more : list (list Z),
      fst w' = fst w ++ more /\
      Z.of_nat (length more) = maxinputlen s - maxinputlen s' /\
      (0 < maxinputlen s -> Z.of_nat (length more) <= maxinputlen s + linesize - 1) /\
      (maxinputlen s <= 0 -> more = []).
Proof.
  induction fuel as [|fuel IH]; intros s s' w w' Hw H; [discriminate|].
  cbn [undump_loop] in H.
  destruct (nextwline fopen len s) as [[line|] s1] eqn:En.
  - pose proof (nextwline_maxinputlen _ _ _ _ _ En) as Em.
    destruct (Z.gtb_spec (maxinputlen s1) 0) as [Hpos|Hzero].
    + destruct (translatedumpline linesize iswspace wcrtomb (Some line) (snd w))
        as [[n [chunks mbs1]]|] eqn:Et; [|discriminate].
      apply translatedumpline_count in Et. destruct Et as [Hn Hrange].
      apply IH in H; [|exact Hw].
      destruct H as (more & Hw' & Hlen & Hbound & Hnone).
      cbn [fst maxinputlen set_maxinputlen] in Hw', Hlen, Hbound, Hnone.
      exists (chunks ++ more). rewrite Hw', app_assoc, length_app.
      split; [reflexivity|]. split; [lia|]. split; [|lia].
      intros _. destruct (Z.lt_ge_cases 0 (maxinputlen s1 - n)) as [Hrest|Hdone].
      * specialize (Hbound Hrest). lia.
      * rewrite (Hnone ltac:(lia)). cbn [length]. lia.
    + injection H as <- <-. exists []. rewrite app_nil_r. cbn [length].
      repeat split; try lia. 
  - pose proof (nextwline_maxinputlen _ _ _ _ _ En) as Em.
    injection H as <- <-. exists []. rewrite app_nil_r. cbn [length].
    repeat split; try lia.
Qed.

End UndumpFacts.

(** ** C10: the budget of undump *)

(** C10. [undump] tests its budget before a line, never inside one:
    the fields written (one chunk each) are as many as the budget
    taken, at most [maxinputlen + linesize - 1], and the call that
    resets the shift state comes after them in every case.  A full
    line of eight fields is written whole on a budget of one. *)
Theorem undump_budget :
  (forall (linesize : Z) (iswspace : Z -> bool) (mbstate_t : Type)
          (wcrtomb : Z -> mbstate_t -> option (list Z) * mbstate_t)
          (fopen : string -> option (list item)) (fuel : nat) (mbs mbs' : mbstate_t)
          (s s' : state) (chunks : list (list Z)),
      0 < linesize -> 0 <= maxinputlen s ->
      undump linesize iswspace wcrtomb fopen fuel mbs s = Some (Ok (s', (chunks, mbs'))) ->
      exists (fields : list (list Z)) (mbs1 : mbstate_t) (out : list Z),
        chunks = fields ++ [removelast out] /\
        wcrtomb 0 mbs1 = (Some out, mbs') /\
        Z.of_nat (length fields) = maxinputlen s - maxinputlen s' /\
        Z.of_nat (length fields) <= maxinputlen s + linesize - 1) /\
  (exists (s' : state) (fields : list (list Z)),
      undump 8 Utf8.iswspace Utf8.wcrtomb nofiles 3 tt
             (initial (mksettings 0 1 8 false false)
                      (map Wc (renderdumpline 8 Utf8.wcwidth (wcs "12345678") 0)))
      = Some (Ok (s', (fields ++ [[]], tt))) /\
      length fields = 8%nat).
Proof.
  split.
  - intros linesize iswspace mbstate_t wcrtomb fopen fuel mbs mbs' s s' chunks Hw Hm H.
    unfold undump in H.
    destruct (undump_loop linesize iswspace wcrtomb fopen fuel (linesize * 8 + 20) s ([], mbs))
      as [[[s1 [fields mbs1]]|]|] eqn:El; try discriminate.
    cbn [translatedumpline] in H.
    destruct (wcrtomb 0 mbs1) as [[out|] mbs2] eqn:Ew; [|discriminate].
    injection H as <- <- <-.
    apply undump_loop_count in El; [|exact Hw].
    destruct El as (more & Hfields & Hlen & Hbound & Hnone).
    cbn [fst app] in Hfields. subst more.
    exists fields, mbs1, out. split; [reflexivity|]. split; [exact Ew|].
    split; [exact Hlen|].
    destruct (Z.lt_ge_cases 0 (maxinputlen s)) as [Hpos|Hzero].
    + apply Hbound. exact Hpos.
    + rewrite (Hnone ltac:(lia)). cbn [length]. lia.
  - eexists. exists (map (fun c => [c]) (wcs "12345678")).
    split; [vm_compute; reflexivity | reflexivity].
Qed.

Lemma undump_budget_witness :
  exists (fields : list (list Z)) (s' : state),
    undump 8 Utf8.iswspace Utf8.wcrtomb nofiles 3 tt
           (initial (mksettings 0 1 8 false false)
                    (map Wc (renderdumpline 8 Utf8.wcwidth (wcs "12345678") 0)))
    = Some (Ok (s', (fields ++ [[]], tt))) /\
    Z.of_nat (length fields) <= 1 + 8 - 1.
Proof.
  pose (s := initial (mksettings 0 1 8 false false)
                     (map Wc (renderdumpline 8 Utf8.wcwidth (wcs "12345678") 0))).
  destruct (proj2 undump_budget) as (s' & fields & E & Hlen).
  assert (Hw : 0 < 8) by lia.
  assert (Hm : 0 <= maxinputlen s) by (vm_compute; discriminate).
  destruct (proj1 undump_budget 8 Utf8.iswspace Utf8.mbstate_t Utf8.wcrtomb nofiles 3%nat tt tt
                  s s' (fields ++ [[]]) Hw Hm E)
    as (fields' & mbs1 & out & Hc & Hflush & Hcount & Hbound).
  exists fields, s'. split; [exact E|].
  apply app_inj_tail in Hc. destruct Hc as [Hc _]. subst fields'.
  exact Hbound.
Defined.

(** ** C1, C2, C6: dump lines read back *)

Example line_abc_text :
  line_abc = wcs "00000000:     61    62    63" ++ spaces 35 ++ wcs "a b c " ++ [10].
Proof. reflexivity. Qed.

(** A full line is read back as it was written. *)
Example roundtrip_full_line :
  roundtrip 4 defaults (wcs "12345678") = Some (Ok (wcs "12345678")).
Proof. vm_compute. reflexivity. Qed.

(** A short line whose glyphs begin with no hexadecimal digit is
    read back as it was written. *)
Example roundtrip_Hi : roundtrip 4 defaults (wcs "Hi!") = Some (Ok (wcs "Hi!")).
Proof. vm_compute. reflexivity. Qed.

(** C1. The dump of the three bytes [abc] is read back as eight
    bytes: [%6X] skips the padding of the short line and takes the
    glyph [a] for a field, five times. *)
Theorem roundtrip_abc :
  roundtrip 4 defaults (wcs "abc") = Some (Ok (wcs "abc" ++ [10; 10; 10; 10; 10])).
Proof. vm_compute. reflexivity. Qed.

(** The scanning of one blank field of that line. *)
Example scan_padding :
  Scanf.scan_6X Utf8.iswspace (spaces 35 ++ wcs "a b c " ++ [10]) = Some 10.
Proof. vm_compute. reflexivity. Qed.

(** C2. The invalid byte FF alone is dumped as the field [   *FF]
    and read back as the byte FF; after the byte 61 the same byte
    comes back followed by six bytes the input did not have. *)
Theorem roundtrip_rawbyte :
  chd_dump 4 tolerant [0xFF]
  = Some (wcs "00000000: " ++ wcs "   *FF" ++ spaces 47 ++ [replacechar; 32; 10]) /\
  roundtrip 4 tolerant [0xFF] = Some (Ok [0xFF]) /\
  Utf8.encode 0xFF = Some [0xC3; 0xBF] /\
  roundtrip 4 tolerant [0x61; 0xFF] = Some (Ok [0x61; 0xFF; 10; 10; 10; 10; 10; 10]).
Proof. vm_compute. repeat split; reflexivity. Qed.

(** C6. On the dump line of [abc] the parser does not stop at the
    padding: it returns 8 and writes eight chunks. *)
Theorem translatedumpline_abc :
  translatedumpline 8 Utf8.iswspace Utf8.wcrtomb (Some line_abc) tt
  = Ok (8, ([[97]; [98]; [99]; [10]; [10]; [10]; [10]; [10]], tt)).
Proof. vm_compute. reflexivity. Qed.

(** ** C9: numeric options *)

Lemma getn_accepted (erange0 : bool) (str : option string) (name : string) (maxval n : Z) :
  getn erange0 str name maxval = inr n ->
  0 <= n <= INT_MAX /\ (maxval <> 0 -> n <= maxval).
Proof.
  unfold getn. destruct str as [[|a text]|]; try discriminate.
  destruct (Strtol.strtol (chars (String a text))) as [[[v nothing] p] erange].
  destruct (negb match p with [] => true | _ :: _ => false end || nothing
            || (v =? LONG_MAX) && (erange0 || erange) || (v <? 0) || (v >? INT_MAX)) eqn:E;
    [discriminate|].
  destruct (negb (maxval =? 0) && (v >? maxval)) eqn:E2; [discriminate|].
  intros H. injection H as <-.
  repeat (apply orb_false_elim in E; destruct E as [E ?]).
  split; [lia|]. intros Hmax.
  apply andb_false_elim in E2. destruct E2 as [E2|E2]; lia.
Qed.

(** The end of [dump] is never reached when [linesize] is 0. *)
Lemma dump_loop_linesize_0 (fopen : string -> option (list item)) (acceptbadchars : bool)
      (fuel : nat) (pos ch : Z) (s : state) :
  ch <> WEOF -> 0 < maxinputlen s ->
  dump_loop 0 fopen acceptbadchars fuel pos ch s = None.
Proof.
  intros Hch Hm. revert pos. induction fuel as [|fuel IH]; intros pos; [reflexivity|].
  cbn [dump_loop]. destruct (Z.eqb_spec ch WEOF) as [|_]; [contradiction|].
  destruct (Z.gtb_spec (maxinputlen s) 0) as [_|]; [|lia].
  cbn [negb andb Z.to_nat dump_fill length Z.of_nat]. rewrite IH. reflexivity.
Qed.

(** C9. The argument [0] is accepted for [--count] and makes
    [linesize] 0, with which [dump] never ends whatever its input;
    the values above 255 and the strings that are no number are
    refused. *)
Theorem count_zero_accepted :
  getn false (Some "0"%string) "count" 255 = inr 0 /\
  parsecommandline [("c"%char, Some "0"%string)] = inr (mksettings 0 INT_MAX 0 false true) /\
  (forall (fopen : string -> option (list item)) (acceptbadchars : bool)
          (fuel : nat) (input : list item),
      dump_calls 0 fopen acceptbadchars fuel (initial (mksettings 0 INT_MAX 0 false true) input)
      = None) /\
  getn false (Some "256"%string) "count" 255 = inl (ValueTooLarge "count" 255) /\
  getn false (Some "8x"%string) "count" 255 = inl (InvalidArgument "8x" "count") /\
  getn false (Some "-1"%string) "count" 255 = inl (InvalidArgument "-1" "count").
Proof.
  split; [reflexivity|]. split; [reflexivity|]. split; [|repeat split; reflexivity].
  intros fopen acceptbadchars fuel input. unfold dump_calls.
  cbn [initial startoffset opt_startoffset Z.to_nat dump_skip].
  apply dump_loop_linesize_0; [discriminate | reflexivity].
Qed.

(** ** The input is finite *)

Section Pending.

Variable fopen : string -> option (list item).
Variable acceptbadchars : bool.

Lemma waiting_tl (names : list string) : (waiting fopen (tl names) <= waiting fopen names)%nat.
Proof. destruct names; cbn [tl waiting]; lia. Qed.

Lemma inputinit_next_pending (names : list string) :
  forall s, (pending fopen (snd (inputinit_next fopen names s))
             <= length (stdin_unread s) + waiting fopen names)%nat.
Proof.
  induction names as [|name rest IH]; intros s.
  - cbn. lia.
  - cbn [inputinit_next waiting]. destruct (String.eqb name "-").
    + cbn. lia.
    + destruct (fopen name) as [l|].
      * cbn. lia.
      * etransitivity; [apply IH|]. cbn. lia.
Qed.

Lemma inputinit_pending (s : state) : (pending fopen (snd (inputinit fopen s)) <= pending fopen s)%nat.
Proof.
  unfold inputinit. destruct (currentfile s) eqn:E; [cbn [snd]; lia|].
  etransitivity; [apply inputinit_next_pending|]. unfold pending. rewrite E. lia.
Qed.

Lemma inputupdate_pending (err : bool) (s : state) :
  (pending fopen (inputupdate err s) <= pending fopen s)%nat.
Proof.
  pose proof (waiting_tl (filenames s)) as Ht.
  destruct s as [so m names cur unr ec]. cbn [filenames] in Ht.
  unfold inputupdate, pending.
  destruct err, cur as [[|l]|]; cbn; lia.
Qed.

Lemma set_unread_pending (s : state) (f : FILE) (l : list item) :
  currentfile s = Some f ->
  (pending fopen (set_unread s f l) + length (unread s f) = pending fopen s + length l)%nat.
Proof.
  intros E. unfold pending. rewrite E. destruct f; cbn; lia.
Qed.

(** A character read takes an item away. *)
Lemma nextwchar_loop_pending (turns : nat) :
  forall (s s' : state) (c : Z),
    nextwchar_loop fopen acceptbadchars turns s = (c, s') ->
    (pending fopen s' <= pending fopen s)%nat /\ (c <> WEOF -> (pending fopen s' < pending fopen s)%nat).
Proof.
  induction turns as [|turns IH]; intros s s' c H.
  - cbn [nextwchar_loop] in H. injection H as <- <-. split; [lia | congruence].
  - cbn [nextwchar_loop] in H. pose proof (inputinit_pending s) as E0.
    destruct (inputinit fopen s) as [ok s1]. cbn [snd] in E0.
    destruct ok; cbn [negb] in H.
    2:{ injection H as <- <-. split; [lia | congruence]. }
    destruct (currentfile s1) as [f|] eqn:Ef.
    2:{ injection H as <- <-. split; [lia | congruence]. }
    pose proof (set_unread_pending s1 f) as Eu.
    destruct (unread s1 f) as [|[ch|b] l].
    + apply IH in H. pose proof (inputupdate_pending false s1). lia.
    + specialize (Eu l Ef). cbn [length] in Eu.
      destruct (negb (ch =? WEOF)).
      * injection H as <- <-. lia.
      * apply IH in H. pose proof (inputupdate_pending false (set_unread s1 f l)). lia.
    + specialize (Eu l Ef). cbn [length] in Eu.
      destruct acceptbadchars.
      * apply (f_equal snd) in H. cbn [snd] in H. subst s'. lia.
      * apply IH in H. pose proof (inputupdate_pending true s1). lia.
Qed.

Lemma nextwchar_pending (s s' : state) (c : Z) :
  nextwchar fopen acceptbadchars s = (c, s') -> c <> WEOF -> (pending fopen s' < pending fopen s)%nat.
Proof.
  intros H Hc. apply nextwchar_loop_pending in H. apply H. exact Hc.
Qed.

(** Every state yields its characters, no more of them than it has
    items to read. *)
Theorem yields_total (s : state) :
  exists cs : list Z, yields fopen acceptbadchars s cs /\ (length cs <= pending fopen s)%nat.
Proof.
  remember (pending fopen s) as n eqn:En.
  revert s En. induction n as [n IH] using lt_wf_ind. intros s En.
  destruct (nextwchar fopen acceptbadchars s) as [c s'] eqn:E.
  destruct (Z.eq_dec c WEOF) as [->|Hc].
  - exists []. split; [eapply yields_end; exact E | cbn; lia].
  - pose proof (nextwchar_pending _ _ _ E Hc) as Hlt.
    destruct (IH (pending fopen s') ltac:(lia) s' eq_refl) as (cs & Hy & Hlen).
    exists (c :: cs). split; [eapply yields_char; eassumption | cbn [length]; lia].
Qed.

(** What a state yields is determined. *)
Lemma yields_unique (s : state) (cs cs' : list Z) :
  yields fopen acceptbadchars s cs -> yields fopen acceptbadchars s cs' -> cs = cs'.
Proof.
  intros H. revert cs'. induction H as [s s1 H | s s1 c cs H Hc Hy IH]; intros cs' H'.
  - inversion H' as [s0 s2 H2 | s0 s2 c2 cs2 H2 Hc2 Hy2]; subst; [reflexivity|].
    rewrite H in H2. injection H2 as <- <-. contradiction.
  - inversion H' as [s0 s2 H2 | s0 s2 c2 cs2 H2 Hc2 Hy2]; subst.
    + rewrite H in H2. injection H2 as -> <-. contradiction.
    + rewrite H in H2. injection H2 as <- <-. f_equal. apply IH. exact Hy2.
Qed.

(** [fgetws] gives a line only by reading. *)
Lemma fgetws_from_shorter (room : nat) :
  forall (acc : list Z) (l l' : list item) (r : option (list Z)) (err : bool),
    fgetws_from room acc l = (r, err, l') ->
    (length l' <= length l)%nat /\
    (r <> None -> acc = [] -> (0 < room)%nat -> (length l' < length l)%nat).
Proof.
  induction room as [|room IH]; intros acc l l' r err H.
  - cbn [fgetws_from] in H. injection H as <- <- <-. split; lia.
  - cbn [fgetws_from] in H. destruct l as [|[ch|b] l0].
    + injection H as <- <- <-. split; [lia|]. intros Hr ->. congruence.
    + destruct (ch =? 10).
      * injection H as <- <- <-. cbn [length]. split; lia.
      * apply IH in H. cbn [length]. split; lia.
    + injection H as <- <- <-. split; [lia|]. congruence.
Qed.

(** A line read takes an item away. *)
Lemma nextwline_loop_pending (buflen : Z) (turns : nat) :
  2 <= buflen ->
  forall (s s' : state) (line : option (list Z)),
    nextwline_loop fopen turns buflen s = (line, s') ->
    (pending fopen s' <= pending fopen s)%nat /\ (line <> None -> (pending fopen s' < pending fopen s)%nat).
Proof.
  intros Hlen. induction turns as [|turns IH]; intros s s' line H.
  - cbn [nextwline_loop] in H. injection H as <- <-. split; [lia | congruence].
  - cbn [nextwline_loop] in H. pose proof (inputinit_pending s) as E0.
    destruct (inputinit fopen s) as [ok s1]. cbn [snd] in E0.
    destruct ok; cbn [negb] in H.
    2:{ injection H as <- <-. split; [lia | congruence]. }
    destruct (currentfile s1) as [f|] eqn:Ef.
    2:{ injection H as <- <-. split; [lia | congruence]. }
    destruct (fgetws buflen (unread s1 f)) as [[r err] l] eqn:Eg.
    unfold fgetws in Eg. apply fgetws_from_shorter in Eg. destruct Eg as [Hle Hlt].
    pose proof (set_unread_pending s1 f l Ef) as Eu.
    destruct r as [buf|].
    + injection H as <- <-. specialize (Hlt ltac:(discriminate) eq_refl ltac:(lia)).
      split; [lia|]. intros _. lia.
    + apply IH in H. destruct H as [H1 H2].
      pose proof (inputupdate_pending err (set_unread s1 f l)).
      split; [lia|]. intros Hl. specialize (H2 Hl). lia.
Qed.

Lemma set_maxinputlen_pending (s : state) (m : Z) :
  pending fopen (set_maxinputlen s m) = pending fopen s.
Proof. reflexivity. Qed.

End Pending.

Section Termination.

Variable linesize : Z.
Variable iswspace : Z -> bool.
Context {mbstate_t : Type}.
Variable wcrtomb : Z -> mbstate_t -> option (list Z) * mbstate_t.
Variable fopen : string -> option (list item).

(** The loop of [undump] ends: fuel above the number of items to
    read is never used up. *)
Theorem undump_loop_ends (len : Z) (fuel : nat) :
  2 <= len ->
  forall (s : state) (w : written mbstate_t),
    (pending fopen s < fuel)%nat ->
    undump_loop linesize iswspace wcrtomb fopen fuel len s w <> None.
Proof.
  intros Hlen. induction fuel as [|fuel IH]; intros s w Hfuel; [lia|].
  cbn [undump_loop].
  destruct (nextwline fopen len s) as [[line|] s1] eqn:En; [|discriminate].
  unfold nextwline in En. apply nextwline_loop_pending in En; [|exact Hlen].
  destruct En as [_ Hlt]. specialize (Hlt ltac:(discriminate)).
  destruct (maxinputlen s1 >? 0); [|discriminate].
  destruct (translatedumpline linesize iswspace wcrtomb (Some line) (snd w))
    as [[n [chunks mbs1]]|]; [|discriminate].
  apply IH. rewrite set_maxinputlen_pending. lia.
Qed.

(** X9. [undump] ends on every input: with more fuel than the input
    has items and names still to give, the loop is left through one
    of its exits and not for want of fuel. *)
Theorem undump_ends (fuel : nat) (mbs : mbstate_t) (s : state) :
  0 <= linesize -> (pending fopen s < fuel)%nat ->
  undump linesize iswspace wcrtomb fopen fuel mbs s <> None.
Proof.
  intros Hw Hfuel. unfold undump.
  pose proof (undump_loop_ends (linesize * 8 + 20) fuel ltac:(lia) s ([], mbs) Hfuel) as H.
  destruct (undump_loop linesize iswspace wcrtomb fopen fuel (linesize * 8 + 20) s ([], mbs))
    as [[[s1 [chunks mbs1]]|]|]; [|discriminate|contradiction].
  destruct (translatedumpline linesize iswspace wcrtomb None mbs1) as [[n [flush mbs2]]|];
    discriminate.
Qed.

End Termination.

(** X8. [dump] ends on every input when [linesize] is positive:
    with fuel for the items and names the input still has to give,
    the loop is left through its condition and not for want of
    fuel. *)
Theorem dump_ends (linesize : Z) (fopen : string -> option (list item))
        (acceptbadchars : bool) (s : state) (fuel : nat) :
  0 < linesize -> 0 <= startoffset s -> 0 <= maxinputlen s ->
  (pending fopen s + 2 <= fuel)%nat ->
  dump_calls linesize fopen acceptbadchars fuel s <> None.
Proof.
  intros Hw Hs Hm Hfuel.
  destruct (yields_total fopen acceptbadchars s) as (cs & Hy & Hlen).
  destruct (dump_calls_spec linesize fopen acceptbadchars s cs fuel Hw Hs Hm Hy ltac:(lia))
    as (calls & s' & E & _).
  rewrite E. discriminate.
Qed.

(** ** The bound on the turns of the reader is never met *)

Section Turns.

Variable fopen : string -> option (list item).
Variable acceptbadchars : bool.

Lemma set_input_closed (s : state) :
  currentfile s = None -> filenames s = [] -> set_input s [] None = s.
Proof. destruct s. cbn. intros -> ->. reflexivity. Qed.

Lemma inputinit_closed (s : state) :
  currentfile s = None -> filenames s = [] -> inputinit fopen s = (false, s).
Proof.
  intros Hc Hn. unfold inputinit. rewrite Hc, Hn. cbn [inputinit_next].
  rewrite set_input_closed by assumption. reflexivity.
Qed.

Lemma inputinit_next_names (names : list string) :
  forall s, (length (filenames (snd (inputinit_next fopen names s))) <= length names)%nat.
Proof.
  induction names as [|name rest IH]; intros s; [cbn; lia|].
  cbn [inputinit_next]. destruct (String.eqb name "-"); [cbn; lia|].
  destruct (fopen name); [cbn; lia|].
  etransitivity; [apply IH|]. cbn. lia.
Qed.

Lemma inputinit_names (s : state) :
  (length (filenames (snd (inputinit fopen s))) <= length (filenames s))%nat.
Proof.
  unfold inputinit. destruct (currentfile s); [cbn [snd]; lia|].
  apply inputinit_next_names.
Qed.

Lemma inputupdate_closed (err : bool) (s : state) :
  currentfile (inputupdate err s) = None /\
  filenames (inputupdate err s) = tl (filenames s).
Proof.
  destruct s as [so m names cur unr ec]. unfold inputupdate.
  destruct err, cur as [[|l]|]; cbn; split; reflexivity.
Qed.

Lemma set_unread_names (s : state) (f : FILE) (l : list item) :
  filenames (set_unread s f l) = filenames s.
Proof. destruct f; reflexivity. Qed.

Lemma nextwchar_loop_closed (turns : nat) (s : state) :
  currentfile s = None -> filenames s = [] ->
  nextwchar_loop fopen acceptbadchars turns s = (WEOF, s).
Proof.
  intros Hc Hn. destruct turns; [reflexivity|].
  cbn [nextwchar_loop]. rewrite inputinit_closed by assumption. reflexivity.
Qed.

Lemma nextwline_loop_closed (buflen : Z) (turns : nat) (s : state) :
  currentfile s = None -> filenames s = [] ->
  nextwline_loop fopen turns buflen s = (None, s).
Proof.
  intros Hc Hn. destruct turns; [reflexivity|].
  cbn [nextwline_loop]. rewrite inputinit_closed by assumption. reflexivity.
Qed.

(** After a file is given up the loop goes on with fewer names, or
    with none and then stops at once. *)
Lemma after_inputupdate (n m : nat) (s s1 : state) (err : bool) (P : state -> Prop) :
  (length (filenames s) < S n)%nat -> (length (filenames s) < S m)%nat ->
  (length (filenames s1) <= length (filenames s))%nat ->
  (currentfile (inputupdate err s1) = None -> filenames (inputupdate err s1) = [] ->
   P (inputupdate err s1)) ->
  ((length (filenames (inputupdate err s1)) < n)%nat ->
   (length (filenames (inputupdate err s1)) < m)%nat -> P (inputupdate err s1)) ->
  P (inputupdate err s1).
Proof.
  intros Hn Hm Hle Hclosed Hless.
  destruct (inputupdate_closed err s1) as [Hc Hf].
  destruct (filenames s1) as [|name rest] eqn:E.
  - apply Hclosed; [exact Hc | rewrite Hf; reflexivity].
  - cbn [length tl] in *. apply Hless; rewrite Hf; lia.
Qed.

Lemma nextwchar_loop_turns (n : nat) :
  forall (m : nat) (s : state),
    (length (filenames s) < n)%nat -> (length (filenames s) < m)%nat ->
    nextwchar_loop fopen acceptbadchars n s = nextwchar_loop fopen acceptbadchars m s.
Proof.
  induction n as [|n IH]; intros m s Hn Hm; [lia|].
  destruct m as [|m]; [lia|].
  cbn [nextwchar_loop]. pose proof (inputinit_names s) as Hle.
  destruct (inputinit fopen s) as [ok s1]. cbn [snd] in Hle.
  destruct ok; [|reflexivity]. cbn [negb].
  destruct (currentfile s1) as [f|]; [|reflexivity].
  assert (Hgo : forall (err : bool) (s2 : state),
             (length (filenames s2) <= length (filenames s))%nat ->
             nextwchar_loop fopen acceptbadchars n (inputupdate err s2)
             = nextwchar_loop fopen acceptbadchars m (inputupdate err s2)).
  { intros err s2 Hle2.
    apply (after_inputupdate n m s s2 err
             (fun x => nextwchar_loop fopen acceptbadchars n x
                       = nextwchar_loop fopen acceptbadchars m x) Hn Hm Hle2).
    - intros Hc Hf. rewrite !nextwchar_loop_closed by assumption. reflexivity.
    - intros H1 H2. apply IH; assumption. }
  destruct (unread s1 f) as [|[ch|b] l].
  - apply Hgo. exact Hle.
  - destruct (negb (ch =? WEOF)); [reflexivity|].
    apply Hgo. rewrite set_unread_names. exact Hle.
  - destruct acceptbadchars; [reflexivity|]. apply Hgo. exact Hle.
Qed.

(** More turns than [nextwchar] allows itself change nothing. *)
Theorem nextwchar_turns (n : nat) (s : state) :
  (length (filenames s) < n)%nat ->
  nextwchar_loop fopen acceptbadchars n s = nextwchar fopen acceptbadchars s.
Proof.
  intros Hn. unfold nextwchar. apply nextwchar_loop_turns; lia.
Qed.

Lemma nextwline_loop_turns (buflen : Z) (n : nat) :
  forall (m : nat) (s : state),
    (length (filenames s) < n)%nat -> (length (filenames s) < m)%nat ->
    nextwline_loop fopen n buflen s = nextwline_loop fopen m buflen s.
Proof.
  induction n as [|n IH]; intros m s Hn Hm; [lia|].
  destruct m as [|m]; [lia|].
  cbn [nextwline_loop]. pose proof (inputinit_names s) as Hle.
  destruct (inputinit fopen s) as [ok s1]. cbn [snd] in Hle.
  destruct ok; [|reflexivity]. cbn [negb].
  destruct (currentfile s1) as [f|]; [|reflexivity].
  destruct (fgetws buflen (unread s1 f)) as [[[buf|] err] l]; [reflexivity|].
  apply (after_inputupdate n m s (set_unread s1 f l) err
           (fun x => nextwline_loop fopen n buflen x = nextwline_loop fopen m buflen x) Hn Hm).
  - rewrite set_unread_names. exact Hle.
  - intros Hc Hf. rewrite !nextwline_loop_closed by assumption. reflexivity.
  - intros H1 H2. apply IH; assumption.
Qed.

(** More turns than [nextwline] allows itself change nothing. *)
Theorem nextwline_turns (buflen : Z) (n : nat) (s : state) :
  (length (filenames s) < n)%nat ->
  nextwline_loop fopen n buflen s = nextwline fopen buflen s.
Proof.
  intros Hn. unfold nextwline. apply nextwline_loop_turns; lia.
Qed.

End Turns.

(** ** Fields read back *)

Section ScanFacts.

Variable iswspace : Z -> bool.
Hypothesis space_is_space : iswspace 32 = true.
Hypothesis xdigit_no_space : forall c, Scanf.iswxdigit c = true -> iswspace c = false.
Hypothesis star_no_space : iswspace 42 = false.

Lemma skipws_spaces (j : nat) (l : list Z) :
  Scanf.skipws iswspace (repeat 32 j ++ l) = Scanf.skipws iswspace l.
Proof.
  induction j as [|j IH]; [reflexivity|].
  cbn [repeat app Scanf.skipws]. rewrite space_is_space. exact IH.
Qed.

Lemma skipws_stay (c : Z) (l : list Z) :
  iswspace c = false -> Scanf.skipws iswspace (c :: l) = c :: l.
Proof. intros H. cbn [Scanf.skipws]. rewrite H. reflexivity. Qed.

Lemma xdigits_run (ds : list Z) :
  forall (width : nat) (acc : Z) (seen : bool) (rest : list Z),
    Forall (fun d => Scanf.iswxdigit d = true) ds ->
    (length ds <= width)%nat ->
    length ds = width \/ no_xdigit_ahead rest ->
    ds <> [] \/ seen = true ->
    Scanf.xdigits width (ds ++ rest) acc seen
    = Some (fold_left (fun a c => 16 * a + Scanf.xvalue c) ds acc).
Proof.
  induction ds as [|d ds IH]; intros width acc seen rest Hx Hlen Hstop Hseen.
  - destruct Hseen as [Hne | ->]; [congruence|].
    cbn [app fold_left]. destruct width as [|width]; [reflexivity|].
    destruct rest as [|r rest]; [reflexivity|].
    cbn [Scanf.xdigits]. destruct Hstop as [Hlen0 | Hr]; [discriminate Hlen0|].
    cbn [no_xdigit_ahead] in Hr. rewrite Hr. reflexivity.
  - inversion Hx as [|d' ds' Hd Hds]; subst.
    destruct width as [|width]; [cbn [length] in Hlen; lia|].
    cbn [app Scanf.xdigits fold_left]. rewrite Hd.
    apply IH.
    + exact Hds.
    + cbn [length] in Hlen. lia.
    + destruct Hstop as [Hl | Hr]; [left; cbn [length] in Hl; lia | right; exact Hr].
    + right. reflexivity.
Qed.

(** A run of at least two digits is read as its value, with or
    without a leading zero. *)
Lemma xprefix_run (ds rest : list Z) (width : nat) :
  Forall (fun d => Scanf.iswxdigit d = true) ds ->
  (2 <= length ds <= width)%nat ->
  length ds = width \/ no_xdigit_ahead rest ->
  Scanf.xprefix width (ds ++ rest) = Some (hexvalue ds).
Proof.
  intros Hx Hlen Hstop.
  destruct ds as [|d1 [|d2 ds]]; cbn [length] in Hlen; try lia.
  destruct width as [|[|width]]; try lia.
  inversion Hx as [|? ? Hd1 Hx1]; subst. inversion Hx1 as [|? ? Hd2 Hx2]; subst.
  cbn [app Scanf.xprefix]. destruct (Z.eqb_spec d1 48) as [->|Hnz].
  - assert (Hnox : (d2 =? 120) || (d2 =? 88) = false).
    { destruct (Z.eqb_spec d2 120) as [->|_]; [discriminate Hd2|].
      destruct (Z.eqb_spec d2 88) as [->|_]; [discriminate Hd2|]. reflexivity. }
    rewrite Hnox.
    change (hexvalue (48 :: d2 :: ds)) with (hexvalue (d2 :: ds)).
    apply (xdigits_run (d2 :: ds) (S width) 0 true rest Hx1).
    + cbn [length] in *. lia.
    + destruct Hstop as [Hl | Hr]; [left; cbn [length] in *; lia | right; exact Hr].
    + left. discriminate.
  - apply (xdigits_run (d1 :: d2 :: ds) (S (S width)) 0 false rest Hx).
    + cbn [length] in *. lia.
    + exact Hstop.
    + left. discriminate.
Qed.

Lemma to_int_small (v : Z) : 0 <= v < 2 ^ 31 -> Scanf.to_int v = v.
Proof.
  intros Hv. unfold Scanf.to_int. cbv zeta.
  rewrite Z.mod_small by lia.
  destruct (Z.ltb_spec v (2 ^ 31)); [reflexivity | lia].
Qed.

Lemma xdigit_no_sign (d : Z) : Scanf.iswxdigit d = true -> (d =? 45) = false /\ (d =? 43) = false.
Proof.
  intros Hd. split.
  - destruct (Z.eqb_spec d 45) as [->|_]; [discriminate Hd | reflexivity].
  - destruct (Z.eqb_spec d 43) as [->|_]; [discriminate Hd | reflexivity].
Qed.

(** [%6X] on a right-justified run of digits gives its value. *)
Lemma scan_6X_field (j : nat) (ds rest : list Z) :
  Forall (fun d => Scanf.iswxdigit d = true) ds ->
  (2 <= length ds <= 6)%nat ->
  length ds = 6%nat \/ no_xdigit_ahead rest ->
  0 <= hexvalue ds < 2 ^ 31 ->
  Scanf.scan_6X iswspace (repeat 32 j ++ ds ++ rest) = Some (hexvalue ds).
Proof.
  intros Hx Hlen Hstop Hv. unfold Scanf.scan_6X, Scanf.conv_X.
  rewrite skipws_spaces.
  destruct ds as [|d ds]; [cbn [length] in Hlen; lia|].
  inversion Hx as [|? ? Hd Hx1]; subst.
  cbn [app]. rewrite skipws_stay by (apply xdigit_no_space; exact Hd).
  destruct (xdigit_no_sign d Hd) as [-> ->].
  change (d :: ds ++ rest) with ((d :: ds) ++ rest).
  rewrite xprefix_run by assumption.
  cbn [option_map]. rewrite to_int_small by exact Hv. reflexivity.
Qed.

(** The field of a raw byte: [%6X] fails on it and [ *%2X] gives
    the byte. *)
Lemma scan_6X_star (j : nat) (rest : list Z) :
  Scanf.scan_6X iswspace (repeat 32 j ++ 42 :: rest) = None.
Proof.
  unfold Scanf.scan_6X, Scanf.conv_X. rewrite skipws_spaces.
  rewrite skipws_stay by exact star_no_space. reflexivity.
Qed.

Lemma scan_star_2X_field (j : nat) (h l : Z) (rest : list Z) :
  Scanf.iswxdigit h = true -> Scanf.iswxdigit l = true ->
  Scanf.scan_star_2X iswspace (repeat 32 j ++ 42 :: h :: l :: rest)
  = Some (hexvalue [h; l]).
Proof.
  intros Hh Hl. unfold Scanf.scan_star_2X. rewrite skipws_spaces.
  rewrite skipws_stay by exact star_no_space. cbn [Z.eqb Pos.eqb].
  unfold Scanf.conv_X. rewrite skipws_stay by (apply xdigit_no_space; exact Hh).
  destruct (xdigit_no_sign h Hh) as [-> ->].
  change (h :: l :: rest) with ([h; l] ++ rest).
  rewrite xprefix_run.
  - cbn [option_map]. f_equal. apply to_int_small.
    assert (Hr : forall d, Scanf.iswxdigit d = true -> 0 <= Scanf.xvalue d < 16).
    { intros d Hd. unfold Scanf.iswxdigit in Hd. unfold Scanf.xvalue.
      destruct (Z.leb_spec d 57); destruct (Z.leb_spec d 70); lia. }
    pose proof (Hr h Hh). pose proof (Hr l Hl).
    unfold hexvalue. cbn [fold_left]. lia.
  - repeat constructor; assumption.
  - cbn [length]. lia.
  - left. reflexivity.
Qed.

Lemma scan_stops (rest : list Z) :
  stops iswspace rest ->
  Scanf.scan_6X iswspace rest = None /\ Scanf.scan_star_2X iswspace rest = None.
Proof.
  unfold stops, Scanf.scan_6X, Scanf.scan_star_2X, Scanf.conv_X.
  destruct (Scanf.skipws iswspace rest) as [|c t]; [split; reflexivity|].
  intros (Hx & H45 & H43 & H42).
  destruct (Z.eqb_spec c 45); [contradiction|]. destruct (Z.eqb_spec c 43); [contradiction|].
  destruct (Z.eqb_spec c 42); [contradiction|].
  split; [|reflexivity].
  unfold Scanf.xprefix. destruct (Z.eqb_spec c 48) as [->|_]; [discriminate Hx|].
  cbn [Scanf.xdigits]. rewrite Hx. reflexivity.
Qed.

End ScanFacts.

Section FieldForm.
Import Printf PrintfFacts HexFacts.

Lemma xvalue_range (d : Z) : Scanf.iswxdigit d = true -> 0 <= Scanf.xvalue d < 16.
Proof.
  intros Hd. unfold Scanf.iswxdigit in Hd. unfold Scanf.xvalue.
  destruct (Z.leb_spec d 57); destruct (Z.leb_spec d 70); lia.
Qed.

(** [n] digits denote a value below [16 ^ n]. *)
Lemma hexvalue_bound (ds : list Z) :
  forall acc : Z,
    0 <= acc ->
    Forall (fun d => Scanf.iswxdigit d = true) ds ->
    16 ^ Z.of_nat (length ds) * acc
    <= fold_left (fun a c => 16 * a + Scanf.xvalue c) ds acc
    < 16 ^ Z.of_nat (length ds) * (acc + 1).
Proof.
  induction ds as [|d ds IH]; intros acc Hacc Hx.
  - cbn [length fold_left Z.of_nat]. change (16 ^ 0) with 1. lia.
  - inversion Hx as [|? ? Hd Hds]; subst.
    pose proof (xvalue_range d Hd) as Hr.
    cbn [fold_left]. specialize (IH (16 * acc + Scanf.xvalue d) ltac:(lia) Hds).
    rewrite length_cons, Nat2Z.inj_succ, Z.pow_succ_r by lia.
    assert (Hp : 0 < 16 ^ Z.of_nat (length ds)) by (apply Z.pow_pos_nonneg; lia).
    nia.
Qed.

Lemma hexvalue_below (ds : list Z) :
  Forall (fun d => Scanf.iswxdigit d = true) ds ->
  0 <= hexvalue ds < 16 ^ Z.of_nat (length ds).
Proof.
  intros Hx. pose proof (hexvalue_bound ds 0 ltac:(lia) Hx) as H.
  unfold hexvalue. lia.
Qed.

(** The field of a code point: its digits, at least two, pushed to
    the right of six columns; six digits from U+100000 on. *)
Lemma hexfield_codepoint_form (c : Z) :
  0 <= c <= 0x10FFFF ->
  exists ds : list Z,
    hexfield c = repeat 32 (6 - length ds) ++ ds /\
    (2 <= length ds <= 6)%nat /\
    Forall (fun d => Scanf.iswxdigit d = true) ds /\
    hexvalue ds = c /\
    (0x100000 <= c -> length ds = 6%nat) /\
    (c < 0x100000 -> (length ds < 6)%nat).
Proof.
  intros Hc. destruct (Z.lt_ge_cases c 256) as [Hlt|Hge].
  - exists [hexdigit (c / 16); hexdigit (c mod 16)].
    assert (Hq : 0 <= c / 16 < 16) by (split; [apply Z.div_pos | apply Z.div_lt_upper_bound]; lia).
    assert (Hm : 0 <= c mod 16 < 16) by (apply Z.mod_pos_bound; lia).
    split; [rewrite hexfield_byte by lia; reflexivity|].
    split; [cbn [length]; lia|].
    split; [repeat constructor; apply iswxdigit_hexdigit; assumption|].
    split; [|split; [lia | intros _; cbn [length]; lia]].
    unfold hexvalue. cbn [fold_left]. rewrite !xvalue_hexdigit by assumption.
    pose proof (Z.div_mod c 16 ltac:(lia)). lia.
  - exists (hexdigits c).
    pose proof (hexdigits_xdigit c) as Hx.
    pose proof (hexvalue_hexdigits c ltac:(lia)) as Hv.
    pose proof (hexvalue_below (hexdigits c) Hx) as Hb. rewrite Hv in Hb.
    pose proof (hexdigits_length_6 c ltac:(change (16 ^ 6) with 16777216; lia)) as H6.
    assert (H2 : (2 <= length (hexdigits c))%nat).
    { destruct (length (hexdigits c)) as [|[|n]]; [| |lia].
      - change (16 ^ Z.of_nat 0) with 1 in Hb. lia.
      - change (16 ^ Z.of_nat 1) with 16 in Hb. lia. }
    split.
    { rewrite hexfield_wide by (unfold rawbyte; lia). unfold fmt_X. cbv zeta.
      f_equal. f_equal. lia. }
    split; [lia|]. split; [exact Hx|]. split; [exact Hv|]. split.
    + intros Hbig. destruct (Nat.eq_dec (length (hexdigits c)) 6) as [E|E]; [exact E|].
      exfalso. assert (Hle : Z.of_nat (length (hexdigits c)) <= 5) by lia.
      assert (16 ^ Z.of_nat (length (hexdigits c)) <= 16 ^ 5)
        by (apply Z.pow_le_mono_r; lia).
      change (16 ^ 5) with 1048576 in *. lia.
    + intros Hsmall. destruct (Nat.eq_dec (length (hexdigits c)) 6) as [E|E]; [|lia].
      exfalso. unfold hexdigits, nibbles in E. rewrite length_map in E.
      unfold to_unsigned in E. rewrite Z.mod_small in E by lia.
      cbn [map] in E.
      assert (H7 : nibble c 7 = 0) by (rewrite nibble_div by lia; rewrite Z.div_small; [reflexivity|change (16 ^ 7) with 268435456; lia]).
      assert (H6' : nibble c 6 = 0) by (rewrite nibble_div by lia; rewrite Z.div_small; [reflexivity|change (16 ^ 6) with 16777216; lia]).
      assert (H5 : nibble c 5 = 0) by (rewrite nibble_div by lia; rewrite Z.div_small; [reflexivity|change (16 ^ 5) with 1048576; lia]).
      rewrite H7, H6', H5 in E.
      change (strip0 (0 :: 0 :: 0 :: ?l)) with (strip0 l) in E.
      pose proof (strip0_length [nibble c 4; nibble c 3; nibble c 2; nibble c 1; nibble c 0]) as Hl.
      cbn [length] in Hl. lia.
Qed.

(** The field of a raw byte. *)
Lemma hexfield_raw_form (b : Z) :
  0 <= b < 256 ->
  exists h l : Z,
    hexfield (Z.lor rawbyte b) = repeat 32 3 ++ 42 :: h :: l :: [] /\
    Scanf.iswxdigit h = true /\ Scanf.iswxdigit l = true /\
    hexvalue [h; l] = b.
Proof.
  intros Hb. exists (hexdigit (b / 16)), (hexdigit (b mod 16)).
  assert (Hq : 0 <= b / 16 < 16) by (split; [apply Z.div_pos | apply Z.div_lt_upper_bound]; lia).
  assert (Hm : 0 <= b mod 16 < 16) by (apply Z.mod_pos_bound; lia).
  split; [rewrite hexfield_raw by exact Hb; reflexivity|].
  split; [apply iswxdigit_hexdigit; exact Hq|].
  split; [apply iswxdigit_hexdigit; exact Hm|].
  unfold hexvalue. cbn [fold_left]. rewrite !xvalue_hexdigit by assumption.
  pose proof (Z.div_mod b 16 ltac:(lia)). lia.
Qed.

Lemma rawbyte_parts (b : Z) :
  0 <= b < 256 ->
  Z.lor rawbyte b = rawbyte + b /\
  (Z.land (Z.lor rawbyte b) rawbyte =? 0) = false /\
  Z.land (Z.lor rawbyte b) 0xFF = b.
Proof.
  intros Hb.
  assert (H : (Z.lor rawbyte b =? rawbyte + b)
              && negb (Z.land (Z.lor rawbyte b) rawbyte =? 0)
              && (Z.land (Z.lor rawbyte b) 0xFF =? b) = true).
  { apply (below_cases (fun b => (Z.lor rawbyte b =? rawbyte + b)
                                 && negb (Z.land (Z.lor rawbyte b) rawbyte =? 0)
                                 && (Z.land (Z.lor rawbyte b) 0xFF =? b)) 256);
      [vm_compute; reflexivity | exact Hb]. }
  apply andb_prop in H. destruct H as [H H3]. apply andb_prop in H. destruct H as [H1 H2].
  apply Z.eqb_eq in H1, H3. apply negb_true_iff in H2. auto.
Qed.

End FieldForm.

(** ** A rendered line read back *)

Section ReadBack.

Variable linesize : Z.
Variable wcwidth : Z -> Z.
Variable iswspace : Z -> bool.
Context {mbstate_t : Type}.
Variable wcrtomb : Z -> mbstate_t -> option (list Z) * mbstate_t.

Hypothesis space_is_space : iswspace 32 = true.
Hypothesis xdigit_no_space : forall c, Scanf.iswxdigit c = true -> iswspace c = false.
Hypothesis star_no_space : iswspace 42 = false.

Lemma advance_field (field rest : list Z) :
  length field = 6%nat -> advance (field ++ rest) = Some rest.
Proof.
  intros H. unfold advance. rewrite length_app, H. cbn [Nat.leb Nat.add].
  rewrite <- H. rewrite skipn_app, skipn_all, Nat.sub_diag. reflexivity.
Qed.

Lemma hexfield_head_space (c : Z) (rest : list Z) :
  unit_value c -> c < 0x100000 \/ rawbyte <= c ->
  no_xdigit_ahead (hexfield c ++ rest).
Proof.
  intros [c' Hc | b Hb] Hnarrow.
  - destruct (hexfield_codepoint_form c' Hc) as (ds & E & Hlen & _ & _ & _ & Hshort).
    assert (Hs : (length ds < 6)%nat) by (apply Hshort; unfold rawbyte in Hnarrow; lia).
    rewrite E. destruct (6 - length ds)%nat as [|j] eqn:Ej; [lia|]. reflexivity.
  - destruct (hexfield_raw_form b Hb) as (h & l & E & _). rewrite E. reflexivity.
Qed.

(** The loop over the fields of a rendered line writes its units;
    [extra] positions are left when the units are through, and
    [tail] is what follows the fields. *)
Lemma translatefields_fields (buf : list Z) :
  forall (extra : nat) (i : Z) (tail : list Z) (w : written mbstate_t),
    Forall unit_value buf -> separated buf ->
    no_xdigit_ahead tail ->
    extra = 0%nat \/ stops iswspace tail ->
    translatefields iswspace wcrtomb (length buf + extra) i
                    (Some (flat_map hexfield buf ++ tail)) w
    = bind (encode_units wcrtomb buf w) (fun w' => Ok (i + Z.of_nat (length buf), w')).
Proof.
  induction buf as [|c buf IH]; intros extra i tail w Hu Hsep Htail Hstop.
  - cbn [flat_map app length Nat.add encode_units bind Z.of_nat]. rewrite Z.add_0_r.
    destruct extra as [|extra]; [reflexivity|].
    destruct Hstop as [H0|Hstop]; [discriminate H0|].
    apply scan_stops in Hstop. destruct Hstop as [H6 H2].
    cbn [translatefields]. destruct w as [chunks mbs]. rewrite H6, H2. reflexivity.
  - inversion Hu as [|? ? Hc Hbuf]; subst.
    assert (Hnext : c < 0x100000 -> no_xdigit_ahead (flat_map hexfield buf ++ tail)).
    { intros Hsmall. destruct buf as [|c' buf']; [exact Htail|].
      cbn [flat_map]. rewrite <- app_assoc. apply hexfield_head_space.
      - inversion Hbuf; assumption.
      - apply Hsep. exact Hsmall. }
    assert (Hsep' : separated buf) by (destruct buf; [exact I | apply Hsep]).
    assert (Hidx : forall k : Z, i + 1 + k = i + (1 + k)) by (intros; lia).
    cbn [flat_map length Nat.add translatefields encode_units].
    rewrite <- app_assoc. destruct w as [chunks mbs].
    rewrite advance_field by (apply hexfield_length; exact Hc).
    rewrite Nat2Z.inj_succ, <- Z.add_1_l.
    inversion Hc as [c' Hcp | b Hb]; subst.
    + destruct (hexfield_codepoint_form c Hcp) as (ds & E & Hlen & Hx & Hv & Hbig & Hshort).
      rewrite E, <- app_assoc.
      rewrite (scan_6X_field iswspace space_is_space xdigit_no_space (6 - length ds) ds
                             (flat_map hexfield buf ++ tail) Hx Hlen);
        [| destruct (Z.lt_ge_cases c 0x100000); [right; apply Hnext; assumption | left; apply Hbig; assumption]
         | rewrite Hv; lia ].
      rewrite Hv. rewrite HexFacts.codepoint_unflagged by (unfold rawbyte; lia).
      cbn [Z.eqb].
      destruct (wcrtomb c mbs) as [[out|] mbs1].
      * rewrite IH by assumption. rewrite <- Hidx. reflexivity.
      * destruct (wcrtomb replacechar mbs1) as [[out|] mbs2]; [|reflexivity].
        rewrite IH by assumption. rewrite <- Hidx. reflexivity.
    + destruct (hexfield_raw_form b Hb) as (h & l & E & Hh & Hl & Hv).
      destruct (rawbyte_parts b Hb) as (_ & Hflag & Hlow).
      rewrite E, <- app_assoc. cbn [app].
      change (32 :: 32 :: 32 :: 42 :: h :: l :: flat_map hexfield buf ++ tail)
        with (repeat 32 3 ++ 42 :: h :: l :: (flat_map hexfield buf ++ tail)).
      rewrite (scan_6X_star iswspace space_is_space star_no_space).
      rewrite (scan_star_2X_field iswspace space_is_space xdigit_no_space star_no_space)
        by assumption.
      rewrite Hv, Hflag, Hlow.
      destruct (wcrtomb 0 mbs) as [[out|] mbs1]; [|reflexivity].
      rewrite IH by assumption. rewrite <- Hidx. reflexivity.
Qed.

Lemma skipaddress_app (l rest : list Z) :
  Forall (fun c => c <> 32) l -> skipaddress (l ++ 32 :: rest) = 32 :: rest.
Proof.
  induction 1 as [|c l Hc Hl IH]; [reflexivity|].
  cbn [app skipaddress]. destruct (Z.eqb_spec c 32); [contradiction | exact IH].
Qed.

Lemma address_no_space (pos : Z) : Forall (fun c => c <> 32) (Printf.fmt_X true 8 pos).
Proof.
  unfold Printf.fmt_X. cbv zeta. apply Forall_app. split.
  - apply Forall_forall. intros c Hin. apply repeat_spec in Hin. subst c. discriminate.
  - eapply Forall_impl; [|apply HexFacts.hexdigits_xdigit].
    intros c Hc ->. discriminate Hc.
Qed.

(** The parser on a line of the renderer.  When the line is full,
    or when its glyphs begin, after white space, with a character
    that is no hexadecimal digit, sign or asterisk, the units of the
    line are written and their number is returned. *)
Theorem translatedumpline_renderdumpline (buf : list Z) (pos : Z) (mbs : mbstate_t) :
  Forall unit_value buf -> separated buf ->
  Z.of_nat (length buf) <= linesize ->
  Z.of_nat (length buf) = linesize
  \/ stops iswspace (flat_map (glyph wcwidth) buf ++ [10]) ->
  translatedumpline linesize iswspace wcrtomb
                    (Some (renderdumpline linesize wcwidth buf pos)) mbs
  = bind (encode_units wcrtomb buf ([], mbs)) (fun w' => Ok (Z.of_nat (length buf), w')).
Proof.
  intros Hu Hsep Hk Hstop.
  unfold translatedumpline, renderdumpline.
  rewrite <- !app_assoc. change (wcs ": " ++ ?l) with (58 :: 32 :: l).
  change (Printf.fmt_X true 8 pos ++ 58 :: 32 :: ?l)
    with (Printf.fmt_X true 8 pos ++ [58] ++ 32 :: l).
  rewrite app_assoc.
  rewrite skipaddress_app
    by (apply Forall_app; split; [apply address_no_space | repeat constructor; discriminate]).
  set (k := length buf) in *.
  assert (Hpad : padding linesize (Z.of_nat k)
                 = repeat 32 (S (Z.to_nat (6 * (linesize - Z.of_nat k) + 4)))).
  { unfold padding, Printf.fmt_pad, spaces. f_equal. lia. }
  rewrite Hpad.
  replace (Z.to_nat linesize) with (k + (Z.to_nat linesize - k))%nat by lia.
  subst k.
  rewrite translatefields_fields; try assumption.
  - reflexivity.
  - reflexivity.
  - destruct Hstop as [Hfull | Hstop]; [left; lia | right].
    unfold stops in *. rewrite skipws_spaces by exact space_is_space. exact Hstop.
Qed.

End ReadBack.

(** The line of [Hi!] meets the condition, the line of [abc] does
    not. *)
Example stops_Hi : stops Utf8.iswspace (flat_map (glyph Utf8.wcwidth) (wcs "Hi!") ++ [10]).
Proof. unfold stops. cbn. repeat split; discriminate. Qed.

Example not_stops_abc :
  ~ stops Utf8.iswspace (flat_map (glyph Utf8.wcwidth) (wcs "abc") ++ [10]).
Proof. unfold stops. cbn. intros [H _]. discriminate H. Qed.

Lemma translatedumpline_renderdumpline_witness :
  translatedumpline 8 Utf8.iswspace Utf8.wcrtomb
                    (Some (renderdumpline 8 Utf8.wcwidth (wcs "Hi!") 0)) tt
  = Ok (3, ([[72]; [105]; [33]], tt)).
Proof.
  assert (Hu : Forall unit_value (wcs "Hi!")).
  { repeat (apply Forall_cons; [apply Codepoint; vm_compute; split; discriminate|]).
    apply Forall_nil. }
  assert (Hsep : separated (wcs "Hi!")).
  { cbn. repeat split; intros _; left; reflexivity. }
  assert (Hx : forall c, Scanf.iswxdigit c = true -> Utf8.iswspace c = false).
  { intros c Hc. unfold Scanf.iswxdigit in Hc. unfold Utf8.iswspace. lia. }
  rewrite (translatedumpline_renderdumpline 8 Utf8.wcwidth Utf8.iswspace Utf8.wcrtomb
             eq_refl Hx eq_refl (wcs "Hi!") 0 tt Hu Hsep
             ltac:(vm_compute; discriminate) (or_intror stops_Hi)).
  reflexivity.
Defined.

(** ** A dump read back by undump *)

Section LineText.

Variable linesize : Z.
Variable wcwidth : Z -> Z.

(** The glyphs shown as themselves are neither the newline nor the
    null character. *)
Hypothesis glyph_plain : forall c, wcwidth c = 1 \/ wcwidth c = 2 -> c <> 10 /\ c <> 0.

Lemma unit_value_nonneg (c : Z) : unit_value c -> 0 <= c.
Proof.
  intros [c' Hc | b Hb]; [lia|].
  destruct (rawbyte_parts b Hb) as (-> & _). unfold rawbyte. lia.
Qed.

Lemma glyph_if (c : Z) :
  glyph wcwidth c
  = if wcwidth c =? 2 then [c]
    else if wcwidth c =? 1 then [c; 32]
         else [if c <? 0x20 then ctlpics + c else replacechar; 32].
Proof.
  unfold glyph. destruct (wcwidth c) as [|p|p]; try reflexivity.
  destruct p as [p|p|]; try reflexivity; destruct p; reflexivity.
Qed.

Lemma glyph_inline (c : Z) : unit_value c -> Forall inline (glyph wcwidth c).
Proof.
  intros Hc. apply unit_value_nonneg in Hc. rewrite glyph_if.
  assert (Hsp : inline 32) by (split; discriminate).
  assert (Hpic : inline (if c <? 32 then ctlpics + c else replacechar)).
  { destruct (c <? 32); unfold inline, ctlpics, replacechar; lia. }
  pose proof (glyph_plain c) as Hp.
  destruct (Z.eqb_spec (wcwidth c) 2) as [E2|_].
  - constructor; [apply Hp; right; exact E2 | constructor].
  - destruct (Z.eqb_spec (wcwidth c) 1) as [E1|_].
    + constructor; [apply Hp; left; exact E1|]. constructor; [exact Hsp | constructor].
    + constructor; [exact Hpic|]. constructor; [exact Hsp | constructor].
Qed.

Lemma glyph_length (c : Z) : (length (glyph wcwidth c) <= 2)%nat.
Proof.
  rewrite glyph_if. destruct (wcwidth c =? 2); [cbn; lia|].
  destruct (wcwidth c =? 1); cbn; lia.
Qed.

Lemma glyphs_inline (buf : list Z) :
  Forall unit_value buf ->
  Forall inline (flat_map (glyph wcwidth) buf) /\
  (length (flat_map (glyph wcwidth) buf) <= 2 * length buf)%nat.
Proof.
  induction 1 as [|c buf Hc Hbuf [IH1 IH2]]; [split; [constructor | cbn; lia]|].
  cbn [flat_map]. split.
  - apply Forall_app. split; [apply glyph_inline; exact Hc | exact IH1].
  - rewrite length_app. pose proof (glyph_length c). cbn [length]. lia.
Qed.

Lemma xdigit_inline (c : Z) : Scanf.iswxdigit c = true -> inline c.
Proof. intros H. split; intros ->; discriminate H. Qed.

Lemma hexfield_inline (c : Z) : unit_value c -> Forall inline (hexfield c).
Proof.
  assert (Hsp : forall j, Forall inline (repeat 32 j)).
  { intros j. apply Forall_forall. intros x Hx. apply repeat_spec in Hx. subst x.
    split; discriminate. }
  intros [c' Hc | b Hb].
  - destruct (hexfield_codepoint_form c' Hc) as (ds & -> & _ & Hx & _).
    apply Forall_app. split; [apply Hsp|].
    eapply Forall_impl; [|exact Hx]. apply xdigit_inline.
  - destruct (hexfield_raw_form b Hb) as (h & l & -> & Hh & Hl & _).
    apply Forall_app. split; [apply Hsp|].
    constructor; [split; discriminate|].
    constructor; [apply xdigit_inline; exact Hh|].
    constructor; [apply xdigit_inline; exact Hl | constructor].
Qed.

Lemma address_inline (pos : Z) : Forall inline (Printf.fmt_X true 8 pos).
Proof.
  unfold Printf.fmt_X. cbv zeta. apply Forall_app. split.
  - apply Forall_forall. intros x Hx. apply repeat_spec in Hx. subst x. split; discriminate.
  - eapply Forall_impl; [|apply HexFacts.hexdigits_xdigit]. apply xdigit_inline.
Qed.

(** A rendered line is one line of text: no newline before its
    last character, no null character, and short enough for the
    buffer of [undump]. *)
Lemma renderdumpline_line (buf : list Z) (pos : Z) :
  Forall unit_value buf -> Z.of_nat (length buf) <= linesize ->
  exists body : list Z,
    renderdumpline linesize wcwidth buf pos = body ++ [10] /\
    Forall inline body /\
    Z.of_nat (length body) < linesize * 8 + 19.
Proof.
  intros Hu Hk.
  exists ((Printf.fmt_X true 8 pos ++ wcs ": ") ++ flat_map hexfield buf
          ++ padding linesize (Z.of_nat (length buf)) ++ flat_map (glyph wcwidth) buf).
  destruct (glyphs_inline buf Hu) as [Hg Hgl].
  split; [unfold renderdumpline; rewrite <- !app_assoc; reflexivity|].
  split.
  - apply Forall_app. split.
    + apply Forall_app. split; [apply address_inline|].
      repeat constructor; discriminate.
    + apply Forall_app. split.
      * clear - Hu. induction Hu as [|c buf Hc Hbuf IH]; [constructor|].
        cbn [flat_map]. apply Forall_app. split; [apply hexfield_inline; exact Hc | exact IH].
      * apply Forall_app. split; [|exact Hg].
        unfold padding, Printf.fmt_pad, spaces. apply Forall_forall. intros x Hx.
        apply repeat_spec in Hx. subst x. split; discriminate.
  - rewrite !length_app, HexFacts.address_length, fields_length by exact Hu.
    unfold padding, Printf.fmt_pad, spaces. rewrite repeat_length. cbn [length wcs]. lia.
Qed.

End LineText.

Section EncodeFacts.

Context {mbstate_t : Type}.
Variable wcrtomb : Z -> mbstate_t -> option (list Z) * mbstate_t.

(** The chunks written before do not matter to those written
    next. *)
Lemma encode_units_prefix (buf : list Z) :
  forall (before chunks : list (list Z)) (mbs : mbstate_t),
    encode_units wcrtomb buf (before ++ chunks, mbs)
    = bind (encode_units wcrtomb buf (chunks, mbs))
           (fun w => Ok (before ++ fst w, snd w)).
Proof.
  induction buf as [|c buf IH]; intros before chunks mbs; [reflexivity|].
  cbn [encode_units]. destruct (Z.land c rawbyte =? 0).
  - destruct (wcrtomb c mbs) as [[out|] mbs1].
    + rewrite <- app_assoc. apply IH.
    + destruct (wcrtomb replacechar mbs1) as [[out|] mbs2]; [|reflexivity].
      rewrite <- app_assoc. apply IH.
  - destruct (wcrtomb 0 mbs) as [[out|] mbs1]; [|reflexivity].
    rewrite <- app_assoc. apply IH.
Qed.

Lemma encode_units_app (a b : list Z) :
  forall w : written mbstate_t,
    encode_units wcrtomb (a ++ b) w
    = bind (encode_units wcrtomb a w) (encode_units wcrtomb b).
Proof.
  induction a as [|c a IH]; intros [chunks mbs]; [reflexivity|].
  cbn [app encode_units]. destruct (Z.land c rawbyte =? 0).
  - destruct (wcrtomb c mbs) as [[out|] mbs1]; [apply IH|].
    destruct (wcrtomb replacechar mbs1) as [[out|] mbs2]; [apply IH | reflexivity].
  - destruct (wcrtomb 0 mbs) as [[out|] mbs1]; [apply IH | reflexivity].
Qed.

End EncodeFacts.

Section LineInput.

Variable fopen : string -> option (list item).

Lemma fgetws_from_line (body : list Z) :
  forall (room : nat) (acc : list Z) (rest : list item),
    Forall inline body -> (length body < room)%nat ->
    fgetws_from room acc (map Wc (body ++ [10]) ++ rest)
    = (Some (acc ++ body ++ [10]), false, rest).
Proof.
  induction body as [|c body IH]; intros room acc rest Hin Hlen.
  - destruct room as [|room]; [cbn [length] in Hlen; lia|]. reflexivity.
  - inversion Hin as [|? ? [Hc _] Hbody]; subst.
    destruct room as [|room]; [cbn [length] in Hlen; lia|].
    cbn [app map fgetws_from]. destruct (Z.eqb_spec c 10); [contradiction|].
    cbn [length] in Hlen. rewrite IH by (try exact Hbody; lia).
    rewrite <- app_assoc. reflexivity.
Qed.

Lemma wcstring_inline (l tail : list Z) :
  Forall inline l -> wcstring (l ++ tail) = l ++ wcstring tail.
Proof.
  induction 1 as [|c l [_ Hc] Hl IH]; [reflexivity|].
  cbn [app wcstring]. destruct (Z.eqb_spec c 0); [contradiction|]. rewrite IH. reflexivity.
Qed.

Lemma nextwline_reading (len so m ec : Z) (body : list Z) (rest : list item) :
  Forall inline body -> Z.of_nat (length body) < len - 1 ->
  nextwline fopen len (reading so m (map Wc (body ++ [10]) ++ rest) ec)
  = (Some (body ++ [10]), reading so m rest ec).
Proof.
  intros Hin Hlen. unfold nextwline, reading.
  cbn [filenames length nextwline_loop inputinit currentfile negb unread stdin_unread].
  unfold fgetws. rewrite fgetws_from_line by (try assumption; lia).
  cbn [app]. rewrite wcstring_inline by exact Hin. reflexivity.
Qed.

Lemma nextwline_end (len so m ec : Z) :
  2 <= len ->
  nextwline fopen len (reading so m [] ec) = (None, mkstate so m [] None [] ec).
Proof.
  intros Hlen. unfold nextwline, reading.
  cbn [filenames length nextwline_loop inputinit currentfile negb unread stdin_unread].
  unfold fgetws. destruct (Z.to_nat (len - 1)) as [|room] eqn:E; [lia|].
  reflexivity.
Qed.

Lemma nextwline_initial (len so m ec : Z) (text : list item) :
  nextwline fopen len (mkstate so m ["-"%string] None text ec)
  = nextwline fopen len (reading so m text ec).
Proof. reflexivity. Qed.

End LineInput.

Section ReadDump.

Variable linesize : Z.
Variable wcwidth : Z -> Z.
Variable iswspace : Z -> bool.
Context {mbstate_t : Type}.
Variable wcrtomb : Z -> mbstate_t -> option (list Z) * mbstate_t.
Variable fopen : string -> option (list item).

Hypothesis space_is_space : iswspace 32 = true.
Hypothesis xdigit_no_space : forall c, Scanf.iswxdigit c = true -> iswspace c = false.
Hypothesis star_no_space : iswspace 42 = false.
Hypothesis glyph_plain : forall c, wcwidth c = 1 \/ wcwidth c = 2 -> c <> 10 /\ c <> 0.
Hypothesis linesize_positive : 0 < linesize.

Lemma undump_loop_text (calls : list call) :
  forall (fuel : nat) (so m ec : Z) (chunks : list (list Z)) (mbs : mbstate_t),
    Forall (fun c : call => readable linesize wcwidth iswspace (fst c)) calls ->
    Z.of_nat (length (units calls)) <= m ->
    (length calls < fuel)%nat ->
    undump_loop linesize iswspace wcrtomb fopen fuel (linesize * 8 + 20)
                (reading so m (map Wc (dumptext linesize wcwidth calls)) ec) (chunks, mbs)
    = Some (bind (encode_units wcrtomb (units calls) (chunks, mbs))
                 (fun w => Ok (mkstate so (m - Z.of_nat (length (units calls))) [] None [] ec,
                               w))).
Proof.
  induction calls as [|[buf pos] calls IH]; intros fuel so m ec chunks mbs Hr Hm Hfuel.
  - destruct fuel as [|fuel]; [cbn [length] in Hfuel; lia|].
    cbn [undump_loop dumptext flat_map map units concat length encode_units bind Z.of_nat].
    rewrite nextwline_end by lia. rewrite Z.sub_0_r. reflexivity.
  - destruct fuel as [|fuel]; [cbn [length] in Hfuel; lia|].
    inversion Hr as [|? ? Hbuf Hcalls]; subst. cbn [fst] in Hbuf.
    destruct Hbuf as (Hu & Hsep & Hk & Hstop).
    unfold units in *. cbn [map concat fst] in *. rewrite length_app in Hm.
    destruct (renderdumpline_line linesize wcwidth glyph_plain buf pos Hu ltac:(lia))
      as (body & Eline & Hin & Hlen).
    cbn [undump_loop dumptext flat_map fst snd]. fold (dumptext linesize wcwidth calls).
    rewrite map_app. rewrite Eline at 1.
    rewrite nextwline_reading by (try exact Hin; lia).
    cbn [maxinputlen reading].
    destruct (Z.gtb_spec m 0) as [_|]; [|lia].
    rewrite <- Eline.
    rewrite (translatedumpline_renderdumpline linesize wcwidth iswspace wcrtomb
               space_is_space xdigit_no_space star_no_space buf pos mbs Hu Hsep
               ltac:(lia) Hstop).
    rewrite encode_units_app.
    replace (encode_units wcrtomb buf (chunks, mbs))
      with (encode_units wcrtomb buf (chunks ++ [], mbs)) by (rewrite app_nil_r; reflexivity).
    rewrite encode_units_prefix, length_app.
    destruct (encode_units wcrtomb buf ([], mbs)) as [[chunks1 mbs1]|]; [|reflexivity].
    cbn [bind fst snd].
    change (set_maxinputlen (reading so m (map Wc (dumptext linesize wcwidth calls)) ec)
                            (m - Z.of_nat (length buf)))
      with (reading so (m - Z.of_nat (length buf)) (map Wc (dumptext linesize wcwidth calls)) ec).
    rewrite IH by (try exact Hcalls; cbn [length] in Hfuel; lia).
    replace (m - Z.of_nat (length buf) - Z.of_nat (length (concat (map fst calls))))
      with (m - Z.of_nat (length buf + length (concat (map fst calls)))) by lia.
    reflexivity.
Qed.

(** [undump] on the text of a dump, read from standard input: when
    every line is readable and the budget covers them, the units of
    the dump are written, then the shift state is reset. *)
Theorem undump_dumptext (calls : list call) (fuel : nat) (so m ec : Z) (mbs : mbstate_t) :
  Forall (fun c : call => readable linesize wcwidth iswspace (fst c)) calls ->
  Z.of_nat (length (units calls)) <= m ->
  (length calls < fuel)%nat ->
  undump linesize iswspace wcrtomb fopen fuel mbs
         (mkstate so m ["-"%string] None (map Wc (dumptext linesize wcwidth calls)) ec)
  = Some (bind (encode_units wcrtomb (units calls) ([], mbs))
               (fun w =>
                  match wcrtomb 0 (snd w) with
                  | (Some out, mbs') =>
                      Ok (mkstate so (m - Z.of_nat (length (units calls))) [] None [] ec,
                          (fst w ++ [removelast out], mbs'))
                  | (None, _) => Undefined
                  end)).
Proof.
  intros Hr Hm Hfuel. unfold undump.
  assert (E : undump_loop linesize iswspace wcrtomb fopen fuel (linesize * 8 + 20)
                          (mkstate so m ["-"%string] None (map Wc (dumptext linesize wcwidth calls)) ec)
                          ([], mbs)
              = undump_loop linesize iswspace wcrtomb fopen fuel (linesize * 8 + 20)
                            (reading so m (map Wc (dumptext linesize wcwidth calls)) ec) ([], mbs)).
  { destruct fuel as [|fuel]; [reflexivity|].
    cbn [undump_loop]. rewrite nextwline_initial. reflexivity. }
  rewrite E, undump_loop_text by assumption.
  destruct (encode_units wcrtomb (units calls) ([], mbs)) as [[chunks mbs1]|]; [|reflexivity].
  cbn [bind translatedumpline fst snd].
  destruct (wcrtomb 0 mbs1) as [[out|] mbs2]; reflexivity.
Qed.

End ReadDump.

(** X7. [chd | chd -r]: the calls of [renderdumpline] that [dump] makes
    cover the characters from the start offset up to the limit, and
    when each of these lines is readable [undump] writes these
    characters from the text, whatever budget covers them. *)
Theorem dump_undump (linesize : Z) (wcwidth : Z -> Z) (iswspace : Z -> bool)
        (mbstate_t : Type) (wcrtomb : Z -> mbstate_t -> option (list Z) * mbstate_t)
        (fopen : string -> option (list item)) (acceptbadchars : bool)
        (s : state) (cs : list Z) (fuel : nat) :
  iswspace 32 = true ->
  (forall c, Scanf.iswxdigit c = true -> iswspace c = false) ->
  iswspace 42 = false ->
  (forall c, wcwidth c = 1 \/ wcwidth c = 2 -> c <> 10 /\ c <> 0) ->
  0 < linesize -> 0 <= startoffset s -> 0 <= maxinputlen s ->
  yields fopen acceptbadchars s cs -> (length cs + 2 <= fuel)%nat ->
  let sent := firstn (Z.to_nat (maxinputlen s)) (skipn (Z.to_nat (startoffset s)) cs) in
  exists (calls : list call) (s' : state),
    dump linesize wcwidth fopen acceptbadchars fuel s
    = Some (dumptext linesize wcwidth calls, s') /\
    units calls = sent /\
    (Forall (fun c : call => readable linesize wcwidth iswspace (fst c)) calls ->
     forall (so m ec : Z) (mbs : mbstate_t),
       Z.of_nat (length sent) <= m ->
       undump linesize iswspace wcrtomb fopen fuel mbs
              (mkstate so m ["-"%string] None
                       (map Wc (dumptext linesize wcwidth calls)) ec)
       = Some (bind (encode_units wcrtomb sent ([], mbs))
                    (fun w =>
                       match wcrtomb 0 (snd w) with
                       | (Some out, mbs') =>
                           Ok (mkstate so (m - Z.of_nat (length sent)) [] None [] ec,
                               (fst w ++ [removelast out], mbs'))
                       | (None, _) => Undefined
                       end))).
Proof.
  intros Hsp Hx Hstar Hg Hw Hs Hm Hy Hfuel sent.
  destruct (dump_calls_spec linesize fopen acceptbadchars s cs fuel Hw Hs Hm Hy Hfuel)
    as (calls & s' & E & Hcat & Hwin).
  fold (units calls) in Hcat. fold sent in Hcat.
  exists calls, s'. unfold dump. rewrite E.
  split; [reflexivity|]. split; [exact Hcat|].
  intros Hr so m ec mbs Hbudget.
  assert (Hlines : (length calls <= length (units calls))%nat).
  { clear - Hr.
    induction Hr as [|[buf pos] calls (_ & _ & Hk & _) _ IH]; [cbn; lia|].
    unfold units in *. cbn [map concat fst length] in *. rewrite length_app. lia. }
  assert (Hsent : (length sent <= length cs)%nat).
  { unfold sent. rewrite length_firstn, length_skipn. lia. }
  rewrite <- Hcat in *.
  apply undump_dumptext; try assumption. lia.
Qed.

(** The conditions on the locale and on the lines are met by the
    line of [Hi!] in the UTF-8 locale. *)
Example undump_dumptext_Hi :
  undump 8 Utf8.iswspace Utf8.wcrtomb nofiles 5 tt
         (mkstate 0 INT_MAX ["-"%string] None
                  (map Wc (dumptext 8 Utf8.wcwidth [(wcs "Hi!", 0)])) 0)
  = Some (Ok (mkstate 0 (INT_MAX - 3) [] None [] 0, ([[72]; [105]; [33]; []], tt))).
Proof.
  assert (Hx : forall c, Scanf.iswxdigit c = true -> Utf8.iswspace c = false).
  { intros c Hc. unfold Scanf.iswxdigit in Hc. unfold Utf8.iswspace. lia. }
  assert (Hg : forall c, Utf8.wcwidth c = 1 \/ Utf8.wcwidth c = 2 -> c <> 10 /\ c <> 0).
  { intros c. unfold Utf8.wcwidth.
    destruct (Z.eqb_spec c 0); [intros [H|H]; discriminate H|].
    destruct ((32 <=? c) && (c <? 127)) eqn:E1; [lia|].
    destruct ((160 <=? c) && (c <? 256)) eqn:E2; [lia|].
    intros [H|H]; discriminate H. }
  assert (Hr : Forall (fun c : call => readable 8 Utf8.wcwidth Utf8.iswspace (fst c))
                      [(wcs "Hi!", 0)]).
  { constructor; [|constructor]. cbn [fst].
    split; [repeat (apply Forall_cons; [apply Codepoint; vm_compute; split; discriminate|]);
            apply Forall_nil|].
    split; [cbn; repeat split; intros _; left; reflexivity|].
    split; [vm_compute; split; [reflexivity | discriminate]|].
    right. exact stops_Hi. }
  rewrite (undump_dumptext 8 Utf8.wcwidth Utf8.iswspace Utf8.wcrtomb nofiles
             eq_refl Hx eq_refl Hg eq_refl [(wcs "Hi!", 0)] 5 0 INT_MAX 0 tt Hr
             ltac:(vm_compute; discriminate) ltac:(cbn; lia)).
  reflexivity.
Qed.

(** The condition [separated] is needed: before a field of six
    digits the field of [H] is read together with the first four of
    them. *)
Example scan_joined_fields :
  hexfield 0x48 ++ hexfield 0x100000 = wcs "    48100000" /\
  Scanf.scan_6X Utf8.iswspace (hexfield 0x48 ++ hexfield 0x100000) = Some 0x481000.
Proof. split; reflexivity. Qed.

(** * Further properties of the code *)

(** ** The dump parser *)

Section ParserFacts.

Variable linesize : Z.
Variable iswspace : Z -> bool.
Context {mbstate_t : Type}.
Variable wcrtomb : Z -> mbstate_t -> option (list Z) * mbstate_t.

(** X1. What [translatedumpline] returns for a line is the number of
    chunks it gave to [fwrite], one for each field it decoded, and
    lies between 0 and [linesize]. *)
Theorem translatedumpline_returns_written (line : list Z) (mbs mbs' : mbstate_t)
        (n : Z) (chunks : list (list Z)) :
  translatedumpline linesize iswspace wcrtomb (Some line) mbs = Ok (n, (chunks, mbs')) ->
  n = Z.of_nat (length chunks) /\ 0 <= n <= Z.max 0 linesize.
Proof. apply translatedumpline_count. Qed.

Lemma skipaddress_address (address rest : list Z) :
  ~ In 32 address -> skipaddress (address ++ 32 :: rest) = 32 :: rest.
Proof.
  intros H. apply skipaddress_app. apply Forall_forall. intros c Hin ->. exact (H Hin).
Qed.

(** X2. The address of a line is passed over, not read: two lines
    that differ only before their first space are translated to the
    same output. *)
Theorem address_not_interpreted (address address' rest : list Z) (mbs : mbstate_t) :
  ~ In 32 address -> ~ In 32 address' ->
  translatedumpline linesize iswspace wcrtomb (Some (address ++ 32 :: rest)) mbs
  = translatedumpline linesize iswspace wcrtomb (Some (address' ++ 32 :: rest)) mbs.
Proof.
  intros H H'. unfold translatedumpline.
  rewrite !skipaddress_address by assumption. reflexivity.
Qed.

(** The scan stays inside a string long enough for all the field
    positions. *)
Lemma translatefields_in_bounds (left : nat) :
  forall (i : Z) (p : list Z) (w : written mbstate_t),
    encoder_total wcrtomb ->
    (6 * (left - 1) <= length p)%nat ->
    translatefields iswspace wcrtomb left i (Some p) w <> Undefined.
Proof.
  induction left as [|left IH]; intros i p [chunks mbs] Henc Hlen; [discriminate|].
  assert (Hgo : forall (i' : Z) (w' : written mbstate_t),
             translatefields iswspace wcrtomb left i' (advance p) w' <> Undefined).
  { intros i' w'. destruct left as [|left']; [discriminate|].
    unfold advance. destruct (Nat.leb_spec 6 (length p)) as [H6|H6]; [|lia].
    apply IH; [exact Henc|]. rewrite length_skipn. lia. }
  cbn [translatefields].
  destruct (Scanf.scan_6X iswspace p) as [ch|].
  - destruct (wcrtomb ch mbs) as [[out|] mbs1]; [apply Hgo|].
    pose proof (proj1 (Henc mbs1)) as Hr.
    destruct (wcrtomb replacechar mbs1) as [[out|] mbs2]; [apply Hgo|].
    exfalso. apply Hr. reflexivity.
  - destruct (Scanf.scan_star_2X iswspace p) as [ch|]; [|discriminate].
    pose proof (proj2 (Henc mbs)) as Hz.
    destruct (wcrtomb 0 mbs) as [[out|] mbs1]; [apply Hgo|].
    exfalso. apply Hz. reflexivity.
Qed.

End ParserFacts.

(** X3. On a line written by [renderdumpline] the scan of
    [translatedumpline] never leaves the string, whatever the glyphs
    are: with an encoder that has a sequence for the replacement
    and the null character the call is defined. *)
Theorem translatedumpline_stays_in_line
        (linesize : Z) (wcwidth : Z -> Z) (iswspace : Z -> bool) (mbstate_t : Type)
        (wcrtomb : Z -> mbstate_t -> option (list Z) * mbstate_t)
        (buf : list Z) (pos : Z) (mbs : mbstate_t) :
  encoder_total wcrtomb ->
  Forall unit_value buf -> Z.of_nat (length buf) <= linesize ->
  translatedumpline linesize iswspace wcrtomb
                    (Some (renderdumpline linesize wcwidth buf pos)) mbs
  <> Undefined.
Proof.
  intros Henc Hu Hk. unfold translatedumpline, renderdumpline.
  rewrite <- !app_assoc. change (wcs ": " ++ ?l) with (58 :: 32 :: l).
  change (Printf.fmt_X true 8 pos ++ 58 :: 32 :: ?l)
    with (Printf.fmt_X true 8 pos ++ [58] ++ 32 :: l).
  rewrite app_assoc.
  rewrite skipaddress_app
    by (apply Forall_app; split; [apply address_no_space | repeat constructor; discriminate]).
  apply translatefields_in_bounds; [exact Henc|].
  rewrite !length_app, fields_length by exact Hu.
  unfold padding, Printf.fmt_pad, spaces. rewrite repeat_length. lia.
Qed.

Lemma utf8_encoder_total : encoder_total Utf8.wcrtomb.
Proof. intros mbs. split; discriminate. Qed.

Lemma translatedumpline_stays_in_line_witness :
  translatedumpline 8 Utf8.iswspace Utf8.wcrtomb (Some line_abc) tt <> Undefined.
Proof.
  assert (Hu : Forall unit_value (wcs "abc")).
  { repeat (apply Forall_cons; [apply Codepoint; vm_compute; split; discriminate|]).
    apply Forall_nil. }
  assert (Hk : Z.of_nat (length (wcs "abc")) <= 8) by (vm_compute; discriminate).
  exact (translatedumpline_stays_in_line 8 Utf8.wcwidth Utf8.iswspace Utf8.mbstate_t
           Utf8.wcrtomb (wcs "abc") 0 tt utf8_encoder_total Hu Hk).
Defined.

Lemma translatedumpline_returns_written_witness :
  8 = Z.of_nat (length [[97]; [98]; [99]; [10]; [10]; [10]; [10]; [10]]) /\ 0 <= 8 <= Z.max 0 8.
Proof.
  exact (translatedumpline_returns_written 8 Utf8.iswspace Utf8.wcrtomb line_abc tt tt 8
           [[97]; [98]; [99]; [10]; [10]; [10]; [10]; [10]] eq_refl).
Defined.

Lemma address_not_interpreted_witness :
  translatedumpline 8 Utf8.iswspace Utf8.wcrtomb (Some (wcs "00000000:" ++ 32 :: wcs "    48")) tt
  = translatedumpline 8 Utf8.iswspace Utf8.wcrtomb (Some (wcs "x" ++ 32 :: wcs "    48")) tt.
Proof.
  assert (H : ~ In 32 (wcs "00000000:")).
  { intros H. repeat (destruct H as [H | H]; [discriminate H|]). exact H. }
  assert (H' : ~ In 32 (wcs "x")).
  { intros H0. repeat (destruct H0 as [H0 | H0]; [discriminate H0|]). exact H0. }
  exact (address_not_interpreted 8 Utf8.iswspace Utf8.wcrtomb (wcs "00000000:") (wcs "x")
           (wcs "    48") tt H H').
Defined.

(** X4. [translatedumpline] undoes [renderdumpline]: a line of
    character units that is full, or whose glyphs begin after white
    space with no hexadecimal digit, sign or asterisk, and in which
    no field of fewer than six digits stands before one of six, is
    translated to these units, code points through [wcrtomb] and
    raw bytes verbatim, and their number is returned. *)
Theorem parser_inverts_renderer
        (linesize : Z) (wcwidth : Z -> Z) (iswspace : Z -> bool) (mbstate_t : Type)
        (wcrtomb : Z -> mbstate_t -> option (list Z) * mbstate_t)
        (buf : list Z) (pos : Z) (mbs : mbstate_t) :
  iswspace 32 = true ->
  (forall c, Scanf.iswxdigit c = true -> iswspace c = false) ->
  iswspace 42 = false ->
  readable linesize wcwidth iswspace buf ->
  translatedumpline linesize iswspace wcrtomb
                    (Some (renderdumpline linesize wcwidth buf pos)) mbs
  = bind (encode_units wcrtomb buf ([], mbs)) (fun w' => Ok (Z.of_nat (length buf), w')).
Proof.
  intros Hsp Hx Hstar (Hu & Hsep & Hk & Hstop).
  apply translatedumpline_renderdumpline; try assumption. lia.
Qed.

Lemma utf8_xdigit_no_space (c : Z) : Scanf.iswxdigit c = true -> Utf8.iswspace c = false.
Proof. intros Hc. unfold Scanf.iswxdigit in Hc. unfold Utf8.iswspace. lia. Qed.

Lemma readable_Hi : readable 8 Utf8.wcwidth Utf8.iswspace (wcs "Hi!").
Proof.
  split; [repeat (apply Forall_cons; [apply Codepoint; vm_compute; split; discriminate|]);
          apply Forall_nil|].
  split; [cbn; repeat split; intros _; left; reflexivity|].
  split; [vm_compute; split; [reflexivity | discriminate]|].
  right. exact stops_Hi.
Qed.

Lemma parser_inverts_renderer_witness :
  translatedumpline 8 Utf8.iswspace Utf8.wcrtomb
                    (Some (renderdumpline 8 Utf8.wcwidth (wcs "Hi!") 0)) tt
  = Ok (3, ([[72]; [105]; [33]], tt)).
Proof.
  exact (parser_inverts_renderer 8 Utf8.wcwidth Utf8.iswspace Utf8.mbstate_t Utf8.wcrtomb
           (wcs "Hi!") 0 tt eq_refl utf8_xdigit_no_space eq_refl readable_Hi).
Defined.

(** ** The renderer *)

Lemma hexvalue_zeros (k : nat) (ds : list Z) : hexvalue (repeat 48 k ++ ds) = hexvalue ds.
Proof.
  unfold hexvalue. induction k as [|k IH]; [reflexivity|]. exact IH.
Qed.

Lemma hexdigits_unsigned (v : Z) : Printf.hexdigits (v mod 2 ^ 32) = Printf.hexdigits v.
Proof.
  unfold Printf.hexdigits, Printf.nibbles, Printf.to_unsigned.
  rewrite Z.mod_mod by lia. reflexivity.
Qed.

(** X5. Every line begins with its address in exactly eight
    hexadecimal digits, a colon and a space; the digits denote the
    position, taken as a 32-bit unsigned number. *)
Theorem address_field (linesize : Z) (wcwidth : Z -> Z) (buf : list Z) (pos : Z) :
  firstn 10 (renderdumpline linesize wcwidth buf pos) = Printf.fmt_X true 8 pos ++ wcs ": " /\
  length (Printf.fmt_X true 8 pos) = 8%nat /\
  Forall (fun d => Scanf.iswxdigit d = true) (Printf.fmt_X true 8 pos) /\
  hexvalue (Printf.fmt_X true 8 pos) = pos mod 2 ^ 32.
Proof.
  pose proof (HexFacts.address_length pos) as Hlen.
  split.
  - unfold renderdumpline.
    rewrite firstn_app, firstn_all2 by (rewrite length_app, Hlen; cbn; lia).
    rewrite length_app, Hlen. cbn [length wcs Nat.add Nat.sub firstn]. apply app_nil_r.
  - split; [exact Hlen|]. split.
    + unfold Printf.fmt_X. cbv zeta. apply Forall_app. split.
      * apply Forall_forall. intros x Hx. apply repeat_spec in Hx. subst x. reflexivity.
      * apply HexFacts.hexdigits_xdigit.
    + unfold Printf.fmt_X. cbv zeta. rewrite hexvalue_zeros.
      rewrite <- hexdigits_unsigned. apply HexFacts.hexvalue_hexdigits.
      apply Z.mod_pos_bound. lia.
Qed.

(** X6. [undump] reads back a line of [dump] in one piece: the line
    has one newline, at its end, and no null character, and it is
    shorter than the buffer of [linesize * 8 + 20] characters, so
    that [nextwline] returns it whole and leaves what follows. *)
Theorem dump_line_read_whole
        (linesize : Z) (wcwidth : Z -> Z) (fopen : string -> option (list item))
        (buf : list Z) (pos so m ec : Z) (rest : list item) :
  (forall c, wcwidth c = 1 \/ wcwidth c = 2 -> c <> 10 /\ c <> 0) ->
  Forall unit_value buf -> Z.of_nat (length buf) <= linesize ->
  nextwline fopen (linesize * 8 + 20)
            (reading so m (map Wc (renderdumpline linesize wcwidth buf pos) ++ rest) ec)
  = (Some (renderdumpline linesize wcwidth buf pos), reading so m rest ec).
Proof.
  intros Hg Hu Hk.
  destruct (renderdumpline_line linesize wcwidth Hg buf pos Hu Hk) as (body & E & Hin & Hlen).
  rewrite E. apply nextwline_reading; [exact Hin | lia].
Qed.

Lemma utf8_glyph_plain (c : Z) :
  Utf8.wcwidth c = 1 \/ Utf8.wcwidth c = 2 -> c <> 10 /\ c <> 0.
Proof.
  unfold Utf8.wcwidth.
  destruct (Z.eqb_spec c 0); [intros [H|H]; discriminate H|].
  destruct ((32 <=? c) && (c <? 127)) eqn:E1; [lia|].
  destruct ((160 <=? c) && (c <? 256)) eqn:E2; [lia|].
  intros [H|H]; discriminate H.
Qed.

Lemma dump_line_read_whole_witness :
  nextwline nofiles (8 * 8 + 20) (reading 0 5 (map Wc line_abc ++ [Wc 120]) 0)
  = (Some line_abc, reading 0 5 [Wc 120] 0).
Proof.
  assert (Hu : Forall unit_value (wcs "abc")).
  { repeat (apply Forall_cons; [apply Codepoint; vm_compute; split; discriminate|]).
    apply Forall_nil. }
  assert (Hk : Z.of_nat (length (wcs "abc")) <= 8) by (vm_compute; discriminate).
  exact (dump_line_read_whole 8 Utf8.wcwidth nofiles (wcs "abc") 0 0 5 0 [Wc 120]
           utf8_glyph_plain Hu Hk).
Defined.

(** ** The dump driver *)

Section DumpBounds.

Variable linesize : Z.
Variable fopen : string -> option (list item).
Variable acceptbadchars : bool.

Lemma dump_loop_rest (fuel : nat) :
  forall (cs : list Z) (s : state) (pos ch : Z),
    0 < linesize -> yields fopen acceptbadchars s cs -> 0 <= maxinputlen s -> ch <> WEOF ->
    (Z.to_nat (maxinputlen s) <= length cs)%nat ->
    (length cs + 2 <= fuel)%nat ->
    exists calls s',
      dump_loop linesize fopen acceptbadchars fuel pos ch s = Some (calls, s') /\
      yields fopen acceptbadchars s' (skipn (Z.to_nat (maxinputlen s)) cs) /\
      maxinputlen s' = 0.
Proof.
  induction fuel as [|fuel IH]; intros cs s pos ch Hw Hy Hm Hch Hlen Hfuel; [lia|].
  cbn [dump_loop]. destruct (Z.eqb_spec ch WEOF) as [|_]; [contradiction|].
  destruct (Z.gtb_spec (maxinputlen s) 0) as [Hpos|Hzero]; cbn [negb andb].
  - destruct (dump_fill_spec fopen acceptbadchars (Z.to_nat linesize) cs s [] ch Hy Hm)
      as [F1 _].
    cbv zeta in F1.
    set (k := Nat.min (Z.to_nat linesize) (Z.to_nat (maxinputlen s))) in *.
    assert (Hk : (0 < k)%nat) by (unfold k; lia).
    destruct (F1 ltac:(unfold k; lia)) as (ch' & s1 & E & Hy1 & Em & Hch1 & _).
    rewrite E.
    destruct (IH (skipn k cs) s1 (pos + Z.of_nat (length ([] ++ firstn k cs))) ch' Hw Hy1
                 ltac:(unfold k in *; lia) (Hch1 Hk))
      as (calls & s' & E' & Hy' & Em').
    { rewrite length_skipn, Em. unfold k. lia. }
    { rewrite length_skipn. lia. }
    rewrite E'. eexists. exists s'. split; [reflexivity|]. split; [|exact Em'].
    rewrite skipn_skipn, Em in Hy'.
    replace (Z.to_nat (maxinputlen s)) with (Z.to_nat (maxinputlen s - Z.of_nat k) + k)%nat
      by (unfold k; lia).
    exact Hy'.
  - exists [], s. replace (maxinputlen s) with 0 by lia.
    split; [reflexivity|]. split; [exact Hy | reflexivity].
Qed.

Lemma dump_fill_length (left : nat) :
  forall (line : list Z) (ch : Z) (s : state),
    (length (fst (fst (dump_fill fopen acceptbadchars left line ch s)))
     <= length line + left)%nat.
Proof.
  induction left as [|left IH]; intros line ch s; [cbn [dump_fill fst]; lia|].
  cbn [dump_fill]. destruct (maxinputlen s >? 0); [|cbn [fst]; lia].
  destruct (nextwchar fopen acceptbadchars s) as [ch' s1].
  destruct (ch' =? WEOF); [cbn [fst]; lia|].
  etransitivity; [apply IH|]. rewrite length_app. cbn [length]. lia.
Qed.

Lemma dump_loop_lengths (fuel : nat) :
  forall (pos ch : Z) (s s' : state) (calls : list call),
    dump_loop linesize fopen acceptbadchars fuel pos ch s = Some (calls, s') ->
    Forall (fun c : call => (0 < length (fst c) <= Z.to_nat linesize)%nat) calls.
Proof.
  induction fuel as [|fuel IH]; intros pos ch s s' calls H; [discriminate|].
  cbn [dump_loop] in H.
  destruct (negb (ch =? WEOF) && (maxinputlen s >? 0)).
  - pose proof (dump_fill_length (Z.to_nat linesize) [] ch s) as Hl.
    destruct (dump_fill fopen acceptbadchars (Z.to_nat linesize) [] ch s) as [[line ch'] s1].
    cbn [fst length] in Hl.
    destruct (dump_loop linesize fopen acceptbadchars fuel (pos + Z.of_nat (length line)) ch' s1)
      as [[calls' s'']|] eqn:E; [|discriminate].
    apply IH in E. injection H as <- <-.
    destruct (Z.eqb_spec (Z.of_nat (length line)) 0) as [|Hn]; [exact E|].
    constructor; [cbn [fst]; lia | exact E].
  - injection H as <- <-. constructor.
Qed.

End DumpBounds.

(** X10. [dump] stops reading when its limit is reached: on an
    input that has at least [startoffset + maxinputlen] characters
    it ends with the limit used up and all the later characters
    still to be read. *)
Theorem dump_leaves_rest (linesize : Z) (fopen : string -> option (list item))
        (acceptbadchars : bool) (s : state) (cs : list Z) (fuel : nat) :
  0 < linesize -> 0 <= startoffset s -> 0 <= maxinputlen s ->
  yields fopen acceptbadchars s cs ->
  startoffset s + maxinputlen s <= Z.of_nat (length cs) ->
  (length cs + 2 <= fuel)%nat ->
  exists (calls : list call) (s' : state),
    dump_calls linesize fopen acceptbadchars fuel s = Some (calls, s') /\
    yields fopen acceptbadchars s' (skipn (Z.to_nat (startoffset s + maxinputlen s)) cs) /\
    maxinputlen s' = 0.
Proof.
  intros Hw Hs Hm Hy Hlen Hfuel. unfold dump_calls.
  destruct (dump_skip_spec fopen acceptbadchars (Z.to_nat (startoffset s)) cs s 0 0 Hy
                           ltac:(discriminate) ltac:(f_equal; lia)) as [K1 _].
  destruct (K1 ltac:(lia)) as (ch' & s1 & E & Hch' & Hy1 & Em). rewrite E.
  destruct (dump_loop_rest linesize fopen acceptbadchars fuel
                           (skipn (Z.to_nat (startoffset s)) cs) s1
                           (0 + Z.of_nat (Z.to_nat (startoffset s))) ch' Hw Hy1
                           ltac:(lia) Hch')
    as (calls & s' & E' & Hy' & Em').
  { rewrite length_skipn. lia. }
  { rewrite length_skipn. lia. }
  exists calls, s'. split; [exact E'|]. split; [|exact Em'].
  rewrite skipn_skipn, Em in Hy'.
  replace (Z.to_nat (startoffset s + maxinputlen s))
    with (Z.to_nat (maxinputlen s) + Z.to_nat (startoffset s))%nat by lia.
  exact Hy'.
Qed.

Lemma dump_leaves_rest_witness :
  exists (calls : list call) (s' : state),
    dump_calls 2 nofiles false 7 (initial (mksettings 1 3 2 false true) (Utf8.items (wcs "abcde")))
    = Some (calls, s') /\
    yields nofiles false s' (wcs "e") /\
    maxinputlen s' = 0.
Proof.
  pose (s := initial (mksettings 1 3 2 false true) (Utf8.items (wcs "abcde"))).
  assert (Hy : yields nofiles false s (wcs "abcde")).
  { repeat (eapply yields_char; [vm_compute; reflexivity | discriminate |]).
    eapply yields_end. vm_compute. reflexivity. }
  assert (Hw : 0 < 2) by lia.
  assert (Hs : 0 <= startoffset s) by (vm_compute; discriminate).
  assert (Hm : 0 <= maxinputlen s) by (vm_compute; discriminate).
  assert (Hl : startoffset s + maxinputlen s <= Z.of_nat (length (wcs "abcde")))
    by (vm_compute; discriminate).
  assert (Hf : (length (wcs "abcde") + 2 <= 7)%nat) by (vm_compute; lia).
  exact (dump_leaves_rest 2 nofiles false s (wcs "abcde") 7 Hw Hs Hm Hy Hl Hf).
Defined.

(** ** Settings and the line buffer *)

Lemma getn_range (erange0 : bool) (str : option string) (name : string) (maxval n : Z) :
  getn erange0 str name maxval = inr n ->
  0 <= n <= INT_MAX /\ (maxval <> 0 -> n <= maxval).
Proof. apply getn_accepted. Qed.

Lemma parseoptions_bounds (opts : list option_seen) :
  forall cfg cfg' : settings,
    within_bounds cfg -> parseoptions opts cfg = inr cfg' -> within_bounds cfg'.
Proof.
  induction opts as [|[ch optarg] opts IH]; intros cfg cfg' Hb H.
  - cbn [parseoptions] in H. injection H as <-. exact Hb.
  - destruct Hb as (Hs & Hm & Hl). cbn [parseoptions] in H.
    destruct (Ascii.eqb ch "l").
    { destruct (getn false optarg "limit" 0) as [e|n] eqn:E; [discriminate|].
      apply getn_range in E. apply IH in H; [exact H|].
      unfold within_bounds. cbn. lia. }
    destruct (Ascii.eqb ch "s").
    { destruct (getn false optarg "start" 0) as [e|n] eqn:E; [discriminate|].
      apply getn_range in E. apply IH in H; [exact H|].
      unfold within_bounds. cbn. lia. }
    destruct (Ascii.eqb ch "c").
    { destruct (getn false optarg "count" 255) as [e|n] eqn:E; [discriminate|].
      apply getn_range in E. apply IH in H; [exact H|].
      unfold within_bounds. cbn. lia. }
    destruct (Ascii.eqb ch "i").
    { apply IH in H; [exact H|]. unfold within_bounds. cbn. lia. }
    destruct (Ascii.eqb ch "r").
    { apply IH in H; [exact H|]. unfold within_bounds. cbn. lia. }
    destruct (Ascii.eqb ch "h" || Ascii.eqb ch "v"); discriminate.
Qed.

Lemma defaults_within_bounds : within_bounds defaults.
Proof. unfold within_bounds, defaults, INT_MAX. cbn. lia. Qed.

(** X11. Whatever options are given, the settings
    [parsecommandline] accepts hold a start offset and a limit
    between 0 and [INT_MAX] and a line size between 0 and 255. *)
Theorem parsecommandline_bounds (opts : list option_seen) (cfg : settings) :
  parsecommandline opts = inr cfg -> within_bounds cfg.
Proof.
  intros H. exact (parseoptions_bounds opts defaults cfg defaults_within_bounds H).
Qed.

Lemma parsecommandline_bounds_witness :
  within_bounds (mksettings 0 INT_MAX 255 false false).
Proof.
  exact (parsecommandline_bounds [("c"%char, Some "0xff"%string); ("r"%char, None)]
           (mksettings 0 INT_MAX 255 false false) eq_refl).
Defined.

(** X12. The buffer [line] of [dump], of 256 characters, is never
    overrun: with the settings [parsecommandline] accepts every call
    of [renderdumpline] gets between 1 and 255 characters. *)
Theorem line_buffer_suffices
        (opts : list option_seen) (cfg : settings) (fopen : string -> option (list item))
        (fuel : nat) (s s' : state) (calls : list call) :
  parsecommandline opts = inr cfg ->
  dump_calls (opt_linesize cfg) fopen (opt_acceptbadchars cfg) fuel s = Some (calls, s') ->
  Forall (fun c : call => (0 < length (fst c) <= 255)%nat) calls.
Proof.
  intros Hp Hd. apply (parseoptions_bounds opts defaults cfg defaults_within_bounds) in Hp.
  destruct Hp as (_ & _ & Hl). unfold dump_calls in Hd.
  destruct (dump_skip fopen (opt_acceptbadchars cfg) (Z.to_nat (startoffset s)) 0 0 s)
    as [[pos ch] s1].
  apply dump_loop_lengths in Hd.
  eapply Forall_impl; [|exact Hd]. cbv beta. intros c Hc. lia.
Qed.

Lemma line_buffer_suffices_witness :
  Forall (fun c : call => (0 < length (fst c) <= 255)%nat) [(wcs "ab", 0); (wcs "c", 2)].
Proof.
  exact (line_buffer_suffices [("c"%char, Some "2"%string)] (mksettings 0 INT_MAX 2 false true)
           nofiles 5
           (initial (mksettings 0 INT_MAX 2 false true) (Utf8.items (wcs "abc")))
           (mkstate 0 (INT_MAX - 3) [] None [] 0)
           [(wcs "ab", 0); (wcs "c", 2)] eq_refl eq_refl).
Defined.

(** ** The two drivers run to their end *)

Lemma dump_ends_witness :
  dump_calls 2 nofiles false 7 (initial (mksettings 1 3 2 false true) (Utf8.items (wcs "abcde")))
  <> None.
Proof.
  pose (s := initial (mksettings 1 3 2 false true) (Utf8.items (wcs "abcde"))).
  assert (Hw : 0 < 2) by lia.
  assert (Hs : 0 <= startoffset s) by (vm_compute; discriminate).
  assert (Hm : 0 <= maxinputlen s) by (vm_compute; discriminate).
  assert (Hf : (pending nofiles s + 2 <= 7)%nat) by (vm_compute; lia).
  exact (dump_ends 2 nofiles false s 7 Hw Hs Hm Hf).
Defined.

Lemma undump_ends_witness :
  undump 8 Utf8.iswspace Utf8.wcrtomb nofiles 100 tt (initial defaults (map Wc line_abc))
  <> None.
Proof.
  assert (Hw : 0 <= 8) by lia.
  assert (Hf : (pending nofiles (initial defaults (map Wc line_abc)) < 100)%nat)
    by (vm_compute; lia).
  exact (undump_ends 8 Utf8.iswspace Utf8.wcrtomb nofiles 100 tt
                     (initial defaults (map Wc line_abc)) Hw Hf).
Defined.

Lemma dump_undump_witness :
  exists (calls : list call) (s' : state),
    dump 8 Utf8.wcwidth nofiles false 5
         (initial (mksettings 0 10 8 false true) (Utf8.items (wcs "Hi!")))
    = Some (dumptext 8 Utf8.wcwidth calls, s') /\
    units calls = wcs "Hi!".
Proof.
  pose (s := initial (mksettings 0 10 8 false true) (Utf8.items (wcs "Hi!"))).
  assert (Hy : yields nofiles false s (wcs "Hi!")).
  { repeat (eapply yields_char; [vm_compute; reflexivity | discriminate |]).
    eapply yields_end. vm_compute. reflexivity. }
  assert (Hw : 0 < 8) by lia.
  assert (Hs : 0 <= startoffset s) by (vm_compute; discriminate).
  assert (Hm : 0 <= maxinputlen s) by (vm_compute; discriminate).
  assert (Hf : (length (wcs "Hi!") + 2 <= 5)%nat) by (vm_compute; lia).
  destruct (dump_undump 8 Utf8.wcwidth Utf8.iswspace Utf8.mbstate_t Utf8.wcrtomb nofiles false
                        s (wcs "Hi!") 5 eq_refl utf8_xdigit_no_space eq_refl utf8_glyph_plain
                        Hw Hs Hm Hy Hf)
    as (calls & s' & Ed & Hu & _).
  exists calls, s'. split; [exact Ed | exact Hu].
Defined.

(** ** The reader over several files *)

Section StreamFacts.

Variable fopen : string -> option (list item).
Variable acceptbadchars : bool.

Local Abbreviation next := (nextwchar fopen acceptbadchars).

(** The equation of the loop of [nextwchar]. *)
Lemma nextwchar_step (s : state) :
  nextwchar fopen acceptbadchars s
  = let (ok, s1) := inputinit fopen s in
    if negb ok then (WEOF, s1)
    else match currentfile s1 with
         | None => (WEOF, s1)
         | Some f =>
             match unread s1 f with
             | Wc ch :: l =>
                 if negb (ch =? WEOF) then (ch, set_unread s1 f l)
                 else nextwchar fopen acceptbadchars (inputupdate false (set_unread s1 f l))
             | Bad b :: l =>
                 if acceptbadchars then (Z.lor rawbyte b, set_unread s1 f l)
                 else nextwchar fopen acceptbadchars (inputupdate true s1)
             | [] => nextwchar fopen acceptbadchars (inputupdate false s1)
             end
         end.
Proof.
  unfold nextwchar at 1. cbn [nextwchar_loop].
  pose proof (inputinit_names fopen s) as Hle.
  destruct (inputinit fopen s) as [ok s1]. cbn [snd] in Hle.
  destruct ok; [|reflexivity]. cbn [negb].
  destruct (currentfile s1) as [f|]; [|reflexivity].
  assert (Hgo : forall (err : bool) (s2 : state),
             (length (filenames s2) <= length (filenames s))%nat ->
             nextwchar_loop fopen acceptbadchars (length (filenames s)) (inputupdate err s2)
             = nextwchar fopen acceptbadchars (inputupdate err s2)).
  { intros err s2 Hle2. destruct (inputupdate_closed err s2) as [Hc Hf].
    destruct (filenames s2) as [|name rest] eqn:E.
    - unfold nextwchar. rewrite !nextwchar_loop_closed by (try exact Hc; rewrite Hf; reflexivity).
      reflexivity.
    - apply nextwchar_turns. rewrite Hf. cbn [tl length] in *. lia. }
  destruct (unread s1 f) as [|[ch|b] l].
  - apply Hgo. exact Hle.
  - destruct (negb (ch =? WEOF)); [reflexivity|].
    apply Hgo. rewrite set_unread_names. exact Hle.
  - destruct acceptbadchars; [reflexivity|]. apply Hgo. exact Hle.
Qed.

Lemma reads_same (s s2 e : state) (cs : list Z) :
  nextwchar fopen acceptbadchars s = nextwchar fopen acceptbadchars s2 -> reads fopen acceptbadchars s cs e -> reads fopen acceptbadchars s2 cs e.
Proof.
  intros E H. inversion H as [s0 s' H0 | s0 s' s'' c cs' H0 Hc Hr]; subst.
  - eapply reads_end. rewrite <- E. exact H0.
  - eapply reads_char; [rewrite <- E; exact H0 | exact Hc | exact Hr].
Qed.

Lemma reads_yields (s e : state) (cs : list Z) :
  reads fopen acceptbadchars s cs e -> yields fopen acceptbadchars s cs.
Proof.
  induction 1 as [s s' H | s s' s'' c cs H Hc Hr IH].
  - eapply yields_end. exact H.
  - eapply yields_char; eassumption.
Qed.

(** What [inputinit] finds does not depend on the names and the
    file the state held. *)
Lemma inputinit_next_fresh (names names' : list string) (f : option FILE) (s : state) :
  inputinit_next fopen names (set_input s names' f) = inputinit_next fopen names s.
Proof.
  destruct names as [|name rest]; [reflexivity|].
  cbn [inputinit_next]. destruct (String.eqb name "-"); [reflexivity|].
  destruct (fopen name); reflexivity.
Qed.

End StreamFacts.

Lemma flagged_not_weof (b : Z) : 0 <= b < 256 -> Z.lor rawbyte b <> WEOF.
Proof.
  intros Hb. destruct (rawbyte_parts b Hb) as (-> & _). unfold rawbyte, WEOF. lia.
Qed.

Lemma inputupdate_fields (err : bool) (s : state) :
  stdin_unread (inputupdate err s)
  = match currentfile s, err with
    | Some Stdin, true => []
    | _, _ => stdin_unread s
    end /\
  exitcode (inputupdate err s) = (if err then EXIT_FAILURE else exitcode s) /\
  startoffset (inputupdate err s) = startoffset s /\
  maxinputlen (inputupdate err s) = maxinputlen s.
Proof.
  destruct s as [so m names cur unr ec]. unfold inputupdate.
  destruct err, cur as [[|l]|]; cbn; repeat split; reflexivity.
Qed.

Lemma reads_named (fopen : string -> option (list item)) (acceptbadchars : bool)
      (name : string) (rest : list string) :
  read_through fopen acceptbadchars rest ->
  forall (l : list item) (s : state),
    currentfile s = Some (Named l) -> filenames s = name :: rest ->
    Forall wellformed l -> Forall wellformed (stdin_unread s) ->
    exists e : state,
      reads fopen acceptbadchars s
            (file_chars acceptbadchars l
             ++ stream_of fopen acceptbadchars rest (stdin_unread s)) e /\
      filenames e = [] /\ currentfile e = None /\
      exitcode e = if file_trouble acceptbadchars l
                      || trouble fopen acceptbadchars rest (stdin_unread s)
                   then EXIT_FAILURE else exitcode s.
Proof.
  intros IHrest. induction l as [|i l IH]; intros s Hc Hn Hl Hin.
  - assert (E : nextwchar fopen acceptbadchars s = nextwchar fopen acceptbadchars (inputupdate false s)).
    { rewrite nextwchar_step. unfold inputinit. rewrite Hc. cbn [negb]. rewrite Hc.
      cbn [unread]. reflexivity. }
    destruct (inputupdate_fields false s) as (Hu & Hx & _). rewrite Hc in Hu.
    destruct (IHrest (inputupdate false s)) as (e & Hr & He).
    + apply inputupdate_closed.
    + rewrite (proj2 (inputupdate_closed false s)), Hn. reflexivity.
    + rewrite Hu. exact Hin.
    + rewrite Hu, Hx in *. exists e. split.
      * apply (reads_same fopen _ (inputupdate false s)); [symmetry; exact E | exact Hr].
      * replace (file_trouble acceptbadchars []) with false
          by (unfold file_trouble; destruct acceptbadchars; reflexivity).
        exact He.
  - inversion Hl as [|? ? Hi Hl']; subst.
    assert (Hstep : forall c : Z, c <> WEOF ->
               nextwchar fopen acceptbadchars s = (c, set_unread s (Named (i :: l)) l) ->
               exists e : state,
                 reads fopen acceptbadchars s
                       (c :: file_chars acceptbadchars l
                          ++ stream_of fopen acceptbadchars rest (stdin_unread s)) e /\
                 filenames e = [] /\ currentfile e = None /\
                 exitcode e = if file_trouble acceptbadchars l
                                 || trouble fopen acceptbadchars rest (stdin_unread s)
                              then EXIT_FAILURE else exitcode s).
    { intros c Hcw E.
      destruct (IH (set_unread s (Named (i :: l)) l)) as (e & Hr & He); try assumption.
      - reflexivity.
      - exists e. split; [|exact He]. eapply reads_char; [exact E | exact Hcw | exact Hr]. }
    destruct i as [c|b]; cbn [wellformed] in Hi.
    + cbn [file_chars app].
      replace (file_trouble acceptbadchars (Wc c :: l)) with (file_trouble acceptbadchars l)
        by reflexivity.
      apply Hstep; [exact Hi|].
      rewrite nextwchar_step. unfold inputinit. rewrite Hc. cbn [negb]. rewrite Hc.
      cbn [unread].
      destruct (Z.eqb_spec c WEOF); [contradiction | reflexivity].
    + destruct acceptbadchars.
      * cbn [file_chars app].
        replace (file_trouble true (Bad b :: l)) with (file_trouble true l) by reflexivity.
        apply Hstep; [apply flagged_not_weof; exact Hi|].
        rewrite nextwchar_step. unfold inputinit. rewrite Hc. cbn [negb]. rewrite Hc.
        cbn [unread]. reflexivity.
      * cbn [file_chars app]. cbn [file_trouble negb andb existsb orb].
        assert (E : nextwchar fopen false s = nextwchar fopen false (inputupdate true s)).
        { rewrite nextwchar_step. unfold inputinit. rewrite Hc. cbn [negb]. rewrite Hc.
          cbn [unread]. reflexivity. }
        destruct (inputupdate_fields true s) as (Hu & Hx & _). rewrite Hc in Hu.
        destruct (IHrest (inputupdate true s)) as (e & Hr & Hf & Hcl & He).
        -- apply inputupdate_closed.
        -- rewrite (proj2 (inputupdate_closed true s)), Hn. reflexivity.
        -- rewrite Hu. exact Hin.
        -- rewrite Hu, Hx in *. exists e.
           split; [|split; [exact Hf | split; [exact Hcl|]]].
           ++ apply (reads_same fopen false (inputupdate true s)); [symmetry; exact E | exact Hr].
           ++ rewrite He.
              destruct (trouble fopen false rest (stdin_unread s)); reflexivity.
Qed.



Lemma reads_stdin (fopen : string -> option (list item)) (acceptbadchars : bool)
      (name : string) (rest : list string) :
  read_through fopen acceptbadchars rest ->
  forall (l : list item) (s : state),
    currentfile s = Some Stdin -> filenames s = name :: rest ->
    stdin_unread s = l -> Forall wellformed l ->
    exists e : state,
      reads fopen acceptbadchars s
            (file_chars acceptbadchars l ++ stream_of fopen acceptbadchars rest []) e /\
      filenames e = [] /\ currentfile e = None /\
      exitcode e = if file_trouble acceptbadchars l
                      || trouble fopen acceptbadchars rest []
                   then EXIT_FAILURE else exitcode s.
Proof.
  intros IHrest. induction l as [|i l IH]; intros s Hc Hn Hs Hl.
  - assert (E : nextwchar fopen acceptbadchars s
                = nextwchar fopen acceptbadchars (inputupdate false s)).
    { rewrite nextwchar_step. unfold inputinit. rewrite Hc. cbn [negb]. rewrite Hc.
      cbn [unread]. rewrite Hs. reflexivity. }
    destruct (inputupdate_fields false s) as (Hu & Hx & _). rewrite Hc, Hs in Hu.
    destruct (IHrest (inputupdate false s)) as (e & Hr & He).
    + apply inputupdate_closed.
    + rewrite (proj2 (inputupdate_closed false s)), Hn. reflexivity.
    + rewrite Hu. constructor.
    + rewrite Hu, Hx in *. exists e. split.
      * apply (reads_same fopen _ (inputupdate false s)); [symmetry; exact E | exact Hr].
      * replace (file_trouble acceptbadchars []) with false
          by (unfold file_trouble; destruct acceptbadchars; reflexivity).
        exact He.
  - inversion Hl as [|? ? Hi Hl']; subst.
    assert (Hstep : forall c : Z, c <> WEOF ->
               nextwchar fopen acceptbadchars s = (c, set_unread s Stdin l) ->
               exists e : state,
                 reads fopen acceptbadchars s
                       (c :: file_chars acceptbadchars l
                          ++ stream_of fopen acceptbadchars rest []) e /\
                 filenames e = [] /\ currentfile e = None /\
                 exitcode e = if file_trouble acceptbadchars l
                                 || trouble fopen acceptbadchars rest []
                              then EXIT_FAILURE else exitcode s).
    { intros c Hcw E.
      destruct (IH (set_unread s Stdin l)) as (e & Hr & He); try assumption.
      - reflexivity.
      - reflexivity.
      - exists e. split; [|exact He]. eapply reads_char; [exact E | exact Hcw | exact Hr]. }
    destruct i as [c|b]; cbn [wellformed] in Hi.
    + cbn [file_chars app].
      replace (file_trouble acceptbadchars (Wc c :: l)) with (file_trouble acceptbadchars l)
        by reflexivity.
      apply Hstep; [exact Hi|].
      rewrite nextwchar_step. unfold inputinit. rewrite Hc. cbn [negb]. rewrite Hc.
      cbn [unread]. rewrite Hs.
      destruct (Z.eqb_spec c WEOF); [contradiction | reflexivity].
    + destruct acceptbadchars.
      * cbn [file_chars app].
        replace (file_trouble true (Bad b :: l)) with (file_trouble true l) by reflexivity.
        apply Hstep; [apply flagged_not_weof; exact Hi|].
        rewrite nextwchar_step. unfold inputinit. rewrite Hc. cbn [negb]. rewrite Hc.
        cbn [unread]. rewrite Hs. reflexivity.
      * cbn [file_chars app]. cbn [file_trouble negb andb existsb orb].
        assert (E : nextwchar fopen false s = nextwchar fopen false (inputupdate true s)).
        { rewrite nextwchar_step. unfold inputinit. rewrite Hc. cbn [negb]. rewrite Hc.
          cbn [unread]. rewrite Hs. reflexivity. }
        destruct (inputupdate_fields true s) as (Hu & Hx & _). rewrite Hc in Hu.
        destruct (IHrest (inputupdate true s)) as (e & Hr & Hf & Hcl & He).
        -- apply inputupdate_closed.
        -- rewrite (proj2 (inputupdate_closed true s)), Hn. reflexivity.
        -- rewrite Hu. constructor.
        -- rewrite Hu, Hx in *. exists e.
           split; [|split; [exact Hf | split; [exact Hcl|]]].
           ++ apply (reads_same fopen false (inputupdate true s)); [symmetry; exact E | exact Hr].
           ++ rewrite He.
              destruct (trouble fopen false rest []); reflexivity.
Qed.

Lemma reads_closed (fopen : string -> option (list item)) (acceptbadchars : bool) :
  files_wellformed fopen ->
  forall names : list string, read_through fopen acceptbadchars names.
Proof.
  intros Hwf. induction names as [|name rest IH]; intros s Hc Hn Hin.
  - exists s. cbn [stream_of trouble]. repeat split; try assumption.
    apply reads_end. unfold nextwchar. apply nextwchar_loop_closed; assumption.
  - assert (Hinit : inputinit fopen s = inputinit_next fopen (name :: rest) s).
    { unfold inputinit. rewrite Hc, Hn. reflexivity. }
    cbn [stream_of trouble]. cbn [inputinit_next] in Hinit.
    destruct (String.eqb name "-") eqn:Edash.
    + set (s1 := set_input s ("stdin"%string :: rest) (Some Stdin)) in *.
      destruct (reads_stdin fopen acceptbadchars "stdin" rest IH (stdin_unread s) s1)
        as (e & Hr & He); try reflexivity; try assumption.
      exists e. split; [|exact He].
      apply (reads_same fopen _ s1); [|exact Hr].
      rewrite (nextwchar_step _ _ s), (nextwchar_step _ _ s1), Hinit. reflexivity.
    + destruct (fopen name) as [l|] eqn:Eopen.
      * set (s1 := set_input s (name :: rest) (Some (Named l))) in *.
        destruct (reads_named fopen acceptbadchars name rest IH l s1)
          as (e & Hr & He); try reflexivity; try assumption.
        { exact (Hwf name l Eopen). }
        exists e. split; [|exact He].
        apply (reads_same fopen _ s1); [|exact Hr].
        rewrite (nextwchar_step _ _ s), (nextwchar_step _ _ s1), Hinit. reflexivity.
      * set (s1 := fail (set_input s rest None)).
        destruct (IH s1) as (e & Hr & Hf & Hcl & He); try reflexivity; try assumption.
        exists e. split; [|split; [exact Hf | split; [exact Hcl|]]].
        -- apply (reads_same fopen _ s1); [|exact Hr].
           assert (H1 : inputinit fopen s1 = inputinit_next fopen rest (fail s)).
           { exact (inputinit_next_fresh fopen rest rest None (fail s)). }
           assert (H0 : inputinit fopen s = inputinit_next fopen rest (fail s)).
           { rewrite Hinit. exact (inputinit_next_fresh fopen rest (name :: rest) None (fail s)). }
           rewrite (nextwchar_step _ _ s), (nextwchar_step _ _ s1), H0, H1. reflexivity.
        -- rewrite He.
           destruct (trouble fopen acceptbadchars rest (stdin_unread s1)); reflexivity.
Qed.

(** ** The state in which [dump] leaves the input *)

Section DumpEnd.

Variable linesize : Z.
Variable fopen : string -> option (list item).
Variable acceptbadchars : bool.

Local Abbreviation ends := (reads fopen acceptbadchars).






End DumpEnd.

(** ** The program as a whole *)

(** X13. [nextwchar] reads the named files as one stream: from a
    state with no file open, the characters it returns up to [WEOF]
    are those of the files in the order of their names, where a name
    that cannot be opened gives nothing, [-] gives what is left of
    standard input, and a file with an invalid byte is read whole
    with the byte flagged when invalid bytes are accepted and up to
    that byte when they are not. *)
Theorem files_read_in_order (fopen : string -> option (list item)) (acceptbadchars : bool)
        (s : state) :
  files_wellformed fopen -> Forall wellformed (stdin_unread s) ->
  currentfile s = None ->
  yields fopen acceptbadchars s
         (stream_of fopen acceptbadchars (filenames s) (stdin_unread s)).
Proof.
  intros Hwf Hin Hc.
  destruct (reads_closed fopen acceptbadchars Hwf (filenames s) s Hc eq_refl Hin)
    as (e & Hr & _).
  exact (reads_yields fopen acceptbadchars s e _ Hr).
Qed.


Section MainFacts.

Variable wcwidth : Z -> Z.
Variable iswspace : Z -> bool.
Context {mbstate_t : Type}.
Variable wcrtomb : Z -> mbstate_t -> option (list Z) * mbstate_t.
Variable fopen : string -> option (list item).

Local Abbreviation run := (main wcwidth iswspace wcrtomb fopen).

Lemma startstate_names (cfg : settings) (operands : list string) (stdin : list item) :
  filenames (startstate cfg operands stdin)
  = match operands with
    | [] => ["-"%string]
    | _ :: _ => operands
    end.
Proof. reflexivity. Qed.

(** X15. The dump of several files is the dump of their
    concatenation: without [-r], and with a line size that is not
    zero, [main] writes the lines of the characters of the named
    files (of standard input when none is named) from the start
    offset up to the limit, every line but the last full and each at
    the offset of its first character. *)
Theorem main_dump_text (fuel : nat) (mbs : mbstate_t) (opts : list option_seen)
        (operands : list string) (stdin : list item) (cfg : settings) :
  parsecommandline opts = inr cfg -> opt_forward cfg = true ->
  0 < opt_linesize cfg ->
  files_wellformed fopen -> Forall wellformed stdin ->
  let names := filenames (startstate cfg operands stdin) in
  let cs := stream_of fopen (opt_acceptbadchars cfg) names stdin in
  (length cs + 2 <= fuel)%nat ->
  exists (calls : list call) (status : Z),
    run fuel mbs opts operands stdin
    = Some (inr (Ok (Text (dumptext (opt_linesize cfg) wcwidth calls), status))) /\
    units calls
    = firstn (Z.to_nat (opt_maxinputlen cfg)) (skipn (Z.to_nat (opt_startoffset cfg)) cs) /\
    windowed (opt_linesize cfg) (opt_startoffset cfg) calls.
Proof.
  intros Hp Hf Hw Hwf Hin names cs Hfuel.
  destruct (parseoptions_bounds opts defaults cfg defaults_within_bounds Hp)
    as (Hs & Hm & _).
  set (s := startstate cfg operands stdin).
  assert (Hy : yields fopen (opt_acceptbadchars cfg) s cs).
  { destruct (reads_closed fopen (opt_acceptbadchars cfg) Hwf names s eq_refl eq_refl Hin)
      as (e & Hr & _).
    exact (reads_yields fopen _ s e _ Hr). }
  destruct (dump_calls_spec (opt_linesize cfg) fopen (opt_acceptbadchars cfg) s cs fuel
                            Hw (proj1 Hs) (proj1 Hm) Hy Hfuel)
    as (calls & s' & E & Hu & Hwin).
  exists calls, (exitcode s'). split; [|split; [exact Hu | exact Hwin]].
  unfold main. rewrite Hp, Hf. cbv zeta. fold s. unfold dump. rewrite E. reflexivity.
Qed.


End MainFacts.

Lemma twofiles_wellformed : files_wellformed twofiles.
Proof.
  intros name l H. unfold twofiles in H.
  destruct (String.eqb name "a").
  { injection H as <-. repeat constructor; discriminate. }
  destruct (String.eqb name "b"); [|discriminate].
  injection H as <-. repeat constructor; discriminate.
Qed.

Lemma stdin_wellformed : Forall wellformed [Wc 63].
Proof. repeat constructor. discriminate. Qed.

Lemma files_read_in_order_witness :
  yields twofiles false
         (mkstate 0 10 ["a"; "x"; "b"; "-"]%string None [Wc 63] 0)
         [72; 105; 33; 63].
Proof.
  exact (files_read_in_order twofiles false
           (mkstate 0 10 ["a"; "x"; "b"; "-"]%string None [Wc 63] 0)
           twofiles_wellformed stdin_wellformed eq_refl).
Defined.


Lemma main_dump_text_witness :
  exists (calls : list call) (status : Z),
    main Utf8.wcwidth Utf8.iswspace Utf8.wcrtomb twofiles 9 tt
         [("l"%char, Some "10"%string)] ["a"; "b"]%string [Wc 63]
    = Some (inr (Ok (Text (dumptext 8 Utf8.wcwidth calls), status))) /\
    units calls = [72; 105; 33] /\
    windowed 8 0 calls.
Proof.
  assert (Hfuel : (length [72; 105; 33] + 2 <= 9)%nat) by (cbn [length]; lia).
  exact (main_dump_text Utf8.wcwidth Utf8.iswspace Utf8.wcrtomb twofiles 9 tt
           [("l"%char, Some "10"%string)] ["a"; "b"]%string [Wc 63]
           (mksettings 0 10 8 false true) eq_refl eq_refl eq_refl
           twofiles_wellformed stdin_wellformed Hfuel).
Defined.


(** ** Numeric arguments *)

Lemma digit_decimal (c : Z) : decimal_digit c -> Strtol.digit 10 c = Some (c - 48).
Proof.
  unfold decimal_digit, Strtol.digit. intros Hc.
  destruct (Z.leb_spec 48 c); [|lia]. destruct (Z.leb_spec c 57); [|lia].
  cbn [andb]. destruct (Z.ltb_spec (c - 48) 10); [reflexivity | lia].
Qed.

Lemma digits_decimal (l : list Z) :
  Forall decimal_digit l ->
  forall (acc : Z) (seen : bool),
    Strtol.digits 10 l acc seen
    = (fold_left (fun a c => 10 * a + (c - 48)) l acc,
       match l with [] => seen | _ :: _ => true end, []).
Proof.
  induction 1 as [|c l Hc Hl IH]; intros acc seen; [reflexivity|].
  cbn [Strtol.digits fold_left]. rewrite (digit_decimal c Hc), IH.
  destruct l; reflexivity.
Qed.

Lemma decimal_value_nonneg (l : list Z) :
  Forall decimal_digit l ->
  forall acc : Z, 0 <= acc -> 0 <= fold_left (fun a c => 10 * a + (c - 48)) l acc.
Proof.
  induction 1 as [|c l Hc Hl IH]; intros acc Hacc; [exact Hacc|].
  cbn [fold_left]. apply IH. unfold decimal_digit in Hc. lia.
Qed.

(** [strtol] on a decimal numeral. *)
Lemma strtol_decimal (ds : list Z) :
  decimal_numeral ds ->
  Strtol.strtol ds
  = if decimal_value ds >? LONG_MAX then (LONG_MAX, false, [], true)
    else (decimal_value ds, false, [], false).
Proof.
  intros [Hhd Hall]. destruct ds as [|c t]; [contradiction|].
  inversion Hall as [|? ? Hc Ht]; subst.
  assert (Hm : Strtol.magnitude (c :: t) = Strtol.digits 10 (c :: t) 0 false).
  { unfold decimal_digit in Hc.
    assert (Hcases : c = 49 \/ c = 50 \/ c = 51 \/ c = 52 \/ c = 53 \/ c = 54 \/ c = 55
                     \/ c = 56 \/ c = 57) by lia.
    repeat (destruct Hcases as [->|Hcases]; [reflexivity|]). subst c. reflexivity. }
  assert (Hs : Strtol.skipspace (c :: t) = c :: t).
  { cbn [Strtol.skipspace]. unfold Strtol.isspace, decimal_digit in *.
    destruct (Z.leb_spec c 13); [lia|]. destruct (Z.eqb_spec c 32); [lia|].
    rewrite andb_false_r. reflexivity. }
  unfold Strtol.strtol. rewrite Hs.
  assert (Hsign : match c :: t with
                  | 45 :: t0 => (true, t0)
                  | 43 :: t0 => (false, t0)
                  | _ => (false, c :: t)
                  end = (false, c :: t)).
  { unfold decimal_digit in Hc.
    assert (Hcases : c = 48 \/ c = 49 \/ c = 50 \/ c = 51 \/ c = 52 \/ c = 53 \/ c = 54
                     \/ c = 55 \/ c = 56 \/ c = 57) by lia.
    repeat (destruct Hcases as [->|Hcases]; [reflexivity|]). subst c. reflexivity. }
  rewrite Hsign, Hm, (digits_decimal (c :: t) Hall). cbn [negb].
  reflexivity.
Qed.

(** X17. [getn] on a decimal numeral (digits, the first not [0])
    returns the number it denotes when this is at most [INT_MAX] and
    at most [maxval], where [maxval] is not zero; it calls [die]
    with the message for an invalid argument when the number exceeds
    [INT_MAX], and with the message for too large a value when it
    exceeds only [maxval]. *)
Theorem getn_decimal (erange0 : bool) (text name : string) (maxval : Z) :
  decimal_numeral (chars text) ->
  let v := decimal_value (chars text) in
  getn erange0 (Some text) name maxval
  = if v >? INT_MAX then inl (InvalidArgument text name)
    else if negb (maxval =? 0) && (v >? maxval) then inl (ValueTooLarge name maxval)
         else inr v.
Proof.
  intros Hd v. pose proof (strtol_decimal (chars text) Hd) as E. fold v in E.
  assert (Hv : 0 <= v).
  { apply decimal_value_nonneg; [exact (proj2 Hd) | lia]. }
  destruct text as [|a text]; [destruct Hd as [[] _]|].
  unfold getn. rewrite E.
  destruct (Z.gtb_spec v LONG_MAX) as [Hbig|Hsmall].
  - cbn [negb orb].
    destruct (Z.gtb_spec v INT_MAX) as [_|Hle]; [|unfold INT_MAX, LONG_MAX in *; lia].
    change (LONG_MAX =? LONG_MAX) with true. rewrite orb_true_r. reflexivity.
  - cbn [negb orb].
    destruct (Z.ltb_spec v 0) as [|_]; [lia|]. rewrite orb_false_r.
    destruct (Z.gtb_spec v INT_MAX) as [Hgt|Hle]; [rewrite orb_true_r; reflexivity|].
    rewrite orb_false_r.
    destruct (Z.eqb_spec v LONG_MAX) as [Heq|_];
      [unfold INT_MAX, LONG_MAX in *; lia|].
    reflexivity.
Qed.

Lemma getn_decimal_witness :
  getn false (Some "255"%string) "count" 255 = inr 255.
Proof.
  assert (Hd : decimal_numeral (chars "255")).
  { split; [discriminate|]. repeat constructor; discriminate. }
  exact (getn_decimal false "255" "count" 255 Hd).
Defined.

(** ** The start offset and [undump] *)

Section StartOffset.

Variable linesize : Z.
Variable iswspace : Z -> bool.
Context {mbstate_t : Type}.
Variable wcrtomb : Z -> mbstate_t -> option (list Z) * mbstate_t.
Variable fopen : string -> option (list item).
Variable so : Z.

Local Abbreviation moved := (fun s : state => set_startoffset s so).

Lemma inputinit_next_start (names : list string) :
  forall s, inputinit_next fopen names (moved s)
            = on_state moved (inputinit_next fopen names s).
Proof.
  induction names as [|name rest IH]; intros s; [reflexivity|].
  cbn [inputinit_next]. destruct (String.eqb name "-"); [reflexivity|].
  destruct (fopen name); [reflexivity|].
  rewrite <- IH. reflexivity.
Qed.

Lemma inputinit_start (s : state) :
  inputinit fopen (moved s) = on_state moved (inputinit fopen s).
Proof.
  unfold inputinit. cbn [set_startoffset currentfile filenames].
  destruct (currentfile s); [reflexivity|].
  apply inputinit_next_start.
Qed.

Lemma inputupdate_start (err : bool) (s : state) :
  inputupdate err (moved s) = moved (inputupdate err s).
Proof.
  destruct s as [so0 m names cur unr ec]. unfold inputupdate.
  destruct err, cur as [[|l]|]; reflexivity.
Qed.

Lemma nextwline_loop_start (len : Z) (turns : nat) :
  forall s, nextwline_loop fopen turns len (moved s)
            = on_state moved (nextwline_loop fopen turns len s).
Proof.
  induction turns as [|turns IH]; intros s; [reflexivity|].
  cbn [nextwline_loop]. rewrite inputinit_start.
  destruct (inputinit fopen s) as [ok s1]. unfold on_state at 1. cbn [fst snd].
  destruct ok; [|reflexivity]. cbn [negb].
  change (currentfile (set_startoffset s1 so)) with (currentfile s1).
  destruct (currentfile s1) as [f|]; [|reflexivity].
  replace (unread (set_startoffset s1 so) f) with (unread s1 f) by (destruct f; reflexivity).
  destruct (fgetws len (unread s1 f)) as [[[buf|] err] l].
  - destruct f; reflexivity.
  - replace (set_unread (set_startoffset s1 so) f l) with (moved (set_unread s1 f l))
      by (destruct f; reflexivity).
    rewrite inputupdate_start. apply IH.
Qed.

Lemma nextwline_start (len : Z) (s : state) :
  nextwline fopen len (moved s) = on_state moved (nextwline fopen len s).
Proof. unfold nextwline. apply nextwline_loop_start. Qed.

Lemma undump_loop_start (len : Z) (fuel : nat) :
  forall (s : state) (w : written mbstate_t),
    undump_loop linesize iswspace wcrtomb fopen fuel len (moved s) w
    = restarted so (undump_loop linesize iswspace wcrtomb fopen fuel len s w).
Proof.
  induction fuel as [|fuel IH]; intros s w; [reflexivity|].
  cbn [undump_loop]. rewrite nextwline_start.
  destruct (nextwline fopen len s) as [[line|] s1]; unfold on_state; cbn [fst snd];
    [|reflexivity].
  change (maxinputlen (set_startoffset s1 so)) with (maxinputlen s1).
  destruct (maxinputlen s1 >? 0); [|reflexivity].
  destruct (translatedumpline linesize iswspace wcrtomb (Some line) (snd w))
    as [[n [chunks mbs1]]|]; [|reflexivity].
  exact (IH (set_maxinputlen s1 (maxinputlen s1 - n)) (fst w ++ chunks, mbs1)).
Qed.

(** X18. [undump] ignores the start offset: from a state with
    another start offset it runs as it does from the given state,
    writes the same and leaves the same input and exit code. *)
Theorem undump_ignores_start (fuel : nat) (mbs : mbstate_t) (s : state) :
  undump linesize iswspace wcrtomb fopen fuel mbs (set_startoffset s so)
  = restarted so (undump linesize iswspace wcrtomb fopen fuel mbs s).
Proof.
  unfold undump. rewrite undump_loop_start.
  destruct (undump_loop linesize iswspace wcrtomb fopen fuel (linesize * 8 + 20) s ([], mbs))
    as [[[s1 [chunks mbs1]]|]|]; [|reflexivity|reflexivity].
  cbn [restarted option_map bind fst snd].
  destruct (translatedumpline linesize iswspace wcrtomb None mbs1)
    as [[n [flush mbs2]]|]; reflexivity.
Qed.

End StartOffset.
